(** * Timeline page controller (script.js): filter, search and scroll logic

    A shallow embedding of the two classes of [script.js], [TimelineScroll]
    and [TimelineController] (the debounced variant, first in the file), and
    of the browser primitives they call, followed by the properties of the
    specification that concern them.

    Conventions of the embedding.
    - A JavaScript string is a [string]; each [ascii] stands for one code
      unit in the Latin-1 range (0..255), on which [toLowerCase] and the
      case folding of the [i] flag act character by character.
    - [null], [undefined] and strings are the values of [jsval]; a missing
      [data-*] attribute reads as [JUndefined].
    - A [Map] keyed by DOM nodes is a [gmap] keyed by the node's position in
      the node list it was taken from.
    - Code that returns, throws, or calls a part of the browser outside the
      embedding ends in [Done], [Thrown] or [Unmodelled].

    [script.js] holds an older copy of both classes after the first; the
    embedding follows the first.  The intersection observer and the marker
    animation of [TimelineScroll] are left out. *)

From Stdlib Require Import Ascii String NArith ZArith Floats.
From stdpp Require Import base option list gmap strings.

Local Open Scope string_scope.

(** ** JavaScript strings and values *)

Module Js.

(** ['A'..'Z'], and the Latin-1 capitals ['À'..'Þ'] without ['×']. *)
Definition is_upper (n : N) : bool :=
  ((65 <=? n) && (n <=? 90) || (192 <=? n) && (n <=? 222) && negb (n =? 215))%N.

(** ['a'..'z'], and the Latin-1 small letters ['à'..'þ'] without ['÷']. *)
Definition is_lower (n : N) : bool :=
  ((97 <=? n) && (n <=? 122) || (224 <=? n) && (n <=? 254) && negb (n =? 247))%N.

Definition lower_unit (c : ascii) : ascii :=
  let n := N_of_ascii c in
  if is_upper n then ascii_of_N (n + 32) else c.

(** [String.prototype.toLowerCase]. *)
Fixpoint toLowerCase (s : string) : string :=
  match s with
  | EmptyString => EmptyString
  | String c s' => String (lower_unit c) (toLowerCase s')
  end.

(** The [Canonicalize] operation of a regular expression with the [i] flag
    (no [u] flag): the simple upper-case mapping of the code unit. *)
Definition canonicalize (c : ascii) : ascii :=
  let n := N_of_ascii c in
  if is_lower n then ascii_of_N (n - 32) else c.

(** [s.startsWith(p)]. *)
Fixpoint startsWith (s p : string) {struct p} : bool :=
  match p, s with
  | EmptyString, _ => true
  | String a p', String b s' => Ascii.eqb a b && startsWith s' p'
  | String _ _, EmptyString => false
  end.

(** [s.includes(t)]: [t] occurs in [s] at some position. *)
Fixpoint includes (s t : string) : bool :=
  startsWith s t ||
  match s with
  | EmptyString => false
  | String _ s' => includes s' t
  end.

(** [Array.prototype.join(sep)] on an array of strings. *)
Fixpoint join (sep : string) (l : list string) : string :=
  match l with
  | [] => ""
  | [x] => x
  | x :: rest => x ++ sep ++ join sep rest
  end.

Inductive jsval : Type :=
  | JNull
  | JUndefined
  | JStr (s : string).

Definition jsval_eqb (a b : jsval) : bool :=
  match a, b with
  | JNull, JNull => true
  | JUndefined, JUndefined => true
  | JStr x, JStr y => String.eqb x y
  | _, _ => false
  end.

(** [a === b]. *)
Definition strict_eq (a b : jsval) : bool := jsval_eqb a b.

(** [ToBoolean]: [null], [undefined] and the empty string are falsy. *)
Definition truthy (v : jsval) : bool :=
  match v with
  | JStr s => negb (String.eqb s "")
  | JNull | JUndefined => false
  end.

(** [`${v}`]: the string a value contributes to a template literal. *)
Definition template (v : jsval) : string :=
  match v with
  | JNull => "null"
  | JUndefined => "undefined"
  | JStr s => s
  end.

(** Reading [dataset.name]: the attribute's value, [undefined] without it. *)
Definition dataset (attr : option string) : jsval :=
  match attr with
  | Some s => JStr s
  | None => JUndefined
  end.

End Js.

Export Js.

(** ** Regular expressions: [new RegExp(source, 'gi')] and [replace]

    The engine covers the patterns built from literal characters, groups
    [( )] and alternation [|].  A source that uses any other syntax
    character is reported as [Unsupported]: the embedding says nothing
    about it. *)

Module RegExp.

Inductive regex : Type :=
  | REmpty
  | RChar (c : ascii)
  | RSeq (r1 r2 : regex)
  | RAlt (r1 r2 : regex)
  | RGroup (n : nat) (r : regex).

Inductive compiled : Type :=
  | Pattern (r : regex)
  | SyntaxError
  | Unsupported.

(** Syntax characters the engine does not interpret:
    [^ $ \ . * + ? [ ] { }]. *)
Definition uninterpreted (c : ascii) : bool :=
  existsb (Ascii.eqb c) (list_ascii_of_string "^$\.*+?[]{}").

Fixpoint any_uninterpreted (s : string) : bool :=
  match s with
  | EmptyString => false
  | String c s' => uninterpreted c || any_uninterpreted s'
  end.

(** One open group of the parser: its capture number, the alternatives
    completed so far and the terms of the alternative being read. *)
Record frame : Type := Frame {
  fr_group : nat;
  fr_alts : list regex;
  fr_seq : list regex
}.

Definition seq_of (terms : list regex) : regex := foldr RSeq REmpty terms.

Fixpoint alt_of (alts : list regex) (last : regex) : regex :=
  match alts with
  | [] => last
  | a :: rest => RAlt a (alt_of rest last)
  end.

Definition close_frame (f : frame) : regex :=
  alt_of (fr_alts f) (seq_of (fr_seq f)).

Definition push_term (t : regex) (f : frame) : frame :=
  Frame (fr_group f) (fr_alts f) (fr_seq f ++ [t]).

(** Reads the pattern left to right: [cur] is the group being read (the
    whole pattern at first), [stack] the groups around it, innermost first,
    and [next] the number the next opening parenthesis receives. *)
Fixpoint parse (s : string) (next : nat) (cur : frame) (stack : list frame)
  : option regex :=
  match s with
  | EmptyString =>
      match stack with
      | [] => Some (close_frame cur)
      | _ :: _ => None
      end
  | String c s' =>
      if Ascii.eqb c "(" then
        parse s' (S next) (Frame next [] []) (cur :: stack)
      else if Ascii.eqb c ")" then
        match stack with
        | [] => None
        | parent :: stack' =>
            parse s' next
              (push_term (RGroup (fr_group cur) (close_frame cur)) parent) stack'
        end
      else if Ascii.eqb c "|" then
        parse s' next
          (Frame (fr_group cur) (fr_alts cur ++ [seq_of (fr_seq cur)]) []) stack
      else
        parse s' next (push_term (RChar c) cur) stack
  end.

(** [new RegExp(source, 'gi')]: unbalanced parentheses are a
    [SyntaxError]. *)
Definition RegExp_gi (source : string) : compiled :=
  if any_uninterpreted source then Unsupported
  else match parse source 1 (Frame 0 [] []) [] with
       | Some r => Pattern r
       | None => SyntaxError
       end.

(** The part of [s] consumed when [rest] is what remains of it. *)
Definition consumed (s rest : string) : string :=
  substring 0 (String.length s - String.length rest) s.

(** All the ways [r] matches a prefix of [s], in the order the backtracking
    matcher tries them, each with what remains of [s] and the captures. *)
Fixpoint matcher (r : regex) (s : string) (caps : gmap nat string)
  : list (string * gmap nat string) :=
  match r with
  | REmpty => [(s, caps)]
  | RChar c =>
      match s with
      | String d s' =>
          if Ascii.eqb (canonicalize c) (canonicalize d) then [(s', caps)] else []
      | EmptyString => []
      end
  | RSeq r1 r2 =>
      flat_map (fun m => matcher r2 (fst m) (snd m)) (matcher r1 s caps)
  | RAlt r1 r2 => matcher r1 s caps ++ matcher r2 s caps
  | RGroup n r1 =>
      map (fun m => (fst m, <[n := consumed s (fst m)]> (snd m))) (matcher r1 s caps)
  end.

(** A match of [r] at the start of [s]: its length and its captures. *)
Definition exec_at (r : regex) (s : string) : option (nat * gmap nat string) :=
  match matcher r s ∅ with
  | (rest, caps) :: _ => Some (String.length s - String.length rest, caps)
  | [] => None
  end.

(** A replacement string, read once: literal text and [$n] references. *)
Inductive piece : Type :=
  | Lit (s : string)
  | Cap (n : nat).

(** [GetSubstitution]: a group that took no part in the match contributes
    the empty string. *)
Fixpoint substitute (repl : list piece) (caps : gmap nat string) : string :=
  match repl with
  | [] => ""
  | Lit s :: rest => s ++ substitute rest caps
  | Cap n :: rest => default "" (caps !! n) ++ substitute rest caps
  end.

(** [text.replace(regex, replacement)] for a global [regex]: every match,
    left to right and without overlap, is replaced; [skip] counts the
    characters of the current match still to pass over.  After an empty
    match the search resumes one character later. *)
Fixpoint replace_from (r : regex) (repl : list piece) (skip : nat) (s : string)
  : string :=
  match s with
  | EmptyString =>
      match skip, exec_at r "" with
      | 0, Some (_, caps) => substitute repl caps
      | _, _ => ""
      end
  | String c s' =>
      match skip with
      | S k => replace_from r repl k s'
      | 0 =>
          match exec_at r s with
          | Some (0, caps) =>
              substitute repl caps ++ String c (replace_from r repl 0 s')
          | Some (S k, caps) =>
              substitute repl caps ++ replace_from r repl k s'
          | None => String c (replace_from r repl 0 s')
          end
      end
  end.

Definition replace (text : string) (r : regex) (repl : list piece) : string :=
  replace_from r repl 0 text.

End RegExp.

(** ** The DOM fragment of a title or a description

    The children of an [h3] or [p] element are text nodes and
    [<span class=search-highlight>] elements holding text. *)

Module Html.

Inductive Node : Type :=
  | Text (data : string)
  | HighlightSpan (data : string).

Definition node_text (n : Node) : string :=
  match n with
  | Text d => d
  | HighlightSpan d => d
  end.

(** [element.textContent]. *)
Fixpoint textContent (children : list Node) : string :=
  match children with
  | [] => ""
  | n :: rest => node_text n ++ textContent rest
  end.

Definition is_highlight (n : Node) : bool :=
  match n with
  | HighlightSpan _ => true
  | Text _ => false
  end.

(** [element.querySelectorAll('.search-highlight').length]. *)
Definition count_highlights (children : list Node) : nat :=
  length (filter (fun n => is_highlight n = true) children).

(** [parent.normalize()]: empty text nodes are removed and adjacent text
    nodes are joined. *)
Fixpoint normalize (children : list Node) : list Node :=
  match children with
  | [] => []
  | Text d :: rest =>
      if String.eqb d "" then normalize rest
      else match normalize rest with
           | Text d' :: rest' => Text (d ++ d') :: rest'
           | rest' => Text d :: rest'
           end
  | HighlightSpan d :: rest => HighlightSpan d :: normalize rest
  end.

(** [parent.replaceChild(document.createTextNode(h.textContent), h)] for
    the first highlight span [h] among the children. *)
Fixpoint replace_first_highlight (children : list Node) : option (list Node) :=
  match children with
  | [] => None
  | HighlightSpan d :: rest => Some (Text d :: rest)
  | Text d :: rest => cons (Text d) <$> replace_first_highlight rest
  end.

Definition dquote : string := String (ascii_of_nat 34) EmptyString.

Definition open_tag : string :=
  "<span class=" ++ dquote ++ "search-highlight" ++ dquote ++ ">".

Definition close_tag : string := "</span>".

Inductive token : Type :=
  | TChar (c : ascii)
  | TOpen
  | TClose.

Definition is_alpha (c : ascii) : bool :=
  let n := N_of_ascii c in
  ((65 <=? n) && (n <=? 90) || (97 <=? n) && (n <=? 122))%N.

Definition is_digit (c : ascii) : bool :=
  let n := N_of_ascii c in ((48 <=? n) && (n <=? 57))%N.

(** After ['<'], the characters that open a tag, a comment or a
    declaration. *)
Definition opens_markup (rest : string) : bool :=
  match rest with
  | String c _ =>
      is_alpha c || Ascii.eqb c "/" || Ascii.eqb c "!" || Ascii.eqb c "?"
  | EmptyString => false
  end.

(** After ['&'], the characters that start a character reference. *)
Definition opens_reference (rest : string) : bool :=
  match rest with
  | String c _ => is_alpha c || is_digit c || Ascii.eqb c "#"
  | EmptyString => false
  end.

(** The tokenizer of the HTML fragment parser, on the markup this program
    produces: the highlight span's two tags, the references [&amp;], [&lt;]
    and [&gt;], and plain characters, a ['<'] or ['&'] that opens nothing
    among them.  On any other markup, and on the characters the input
    stream rewrites (NUL, CR), the result is [None]: the embedding does not
    cover them.  [skip] counts the characters of the current token still to
    pass over. *)
Fixpoint tokenize (skip : nat) (s : string) : option (list token) :=
  match s with
  | EmptyString => Some []
  | String c s' =>
      match skip with
      | S k => tokenize k s'
      | 0 =>
          if startsWith s open_tag then
            cons TOpen <$> tokenize (String.length open_tag - 1) s'
          else if startsWith s close_tag then
            cons TClose <$> tokenize (String.length close_tag - 1) s'
          else if startsWith s "&amp;" then
            cons (TChar "&") <$> tokenize 4 s'
          else if startsWith s "&lt;" then
            cons (TChar "<") <$> tokenize 3 s'
          else if startsWith s "&gt;" then
            cons (TChar ">") <$> tokenize 3 s'
          else if Ascii.eqb c "<" && opens_markup s' then None
          else if Ascii.eqb c "&" && opens_reference s' then None
          else if (N_of_ascii c =? 0)%N || (N_of_ascii c =? 13)%N then None
          else cons (TChar c) <$> tokenize 0 s'
      end
  end.

(** The node under construction: a text node among the element's children,
    or the text of an open highlight span. *)
Inductive building : Type :=
  | InText (data : string)
  | InSpan (data : string).

Definition flush_text (done : list Node) (data : string) : list Node :=
  if String.eqb data "" then done else (done ++ [Text data])%list.

(** Tree construction.  An end tag with no open span is ignored, a span
    still open at the end of the input is closed there; a span inside a
    span is outside the embedding ([None]). *)
Fixpoint build (toks : list token) (done : list Node) (cur : building)
  : option (list Node) :=
  match toks, cur with
  | [], InText d => Some (flush_text done d)
  | [], InSpan d => Some (done ++ [HighlightSpan d])%list
  | TChar c :: rest, InText d => build rest done (InText (d ++ String c ""))
  | TChar c :: rest, InSpan d => build rest done (InSpan (d ++ String c ""))
  | TOpen :: rest, InText d => build rest (flush_text done d) (InSpan "")
  | TOpen :: rest, InSpan _ => None
  | TClose :: rest, InText d => build rest done (InText d)
  | TClose :: rest, InSpan d => build rest (done ++ [HighlightSpan d])%list (InText "")
  end.

(** The children [element.innerHTML = html] installs. *)
Definition parse_fragment (html : string) : option (list Node) :=
  toks ← tokenize 0 html; build toks [] (InText "").

End Html.

(** ** The page and the controller's state *)

Module Timeline.

Import RegExp Html.

(** The inline style properties the controller writes. *)
Record Style : Type := mkStyle {
  display : string;
  opacity : string;
  transform : string
}.

(** An [.event] node: its inline style, its [data-category] and
    [data-subcategory] attributes, the children of its [h3] and [p], and
    the text of its year label and of its tag labels. *)
Record EventNode : Type := mkEvent {
  style : Style;
  data_category : option string;
  data_subcategory : option string;
  h3 : list Node;
  p : list Node;
  event_year : string;
  category_tags : list string;
  subcategory_tags : list string
}.

(** A [.timeline-section]: its inline [display] and the [.event] nodes
    below it, by their position in [document.querySelectorAll('.event')]. *)
Record SectionNode : Type := mkSection {
  section_display : string;
  section_events : list nat
}.

Inductive control_class : Type :=
  | FilterBtn
  | SubcategoryBtn
  | OtherElement.

(** An element that carries [data-filter] or is one of the buttons:
    its class, the attribute, the id of the [.subcategory-buttons]
    container around it if any, and whether its class list has [active]. *)
Record Control : Type := mkControl {
  control_class_of : control_class;
  data_filter : option string;
  container : option string;
  active : bool
}.

(** The document: the events, the sections, the controls in document
    order, the [.subcategory-buttons] containers by id with whether their
    class list has [show], and the value of [#searchInput].  The element
    [getElementById] finds for a filter, when there is one, is taken to be
    one of these containers. *)
Record Page : Type := mkPage {
  events : list EventNode;
  timelineSections : list SectionNode;
  controls : list Control;
  pickers : gmap string bool;
  searchInput_value : string
}.

(** An entry of [this.eventData]. *)
Record EventData : Type := mkData {
  text : string;
  category : jsval;
  subcategory : jsval
}.

(** The fields of the [TimelineController] instance, and the [timeout]
    variable of each of its two debounced closures. *)
Record Controller : Type := mkController {
  currentFilter : string;
  currentSubcategory : jsval;
  currentSearchTerm : string;
  eventData : gmap nat EventData;
  debouncedSearch_timeout : option nat;
  debouncedFilter_timeout : option nat
}.

(** What a timer runs when it fires. *)
Inductive task : Type :=
  | LaterSearch
  | LaterFilter
  | HideIfFaded (event : nat)
  | SectionVisibility.

Record Timer : Type := mkTimer {
  timer_id : nat;
  due : nat;
  job : task
}.

(** The event loop: the clock in milliseconds, the next timer id, the
    pending timers in the order they were set, and the number of pending
    animation-frame callbacks of [applyAllFilters]. *)
Record Loop : Type := mkLoop {
  now : nat;
  next_timer : nat;
  timers : list Timer;
  frames : nat
}.

Record World : Type := mkWorld {
  this : Controller;
  page : Page;
  loop : Loop
}.

Inductive exn : Type :=
  | TypeError
  | InvalidRegExp.

(** The result of running a piece of code: it returned, it threw (the
    state is the one the exception left behind), or it left the part of
    the browser this embedding covers. *)
Inductive outcome (A : Type) : Type :=
  | Done (a : A)
  | Thrown (e : exn) (a : A)
  | Unmodelled.

Arguments Done {A} a.
Arguments Thrown {A} e a.
Arguments Unmodelled {A}.

Definition and_then {A : Type} (o : outcome A) (k : A -> outcome A) : outcome A :=
  match o with
  | Done a => k a
  | Thrown e a => Thrown e a
  | Unmodelled => Unmodelled
  end.

Notation "o >>> k" := (and_then o k) (at level 61, left associativity).

(** The state an execution ends in, returned or thrown. *)
Definition final {A : Type} (o : outcome A) : option A :=
  match o with
  | Done a => Some a
  | Thrown _ a => Some a
  | Unmodelled => None
  end.

(** *** Field updates *)

Definition with_this (f : Controller -> Controller) (w : World) : World :=
  mkWorld (f (this w)) (page w) (loop w).

Definition with_page (f : Page -> Page) (w : World) : World :=
  mkWorld (this w) (f (page w)) (loop w).

Definition with_loop (f : Loop -> Loop) (w : World) : World :=
  mkWorld (this w) (page w) (f (loop w)).

Definition set_currentFilter (v : string) (c : Controller) : Controller :=
  mkController v (currentSubcategory c) (currentSearchTerm c) (eventData c)
    (debouncedSearch_timeout c) (debouncedFilter_timeout c).

Definition set_currentSubcategory (v : jsval) (c : Controller) : Controller :=
  mkController (currentFilter c) v (currentSearchTerm c) (eventData c)
    (debouncedSearch_timeout c) (debouncedFilter_timeout c).

Definition set_currentSearchTerm (v : string) (c : Controller) : Controller :=
  mkController (currentFilter c) (currentSubcategory c) v (eventData c)
    (debouncedSearch_timeout c) (debouncedFilter_timeout c).

Definition set_eventData (v : gmap nat EventData) (c : Controller) : Controller :=
  mkController (currentFilter c) (currentSubcategory c) (currentSearchTerm c) v
    (debouncedSearch_timeout c) (debouncedFilter_timeout c).

Definition set_debouncedSearch_timeout (v : option nat) (c : Controller) : Controller :=
  mkController (currentFilter c) (currentSubcategory c) (currentSearchTerm c)
    (eventData c) v (debouncedFilter_timeout c).

Definition set_debouncedFilter_timeout (v : option nat) (c : Controller) : Controller :=
  mkController (currentFilter c) (currentSubcategory c) (currentSearchTerm c)
    (eventData c) (debouncedSearch_timeout c) v.

Definition map_events (f : list EventNode -> list EventNode) (pg : Page) : Page :=
  mkPage (f (events pg)) (timelineSections pg) (controls pg) (pickers pg)
    (searchInput_value pg).

Definition map_sections (f : list SectionNode -> list SectionNode) (pg : Page) : Page :=
  mkPage (events pg) (f (timelineSections pg)) (controls pg) (pickers pg)
    (searchInput_value pg).

Definition map_controls (f : list Control -> list Control) (pg : Page) : Page :=
  mkPage (events pg) (timelineSections pg) (f (controls pg)) (pickers pg)
    (searchInput_value pg).

Definition map_pickers (f : gmap string bool -> gmap string bool) (pg : Page) : Page :=
  mkPage (events pg) (timelineSections pg) (controls pg) (f (pickers pg))
    (searchInput_value pg).

Definition set_searchInput_value (v : string) (pg : Page) : Page :=
  mkPage (events pg) (timelineSections pg) (controls pg) (pickers pg) v.

Definition set_style (st : Style) (e : EventNode) : EventNode :=
  mkEvent st (data_category e) (data_subcategory e) (h3 e) (p e)
    (event_year e) (category_tags e) (subcategory_tags e).

Definition set_h3 (c : list Node) (e : EventNode) : EventNode :=
  mkEvent (style e) (data_category e) (data_subcategory e) c (p e)
    (event_year e) (category_tags e) (subcategory_tags e).

Definition set_p (c : list Node) (e : EventNode) : EventNode :=
  mkEvent (style e) (data_category e) (data_subcategory e) (h3 e) c
    (event_year e) (category_tags e) (subcategory_tags e).

Definition set_active (b : bool) (c : Control) : Control :=
  mkControl (control_class_of c) (data_filter c) (container c) b.

(** *** Timers and animation frames *)

(** [setTimeout(job, wait)]: the id of the new timer and the loop with it. *)
Definition setTimeout (j : task) (wait : nat) (l : Loop) : nat * Loop :=
  (next_timer l,
   mkLoop (now l) (S (next_timer l))
     (timers l ++ [mkTimer (next_timer l) (now l + wait) j]) (frames l)).

(** [clearTimeout(id)]; [undefined] and the id of a timer that has fired
    cancel nothing. *)
Definition clearTimeout (id : option nat) (l : Loop) : Loop :=
  match id with
  | Some i =>
      mkLoop (now l) (next_timer l)
        (filter (fun t => timer_id t ≠ i) (timers l)) (frames l)
  | None => l
  end.

(** [requestAnimationFrame(cb)] for the callback of [applyAllFilters]. *)
Definition requestAnimationFrame (l : Loop) : Loop :=
  mkLoop (now l) (next_timer l) (timers l) (S (frames l)).

(** *** TimelineController: matching *)

(** The entry [preloadEventData] stores for an event. *)
Definition event_data (e : EventNode) : EventData :=
  mkData
    (toLowerCase
       (textContent (h3 e) ++ " " ++ textContent (p e) ++ " " ++ event_year e
        ++ " " ++ join " " (category_tags e)
        ++ " " ++ join " " (subcategory_tags e)))
    (dataset (data_category e))
    (dataset (data_subcategory e)).

Definition preloadEventData (w : World) : World :=
  with_this (set_eventData (map_seq 0 (event_data <$> events (page w)))) w.

(** [new TimelineController()] on a page. *)
Definition construct (pg : Page) : World :=
  preloadEventData
    (mkWorld (mkController "all" JNull "" ∅ None None) pg (mkLoop 0 0 [] 0)).

(** [matchesSearch(event)]; [None] is the [TypeError] of reading [text]
    from a missing entry. *)
Definition matchesSearch (c : Controller) (event : nat) : option bool :=
  if negb (truthy (JStr (currentSearchTerm c))) then Some true
  else
    eventData ← eventData c !! event;
    Some (includes (text eventData) (toLowerCase (currentSearchTerm c))).

(** [matchesFilter(event)]; [None] as for [matchesSearch]. *)
Definition matchesFilter (c : Controller) (event : nat) : option bool :=
  if String.eqb (currentFilter c) "all" then Some true
  else
    eventData ← eventData c !! event;
    if negb (strict_eq (category eventData) (JStr (currentFilter c))) then Some false
    else if truthy (currentSubcategory c) then
      Some (strict_eq (subcategory eventData) (currentSubcategory c))
    else Some true.

(** *** TimelineController: showing, hiding and highlighting *)

Definition showEvent (event : nat) (w : World) : World :=
  with_page
    (map_events (alter (set_style (mkStyle "flex" "1" "translateY(0)")) event)) w.

Definition fade (e : EventNode) : EventNode :=
  set_style (mkStyle (display (style e)) "0" "translateY(-10px)") e.

Definition hideEvent (event : nat) (w : World) : World :=
  with_loop (fun l => snd (setTimeout (HideIfFaded event) 300 l))
    (with_page (map_events (alter fade event)) w).

(** The body of the timer [hideEvent] sets. *)
Definition hide_if_faded (e : EventNode) : EventNode :=
  if String.eqb (opacity (style e)) "0" then
    set_style (mkStyle "none" (opacity (style e)) (transform (style e))) e
  else e.

(** The loop of [removeHighlights] over the [n] highlight spans found
    under one parent: each in turn is replaced by a text node and the
    parent is normalized. *)
Fixpoint removeHighlights_loop (n : nat) (children : list Node) : list Node :=
  match n with
  | 0 => children
  | S k =>
      match replace_first_highlight children with
      | Some children' => removeHighlights_loop k (normalize children')
      | None => children
      end
  end.

Definition removeHighlights_in (children : list Node) : list Node :=
  removeHighlights_loop (count_highlights children) children.

Definition removeHighlights (event : nat) (w : World) : World :=
  with_page
    (map_events
       (alter (fun e => set_p (removeHighlights_in (p e))
                          (set_h3 (removeHighlights_in (h3 e)) e)) event)) w.

(** The replacement string of [highlightText]: the highlight span around
    [$1]. *)
Definition highlight_replacement : list piece :=
  [Lit open_tag; Cap 1; Lit close_tag].

(** [highlightText(element, searchTerm)], on the children of [element]. *)
Definition highlightText (element : list Node) (searchTerm : string)
  : outcome (list Node) :=
  let text := textContent element in
  match RegExp_gi ("(" ++ searchTerm ++ ")") with
  | SyntaxError => Thrown InvalidRegExp element
  | Unsupported => Unmodelled
  | Pattern regex =>
      let highlightedText := replace text regex highlight_replacement in
      match parse_fragment highlightedText with
      | Some children => Done children
      | None => Unmodelled
      end
  end.

Definition highlightSearchTerm (event : nat) (searchTerm : string) (w : World)
  : outcome World :=
  let w1 := removeHighlights event w in
  match events (page w1) !! event with
  | None => Unmodelled
  | Some e =>
      match highlightText (h3 e) searchTerm with
      | Done title =>
          let w2 := with_page (map_events (alter (set_h3 title) event)) w1 in
          match highlightText (p e) searchTerm with
          | Done description =>
              Done (with_page (map_events (alter (set_p description) event)) w2)
          | Thrown x _ => Thrown x w2
          | Unmodelled => Unmodelled
          end
      | Thrown x _ => Thrown x w1
      | Unmodelled => Unmodelled
      end
  end.

(** *** TimelineController: the recomputation pass *)

(** The body of the [forEach] of [applyAllFilters] for one event. *)
Definition filter_event (event : nat) (w : World) : outcome World :=
  match matchesSearch (this w) event with
  | None => Thrown TypeError w
  | Some matches_search =>
      match matchesFilter (this w) event with
      | None => Thrown TypeError w
      | Some matches_filter =>
          if matches_search && matches_filter then
            let w1 := showEvent event w in
            if truthy (JStr (currentSearchTerm (this w))) then
              highlightSearchTerm event (currentSearchTerm (this w)) w1
            else Done (removeHighlights event w1)
          else Done (hideEvent event w)
      end
  end.

(** [nodes.forEach(f)]: an exception ends the loop. *)
Fixpoint forEach (f : nat -> World -> outcome World) (nodes : list nat) (w : World)
  : outcome World :=
  match nodes with
  | [] => Done w
  | i :: rest => f i w >>> forEach f rest
  end.

Definition is_visible (e : EventNode) : bool :=
  negb (String.eqb (display (style e)) "none")
  && negb (String.eqb (opacity (style e)) "0").

(** The [visibleEvents] array of [updateSectionVisibility]. *)
Definition visibleEvents (evs : list EventNode) (s : SectionNode) : list nat :=
  List.filter
    (fun i => match evs !! i with Some e => is_visible e | None => false end)
    (section_events s).

Definition update_section (evs : list EventNode) (s : SectionNode) : SectionNode :=
  if Nat.eqb (length (visibleEvents evs s)) 0 then mkSection "none" (section_events s)
  else mkSection "block" (section_events s).

Definition updateSectionVisibility (w : World) : World :=
  with_page (fun pg => map_sections (fmap (update_section (events pg))) pg) w.

(** The animation-frame callback of [applyAllFilters]. *)
Definition applyAllFilters_frame (w : World) : outcome World :=
  forEach filter_event (seq 0 (length (events (page w)))) w >>> fun w' =>
  Done (with_loop (fun l => snd (setTimeout SectionVisibility 200 l)) w').

Definition applyAllFilters (w : World) : World :=
  with_loop requestAnimationFrame w.

Definition performSearch (w : World) : World := applyAllFilters w.

(** A call of [this.debouncedSearch] or [this.debouncedFilter]: the
    pending timer of the closure is cancelled and a new one is set. *)
Definition debouncedSearch (w : World) : World :=
  let l := clearTimeout (debouncedSearch_timeout (this w)) (loop w) in
  let r := setTimeout LaterSearch 150 l in
  mkWorld (set_debouncedSearch_timeout (Some (fst r)) (this w)) (page w) (snd r).

Definition debouncedFilter (w : World) : World :=
  let l := clearTimeout (debouncedFilter_timeout (this w)) (loop w) in
  let r := setTimeout LaterFilter 100 l in
  mkWorld (set_debouncedFilter_timeout (Some (fst r)) (this w)) (page w) (snd r).

(** *** TimelineController: the controls *)

(** A string that, written between double quotes in an attribute
    selector, denotes itself: no quote, backslash, line break or NUL. *)
Definition selector_safe (code : string) : bool :=
  forallb
    (fun c => negb (existsb (N.eqb (N_of_ascii c)) [0; 10; 12; 13; 34; 92]%N))
    (list_ascii_of_string code).

(** [document.querySelector('[data-filter=code]')]: the first element, in
    document order, whose attribute has that value. *)
Definition querySelector_data_filter (code : string) (cs : list Control)
  : option nat :=
  fst <$> list_find (fun c => data_filter c = Some code) cs.

(** [buttons.forEach(btn => btn.classList.remove('active'))] for the
    buttons of one class. *)
Definition remove_active (cls : control_class) (cs : list Control) : list Control :=
  (fun c => match control_class_of c, cls with
            | FilterBtn, FilterBtn | SubcategoryBtn, SubcategoryBtn =>
                set_active false c
            | _, _ => c
            end) <$> cs.

(** The common end of [updateFilterButtons] and [updateSubcategoryButtons]:
    the element the selector finds, if any, becomes active. *)
Definition activate_found (code : string) (w : World) : outcome World :=
  if selector_safe code then
    match querySelector_data_filter code (controls (page w)) with
    | Some i => Done (with_page (map_controls (alter (set_active true) i)) w)
    | None => Done w
    end
  else Unmodelled.

Definition updateFilterButtons (w : World) : outcome World :=
  activate_found (currentFilter (this w))
    (with_page (map_controls (remove_active FilterBtn)) w).

Definition updateSubcategoryButtons (w : World) : outcome World :=
  activate_found (template (currentSubcategory (this w)))
    (with_page (map_controls (remove_active SubcategoryBtn)) w).

Definition resetAllButtons (w : World) : outcome World :=
  let w1 :=
    with_page
      (map_controls (fun cs => remove_active SubcategoryBtn (remove_active FilterBtn cs)))
      w in
  match querySelector_data_filter "all" (controls (page w1)) with
  | Some i => Done (with_page (map_controls (alter (set_active true) i)) w1)
  | None => Thrown TypeError w1
  end.

Definition hideAllSubcategories (w : World) : World :=
  with_page (map_pickers (fmap (fun _ => false))) w.

(** [document.getElementById(`${filter}-subcategories`)]. *)
Definition subcategories_id (filter : string) : string :=
  filter ++ "-subcategories".

Definition show_picker (id : string) (w : World) : World :=
  with_page (map_pickers (alter (fun _ => true) id)) w.

(** *** TimelineController: the listeners *)

(** [input] on the search field, whose value is now [value]. *)
Definition searchInput_input (value : string) (w : World) : World :=
  debouncedSearch
    (with_this (set_currentSearchTerm value)
       (with_page (set_searchInput_value value) w)).

(** [keydown] on the search field. *)
Definition searchInput_keydown (key : string) (w : World) : World :=
  if String.eqb key "Enter" then
    performSearch
      (with_this (set_currentSearchTerm (searchInput_value (page w))) w)
  else w.

Definition searchButton_click (w : World) : World :=
  performSearch
    (with_this (set_currentSearchTerm (searchInput_value (page w))) w).

Definition clearButton_click (w : World) : outcome World :=
  let w1 := with_this (set_currentSearchTerm "") w in
  let w2 := with_page (set_searchInput_value "") w1 in
  let w3 := with_this (set_currentFilter "all") w2 in
  let w4 := with_this (set_currentSubcategory JNull) w3 in
  resetAllButtons w4 >>> fun w5 => Done (applyAllFilters w5).

(** The branch of the filter listener taken when the clicked filter is the
    current one. *)
Definition toggle_subcategories (filter : string) (w : World) : outcome World :=
  match pickers (page w) !! subcategories_id filter with
  | None => Thrown TypeError w
  | Some true =>
      updateSubcategoryButtons
        (hideAllSubcategories (with_this (set_currentSubcategory JNull) w))
      >>> fun w' => Done (debouncedFilter w')
  | Some false =>
      Done (debouncedFilter (show_picker (subcategories_id filter) w))
  end.

(** [click] on a filter button; [filter] is [e.target.dataset.filter]. *)
Definition filterButton_click (filter : jsval) (w : World) : outcome World :=
  let finish (w' : World) : outcome World :=
    updateFilterButtons w' >>> fun w'' => Done (debouncedFilter w'') in
  match filter with
  | JStr f =>
      if String.eqb f "all" then
        finish
          (hideAllSubcategories
             (with_this (set_currentSubcategory JNull)
                (with_this (set_currentFilter "all") w)))
      else if String.eqb f "founder" || String.eqb f "regulation" then
        if String.eqb (currentFilter (this w)) f then toggle_subcategories f w
        else
          finish
            (show_picker (subcategories_id f)
               (hideAllSubcategories
                  (with_this (set_currentSubcategory JNull)
                     (with_this (set_currentFilter f) w))))
      else finish w
  | JNull | JUndefined => finish w
  end.

(** [click] on a subcategory button. *)
Definition subcategoryButton_click (filter : jsval) (w : World) : outcome World :=
  updateSubcategoryButtons (with_this (set_currentSubcategory filter) w)
  >>> fun w' => Done (debouncedFilter w').

(** [click] anywhere in the document; [in_controls] tells whether the
    target lies in a [.filter-group] or in the [.search-container]. *)
Definition document_click (in_controls : bool) (w : World) : World :=
  if in_controls then w else hideAllSubcategories w.

(** *** The event loop *)

Definition fire (j : task) (w : World) : World :=
  match j with
  | LaterSearch => performSearch w
  | LaterFilter => applyAllFilters w
  | HideIfFaded event => with_page (map_events (alter hide_if_faded event)) w
  | SectionVisibility => updateSectionVisibility w
  end.

(** The timer that fires next, taken out of the pending ones: the one due
    first, and among those due together the one set first. *)
Fixpoint pop_earliest (ts : list Timer) : option (Timer * list Timer) :=
  match ts with
  | [] => None
  | t :: rest =>
      match pop_earliest rest with
      | Some (t', rest') =>
          if Nat.ltb (due t') (due t) then Some (t', t :: rest') else Some (t, rest)
      | None => Some (t, rest)
      end
  end.

(** One turn of the loop on a timer: none is pending, or the next one is
    removed, the clock reaches its due time and its job runs. *)
Definition run_timer (w : World) : option World :=
  match pop_earliest (timers (loop w)) with
  | None => None
  | Some (t, rest) =>
      Some (fire (job t)
              (with_loop (fun l => mkLoop (max (now l) (due t)) (next_timer l)
                                     rest (frames l)) w))
  end.

(** One turn of the loop on an animation frame. *)
Definition run_frame (w : World) : option (outcome World) :=
  match frames (loop w) with
  | 0 => None
  | S k =>
      Some (applyAllFilters_frame
              (with_loop (fun l => mkLoop (now l) (next_timer l) (timers l) k) w))
  end.

(** [n] turns on timers, fewer if none is left. *)
Fixpoint run_timers (n : nat) (w : World) : World :=
  match n with
  | 0 => w
  | S k =>
      match run_timer w with
      | Some w' => run_timers k w'
      | None => w
      end
  end.

(** All the timers pending in [w] fire. *)
Definition settle (w : World) : World :=
  run_timers (length (timers (loop w))) w.

(** *** What can happen on the page *)

Inductive action : Type :=
  | TypeInSearch (value : string)
  | PressKey (key : string)
  | ClickSearch
  | ClickClear
  | ClickFilter (filter : jsval)
  | ClickSubcategory (button : nat)
  | ClickDocument (in_controls : bool)
  | TimerFires
  | FrameRuns.

(** A subcategory button can be clicked while the container around it is
    shown. *)
Definition exposed (pg : Page) (c : Control) : bool :=
  match control_class_of c, container c with
  | SubcategoryBtn, Some id => bool_decide (pickers pg !! id = Some true)
  | _, _ => false
  end.

(** The state an action leads to; [None] when the action cannot happen in
    [w] or leaves the embedding. *)
Definition perform (a : action) (w : World) : option World :=
  match a with
  | TypeInSearch value => Some (searchInput_input value w)
  | PressKey key => Some (searchInput_keydown key w)
  | ClickSearch => Some (searchButton_click w)
  | ClickClear => final (clearButton_click w)
  | ClickFilter filter => final (filterButton_click filter w)
  | ClickSubcategory button =>
      c ← controls (page w) !! button;
      if exposed (page w) c then
        final (subcategoryButton_click (dataset (data_filter c)) w)
      else None
  | ClickDocument in_controls => Some (document_click in_controls w)
  | TimerFires => run_timer w
  | FrameRuns => o ← run_frame w; final o
  end.

(** The states the page reaches from its load through actions that all
    satisfy [allowed]. *)
Inductive reachable (allowed : action -> Prop) (pg : Page) : World -> Prop :=
  | reach_load : reachable allowed pg (construct pg)
  | reach_step (a : action) (w w' : World) :
      reachable allowed pg w -> allowed a -> perform a w = Some w' ->
      reachable allowed pg w'.

End Timeline.

(** ** TimelineScroll: the progress bar

    JavaScript numbers are the binary64 floats of [PrimFloat]. *)

Module Scroll.

Local Open Scope float_scope.

(** [Math.max(a, b)]: [NaN] if either argument is, and [+0] above [-0]. *)
Definition Math_max (a b : float) : float :=
  if is_nan a || is_nan b then nan
  else if PrimFloat.ltb a b then b
  else if PrimFloat.ltb b a then a
  else if get_sign a then b else a.

(** [Math.min(a, b)]: [NaN] if either argument is, and [-0] below [+0]. *)
Definition Math_min (a b : float) : float :=
  if is_nan a || is_nan b then nan
  else if PrimFloat.ltb a b then a
  else if PrimFloat.ltb b a then b
  else if get_sign a then a else b.

(** What [updateProgress] reads: [window.pageYOffset],
    [document.documentElement.scrollHeight] and [window.innerHeight]. *)
Record Viewport : Type := mkViewport {
  pageYOffset : float;
  scrollHeight : float;
  innerHeight : float
}.

(** The state of the scroll listener: [this.isScrolling], the [ticking]
    flag of the closure, and the number [x] of the last string [x + '%']
    assigned to [progressBar.style.width], if any. *)
Record Tracker : Type := mkTracker {
  isScrolling : bool;
  ticking : bool;
  width_percent : option float
}.

Definition scrollPercent (v : Viewport) : float :=
  let scrollTop := pageYOffset v in
  let docHeight := scrollHeight v - innerHeight v in
  Math_min 100 (Math_max 0 ((scrollTop / docHeight) * 100)).

Definition updateProgress (v : Viewport) (t : Tracker) : Tracker :=
  if negb (isScrolling t) then t
  else mkTracker (isScrolling t) false (Some (scrollPercent v)).

(** The two [scroll] listeners, in the order they were added: [requestTick]
    (its result tells whether a frame was requested), then the one that
    records that the page is scrolling. *)
Definition on_scroll (t : Tracker) : bool * Tracker :=
  (negb (ticking t), mkTracker true true (width_percent t)).

(** The timer the second listener sets, 150 ms after the last [scroll]. *)
Definition scroll_idle (t : Tracker) : Tracker :=
  mkTracker false (ticking t) (width_percent t).

End Scroll.

(** ** TimelineScroll: the scroll listeners and [destroy]

    The instance together with the part of the event loop it uses.  The
    handles [requestAnimationFrame] and [setTimeout] return are positive
    integers, so a stored handle is truthy. *)

Module ScrollListener.

Import Scroll.

Record Instance : Type := mkInstance {
  tracker : Tracker;
  animationFrameId : option positive;
  scrollTimeout : option positive;
  next_frame : positive;
  next_timeout : positive;
  (** the pending callbacks [updateProgress], by handle, oldest first *)
  frame_callbacks : list positive;
  (** the pending timers of the second [scroll] listener *)
  idle_timers : list positive
}.

(** [new TimelineScroll()], before any event. *)
Definition construct : Instance :=
  mkInstance (mkTracker false false None) None None 1 1 [] [].

(** [cancelAnimationFrame(id)] and [clearTimeout(id)] on the pending
    handles; [null], [undefined] and a handle no longer pending cancel
    nothing. *)
Definition cancel (id : option positive) (pending : list positive) : list positive :=
  match id with
  | Some i => filter (fun x => x ≠ i) pending
  | None => pending
  end.

(** A [scroll] event: [requestTick] requests a frame unless [ticking] is
    set, then the second listener restarts the timer. *)
Definition scroll (s : Instance) : Instance :=
  let '(requested, t) := on_scroll (tracker s) in
  mkInstance t
    (if requested then Some (next_frame s) else animationFrameId s)
    (Some (next_timeout s))
    (if requested then Pos.succ (next_frame s) else next_frame s)
    (Pos.succ (next_timeout s))
    (if requested then (frame_callbacks s ++ [next_frame s])%list
     else frame_callbacks s)
    (cancel (scrollTimeout s) (idle_timers s) ++ [next_timeout s])%list.

(** The oldest pending callback runs, on a page that reads as [v]. *)
Definition animation_frame (v : Viewport) (s : Instance) : option Instance :=
  match frame_callbacks s with
  | [] => None
  | _ :: rest =>
      Some (mkInstance (updateProgress v (tracker s)) (animationFrameId s)
              (scrollTimeout s) (next_frame s) (next_timeout s) rest (idle_timers s))
  end.

(** The oldest pending timer fires. *)
Definition timer_fires (s : Instance) : option Instance :=
  match idle_timers s with
  | [] => None
  | _ :: rest =>
      Some (mkInstance (scroll_idle (tracker s)) (animationFrameId s)
              (scrollTimeout s) (next_frame s) (next_timeout s)
              (frame_callbacks s) rest)
  end.

Definition destroy (s : Instance) : Instance :=
  mkInstance (tracker s) (animationFrameId s) (scrollTimeout s)
    (next_frame s) (next_timeout s)
    (cancel (animationFrameId s) (frame_callbacks s))
    (cancel (scrollTimeout s) (idle_timers s)).

Inductive event : Type :=
  | Scrolls
  | FrameRuns (v : Viewport)
  | TimerFires
  | Destroyed.

(** The state an event leads to; [None] when it cannot happen. *)
Definition step (e : event) (s : Instance) : option Instance :=
  match e with
  | Scrolls => Some (scroll s)
  | FrameRuns v => animation_frame v s
  | TimerFires => timer_fires s
  | Destroyed => Some (destroy s)
  end.

Fixpoint run (es : list event) (s : Instance) : option Instance :=
  match es with
  | [] => Some s
  | e :: rest =>
      match step e s with
      | Some s' => run rest s'
      | None => None
      end
  end.

Inductive reachable : Instance -> Prop :=
  | reach_new : reachable construct
  | reach_step (e : event) (s s' : Instance) :
      reachable s -> step e s = Some s' -> reachable s'.

(** At most one callback and one timer are pending, each the one the
    instance holds the handle of, and a callback is pending only while
    [ticking] is set. *)
Definition coalesced (s : Instance) : Prop :=
  (frame_callbacks s = []
   \/ exists id, frame_callbacks s = [id] /\ animationFrameId s = Some id /\
        ticking (tracker s) = true) /\
  (idle_timers s = []
   \/ exists id, idle_timers s = [id] /\ scrollTimeout s = Some id).

End ScrollListener.

(** ** TimelineScroll: the intersection observer and [animateMarker]

    A section is known by its index in [this.timelineSections]; its marker
    is the first [.marker-dot] under it, if any. *)

Module Markers.

Record Marker : Type := mkMarker {
  animated : bool;
  marker_transform : string;
  marker_boxShadow : string
}.

Record Section : Type := mkSection {
  visible : bool;
  marker_dot : option Marker
}.

(** What the callback reads from an [IntersectionObserverEntry]. *)
Record Entry : Type := mkEntry {
  target : nat;
  isIntersecting : bool;
  intersectionRatio : float
}.

(** The sections, and the sections whose marker a pending timer of
    [animateMarker] will put back, in the order the timers were set: they
    all wait 300 ms, so they fire in that order. *)
Record Observed : Type := mkObserved {
  sections : list Section;
  reverts : list nat
}.

Definition set_visible (s : Section) : Section := mkSection true (marker_dot s).

Definition set_marker (m : Marker) (s : Section) : Section :=
  mkSection (visible s) (Some m).

Definition pulsing : Marker :=
  mkMarker true "scale(1.2)" "0 0 20px rgba(0, 212, 170, 0.5)".

Definition resting : Marker :=
  mkMarker false "scale(1)" "0 4px 12px rgba(0,0,0,0.2)".

Definition animateMarker (section : nat) (o : Observed) : Observed :=
  match sections o !! section with
  | Some s =>
      match marker_dot s with
      | Some marker =>
          if negb (animated marker) then
            mkObserved (alter (set_marker pulsing) section (sections o))
              (reverts o ++ [section])%list
          else o
      | None => o
      end
  | None => o
  end.

(** The body of the [forEach] of the observer callback; [0.1] is the
    double nearest to one tenth. *)
Definition on_entry (o : Observed) (entry : Entry) : Observed :=
  if isIntersecting entry
     && PrimFloat.ltb 0x1.999999999999ap-4%float (intersectionRatio entry)
  then
    animateMarker (target entry)
      (mkObserved (alter set_visible (target entry) (sections o)) (reverts o))
  else o.

Definition observer_callback (entries : list Entry) (o : Observed) : Observed :=
  foldl on_entry o entries.

(** The oldest pending timer of [animateMarker] fires. *)
Definition revert_fires (o : Observed) : option Observed :=
  match reverts o with
  | [] => None
  | section :: rest =>
      Some (mkObserved
              (alter (fun s => mkSection (visible s) ((fun _ => resting) <$> marker_dot s))
                 section (sections o))
              rest)
  end.

Inductive event : Type :=
  | Observes (entries : list Entry)
  | TimerFires.

Definition step (e : event) (o : Observed) : option Observed :=
  match e with
  | Observes entries => Some (observer_callback entries o)
  | TimerFires => revert_fires o
  end.

(** The states reached from a page whose sections are [secs]. *)
Inductive reachable (secs : list Section) : Observed -> Prop :=
  | reach_load : reachable secs (mkObserved secs [])
  | reach_step (e : event) (o o' : Observed) :
      reachable secs o -> step e o = Some o' -> reachable secs o'.

(** All the pending timers fire. *)
Fixpoint fire_all (n : nat) (o : Observed) : Observed :=
  match n with
  | 0 => o
  | S k =>
      match revert_fires o with
      | Some o' => fire_all k o'
      | None => o
      end
  end.

Definition settle (o : Observed) : Observed := fire_all (length (reverts o)) o.

(** The marker of section [i] has the class [animated]. *)
Definition animated_at (secs : list Section) (i : nat) : Prop :=
  exists s m, secs !! i = Some s /\ marker_dot s = Some m /\ animated m = true.

(** The sections with a pending timer are those whose marker is animated,
    each once. *)
Definition in_step (o : Observed) : Prop :=
  NoDup (reverts o) /\ forall i, i ∈ reverts o <-> animated_at (sections o) i.

End Markers.

(** ** TimelineFilter: the earlier controller of [part_000]

    It filters on the attributes of the events themselves, has no search,
    and hides an event by a timer that does not look at the event again. *)

Module Legacy.

Import Html Timeline.

(** The fields of the [TimelineFilter] instance. *)
Record Filter : Type := mkFilter {
  currentFilter : string;
  currentSubcategory : jsval
}.

(** What a timer runs when it fires. *)
Inductive task : Type :=
  | Hide (event : nat)
  | SectionVisibility.

Record Timer : Type := mkTimer {
  due : nat;
  job : task
}.

(** The instance, the page, the clock in milliseconds and the pending
    timers in the order they were set. *)
Record World : Type := mkWorld {
  this : Filter;
  page : Page;
  now : nat;
  timers : list Timer
}.

Definition construct (pg : Page) : World :=
  mkWorld (mkFilter "all" JNull) pg 0 [].

Definition with_page (f : Page -> Page) (w : World) : World :=
  mkWorld (this w) (f (page w)) (now w) (timers w).

Definition setTimeout (j : task) (wait : nat) (w : World) : World :=
  mkWorld (this w) (page w) (now w) (timers w ++ [mkTimer (now w + wait) j])%list.

Definition hideAllSubcategories (w : World) : World :=
  with_page (map_pickers (fmap (fun _ => false))) w.

Definition show (e : EventNode) : EventNode :=
  set_style (mkStyle "flex" "1" (transform (style e))) e.

Definition fade (e : EventNode) : EventNode :=
  set_style (mkStyle (display (style e)) "0" (transform (style e))) e.

Definition hide (e : EventNode) : EventNode :=
  set_style (mkStyle "none" (opacity (style e)) (transform (style e))) e.

Definition showAllEvents (w : World) : World :=
  with_page
    (fun pg =>
       map_sections (fmap (fun s => mkSection "block" (section_events s)))
         (map_events (fmap show) pg)) w.

(** The value of [shouldShow] in [filterEvents] for one event.  An
    [undefined] subcategory becomes the default [null]; both are falsy. *)
Definition shouldShow (category : string) (subcategory : jsval) (e : EventNode)
  : bool :=
  if String.eqb category "all" then true
  else if strict_eq (dataset (data_category e)) (JStr category) then
    if truthy subcategory then strict_eq (dataset (data_subcategory e)) subcategory
    else true
  else false.

(** The body of the [forEach] of [filterEvents] for one event. *)
Definition filter_event (category : string) (subcategory : jsval)
    (w : World) (event : nat) : World :=
  match events (page w) !! event with
  | Some e =>
      if shouldShow category subcategory e then
        with_page (map_events (alter show event)) w
      else
        setTimeout (Hide event) 300 (with_page (map_events (alter fade event)) w)
  | None => w
  end.

Definition filterEvents (category : string) (subcategory : jsval) (w : World)
  : World :=
  setTimeout SectionVisibility 350
    (foldl (filter_event category subcategory) w
       (seq 0 (length (events (page w))))).

Definition updateSectionVisibility (w : World) : World :=
  with_page (fun pg => map_sections (fmap (update_section (events pg))) pg) w.

Definition handleAllFilter (w : World) : outcome World :=
  let w1 := mkWorld (mkFilter "all" JNull) (page w) (now w) (timers w) in
  let w2 :=
    with_page
      (map_controls (fun cs => remove_active SubcategoryBtn (remove_active FilterBtn cs)))
      w1 in
  match querySelector_data_filter "all" (controls (page w2)) with
  | Some i =>
      Done (showAllEvents
              (hideAllSubcategories
                 (with_page (map_controls (alter (set_active true) i)) w2)))
  | None => Thrown TypeError w2
  end.

(** [handleMainFilter(button, filter)]; [button] is the clicked element. *)
Definition handleMainFilter (button : nat) (filter : string) (w : World) : World :=
  let w1 := mkWorld (mkFilter filter JNull) (page w) (now w) (timers w) in
  let w2 :=
    with_page
      (map_controls
         (fun cs =>
            alter (set_active true) button
              (remove_active SubcategoryBtn (remove_active FilterBtn cs))))
      w1 in
  let w3 := hideAllSubcategories w2 in
  filterEvents filter JNull
    (with_page (map_pickers (alter (fun _ => true) (subcategories_id filter))) w3).

Definition handleSubcategoryFilter (button : nat) (subcategory : jsval) (w : World)
  : World :=
  let w1 := mkWorld (mkFilter (currentFilter (this w)) subcategory) (page w)
              (now w) (timers w) in
  let w2 :=
    with_page
      (map_controls
         (fun cs => alter (set_active true) button (remove_active SubcategoryBtn cs)))
      w1 in
  filterEvents (currentFilter (this w2)) subcategory w2.

(** [click] on the filter button at [button]. *)
Definition filterButton_click (button : nat) (w : World) : outcome World :=
  match controls (page w) !! button with
  | Some c =>
      match dataset (data_filter c) with
      | JStr f =>
          if String.eqb f "all" then handleAllFilter w
          else if String.eqb f "founder" || String.eqb f "regulation" then
            Done (handleMainFilter button f w)
          else Done w
      | JNull | JUndefined => Done w
      end
  | None => Unmodelled
  end.

(** [click] on the subcategory button at [button]. *)
Definition subcategoryButton_click (button : nat) (w : World) : outcome World :=
  match controls (page w) !! button with
  | Some c => Done (handleSubcategoryFilter button (dataset (data_filter c)) w)
  | None => Unmodelled
  end.

Definition fire (j : task) (w : World) : World :=
  match j with
  | Hide event => with_page (map_events (alter hide event)) w
  | SectionVisibility => updateSectionVisibility w
  end.

(** The timer that fires next, taken out of the pending ones: the one due
    first, and among those due together the one set first. *)
Fixpoint pop_earliest (ts : list Timer) : option (Timer * list Timer) :=
  match ts with
  | [] => None
  | t :: rest =>
      match pop_earliest rest with
      | Some (t', rest') =>
          if Nat.ltb (due t') (due t) then Some (t', t :: rest') else Some (t, rest)
      | None => Some (t, rest)
      end
  end.

Definition run_timer (w : World) : option World :=
  match pop_earliest (timers w) with
  | None => None
  | Some (t, rest) =>
      Some (fire (job t) (mkWorld (this w) (page w) (max (now w) (due t)) rest))
  end.

Fixpoint run_timers (n : nat) (w : World) : World :=
  match n with
  | 0 => w
  | S k =>
      match run_timer w with
      | Some w' => run_timers k w'
      | None => w
      end
  end.

(** All the timers pending in [w] fire. *)
Definition settle (w : World) : World := run_timers (length (timers w)) w.

End Legacy.

(** * The vocabulary of the properties *)

Import RegExp Html Timeline Scroll.

(** ** Predicates and projections the statements use *)

(** The concatenation [preloadEventData] lower-cases: title, description,
    year, category tags and subcategory tags, a space between them. *)
Definition concatenated_text (e : EventNode) : string :=
  textContent (h3 e) ++ " " ++ textContent (p e) ++ " " ++ event_year e
  ++ " " ++ join " " (category_tags e) ++ " " ++ join " " (subcategory_tags e).

(** A subcategory is active when [this.currentSubcategory] is a non-empty
    string, which is what [if (this.currentSubcategory)] tests. *)
Definition subcategory_active (c : Controller) : Prop :=
  exists s, currentSubcategory c = JStr s /\ s <> "".

(** Everything but the events and the event loop. *)
Definition outside_events (w : World)
  : Controller * list SectionNode * list Control * gmap string bool * string :=
  (this w, timelineSections (page w), controls (page w), pickers (page w),
   searchInput_value (page w)).

(** The attributes of a control that no listener changes. *)
Definition static (c : Control) : control_class * option string * option string :=
  (control_class_of c, data_filter c, container c).

(** The filter, the subcategory, the containers and the static part of
    the controls. *)
Definition filter_state (w : World)
  : string * jsval * gmap string bool
    * list (control_class * option string * option string) :=
  (currentFilter (this w), currentSubcategory (this w), pickers (page w),
   static <$> controls (page w)).

(** The filter state a click on a filter button leads to. *)
Definition after_filter_click (filter : jsval) (w : World)
  : string * jsval * gmap string bool
    * list (control_class * option string * option string) :=
  let hidden := (fun _ : bool => false) <$> pickers (page w) in
  let statics := static <$> controls (page w) in
  match filter with
  | JStr f =>
      if String.eqb f "all" then ("all", JNull, hidden, statics)
      else if String.eqb f "founder" || String.eqb f "regulation" then
        if String.eqb (currentFilter (this w)) f then
          match pickers (page w) !! subcategories_id f with
          | None => filter_state w
          | Some true => (f, JNull, hidden, statics)
          | Some false =>
              (f, currentSubcategory (this w),
               alter (fun _ => true) (subcategories_id f) (pickers (page w)),
               statics)
          end
        else (f, JNull, alter (fun _ => true) (subcategories_id f) hidden, statics)
      else filter_state w
  | JNull | JUndefined => filter_state w
  end.

(** Every action but a click on the clear button. *)
Definition without_clear (a : action) : Prop := a <> ClickClear.

Definition no_picker_shown (m : gmap string bool) : Prop :=
  forall id, m !! id <> Some true.

(** The containers shown belong to the current filter, and a subcategory
    that is not [null] is the code of a subcategory button in the container
    of the current filter. *)
Definition discipline
    (st : string * jsval * gmap string bool
          * list (control_class * option string * option string)) : Prop :=
  let '(filter, sub, shown, statics) := st in
  (forall id, shown !! id = Some true -> id = subcategories_id filter) /\
  (sub <> JNull ->
   exists code,
     (SubcategoryBtn, code, Some (subcategories_id filter)) ∈ statics /\
     dataset code = sub).

(** The state the next animation frame leaves, returned or thrown. *)
Definition after_frame (w : World) : World :=
  default w (run_frame w ≫= final).

(** The inline style the pass gives an event whose style was [st]. *)
Definition style_after_pass (c : Controller) (i : nat) (st : Style) : Style :=
  match matchesSearch c i, matchesFilter c i with
  | Some true, Some true => mkStyle "flex" "1" "translateY(0)"
  | _, _ => mkStyle (display st) "0" "translateY(-10px)"
  end.

(** Every section has the [display] its events call for. *)
Definition sections_settled (w : World) : Prop :=
  forall k s, timelineSections (page w) !! k = Some s ->
    section_display s
    = if Nat.eqb (length (visibleEvents (events (page w)) s)) 0
      then "none" else "block".

(** ** Plain text, literal terms and the pieces of a replacement *)

(** A character the HTML parser takes as text wherever it stands. *)
Definition plain_char (c : ascii) : bool :=
  negb (Ascii.eqb "<" c) && negb (Ascii.eqb "&" c)
  && negb (N_of_ascii c =? 0)%N && negb (N_of_ascii c =? 13)%N.

Fixpoint plain (s : string) : bool :=
  match s with
  | EmptyString => true
  | String c s' => plain_char c && plain s'
  end.

(** A character that stands for itself in a pattern. *)
Definition literal_char (c : ascii) : bool :=
  negb (uninterpreted c) && negb (Ascii.eqb c "(") && negb (Ascii.eqb c ")")
  && negb (Ascii.eqb c "|").

Fixpoint literal (s : string) : bool :=
  match s with
  | EmptyString => true
  | String c s' => literal_char c && literal s'
  end.

(** The pattern [highlightText] builds from a literal term. *)
Definition literal_pattern (term : string) : regex :=
  RSeq (RGroup 1 (seq_of (RChar <$> list_ascii_of_string term))) REmpty.

(** What is left of [s] after a prefix equal to [t] up to case. *)
Fixpoint strip_ci (t s : string) : option string :=
  match t with
  | EmptyString => Some s
  | String a t' =>
      match s with
      | String b s' =>
          if Ascii.eqb (canonicalize a) (canonicalize b) then strip_ci t' s' else None
      | EmptyString => None
      end
  end.

(** The output of [replace], piece by piece: a character copied, or a
    match wrapped in the highlight span. *)
Inductive seg : Type :=
  | Copied (c : ascii)
  | Marked (m : string).

Fixpoint render (l : list seg) : string :=
  match l with
  | [] => ""
  | Copied c :: r => String c (render r)
  | Marked m :: r => open_tag ++ m ++ close_tag ++ render r
  end.

Fixpoint seg_text (l : list seg) : string :=
  match l with
  | [] => ""
  | Copied c :: r => String c (seg_text r)
  | Marked m :: r => m ++ seg_text r
  end.

Fixpoint seg_tokens (l : list seg) : list token :=
  match l with
  | [] => []
  | Copied c :: r => TChar c :: seg_tokens r
  | Marked m :: r =>
      (TOpen :: (TChar <$> list_ascii_of_string m)) ++ TClose :: seg_tokens r
  end.

(** ** Sample pages

    [sample_page] has two sections of one event each, the three filter
    buttons, and the subcategory buttons of the two containers;
    [panel_page] has one event whose title holds a character reference. *)

Definition no_style : Style := mkStyle "" "" "".

Definition act_2021 : EventNode :=
  mkEvent no_style (Some "regulation") (Some "law")
    [Text "Act (2021)"] [Text "Passed by parliament"] "2021" ["Regulation"] ["Law"].

Definition seed_round : EventNode :=
  mkEvent no_style (Some "founder") (Some "seed")
    [Text "Seed round"] [Text "First funding"] "2019" ["Founder"] ["Seed"].

Definition sample_controls : list Control :=
  [ mkControl FilterBtn (Some "all") None true;
    mkControl FilterBtn (Some "founder") None false;
    mkControl FilterBtn (Some "regulation") None false;
    mkControl SubcategoryBtn (Some "seed") (Some "founder-subcategories") false;
    mkControl SubcategoryBtn (Some "angel") (Some "founder-subcategories") false;
    mkControl SubcategoryBtn (Some "law") (Some "regulation-subcategories") false ].

Definition sample_page : Page :=
  mkPage [act_2021; seed_round]
    [mkSection "" [0]; mkSection "" [1]]
    sample_controls
    {[ "founder-subcategories" := false; "regulation-subcategories" := false ]}
    "".

Definition panel : EventNode :=
  mkEvent no_style (Some "founder") None
    [Text "Q&amp;A"] [Text "Fintech panel"] "2020" ["Founder"] [].

Definition panel_page : Page :=
  mkPage [panel] [mkSection "" [0]] sample_controls
    {[ "founder-subcategories" := false; "regulation-subcategories" := false ]} "".

(** The page once the user has typed [term] and pressed the search
    button. *)
Definition searched (term : string) (w : World) : World :=
  searchButton_click (with_page (set_searchInput_value term) w).

(** The controller of the sample page with filter ['founder'] and
    subcategory ['angel']. *)
Definition founder_angel : Controller :=
  set_currentSubcategory (JStr "angel")
    (set_currentFilter "founder" (this (construct sample_page))).

(** The sample page after the filter ['founder'] was clicked: its
    container is shown. *)
Definition founder_clicked : World :=
  default (construct sample_page)
    (final (filterButton_click (JStr "founder") (construct sample_page))).

Definition founder_cleared : World :=
  default founder_clicked (final (clearButton_click founder_clicked)).

(** The sample page with filter ['founder'] and subcategory ['angel']
    chosen by clicks; the container of ['founder'] is shown. *)
Definition angel_selected : World :=
  default founder_clicked (perform (ClickSubcategory 4) founder_clicked).

(** The state a second click on ['founder'] leads to from there. *)
Definition founder_again : World :=
  default angel_selected (final (filterButton_click (JStr "founder") angel_selected)).

(** The sample page after ['founder'], then ['regulation'] were clicked. *)
Definition regulation_clicked : World :=
  default founder_clicked
    (final (filterButton_click (JStr "regulation") founder_clicked)).

(** The sample page after a search for [zzz] has settled: no event and no
    section is displayed. *)
Definition nothing_found : World :=
  settle (after_frame (searched "zzz" (construct sample_page))).

(** A page exactly as high as the window, at the top. *)
Definition short_page : Viewport := mkViewport 0 800 800.

Definition scrolling : Tracker := mkTracker true true None.

(** The sample page with the term [2021] set, and the state its pass
    returns in. *)
Definition term_2021 : World :=
  with_this (set_currentSearchTerm "2021") (construct sample_page).

Definition pass_2021 : World :=
  default term_2021 (final (applyAllFilters_frame term_2021)).

(** An event as a pass with no term and no filter leaves it. *)
Definition shown_plain (e : EventNode) : EventNode :=
  set_p (removeHighlights_in (p e))
    (set_h3 (removeHighlights_in (h3 e))
       (set_style (mkStyle "flex" "1" "translateY(0)") e)).

(** The body [later] of the timer a debounced closure sets, as the
    source has it: it first cancels the timer the closure's [timeout]
    names.  [fire] runs the rest of it. *)
Definition later (j : task) (w : World) : World :=
  match j with
  | LaterSearch =>
      fire j (with_loop (clearTimeout (debouncedSearch_timeout (this w))) w)
  | LaterFilter =>
      fire j (with_loop (clearTimeout (debouncedFilter_timeout (this w))) w)
  | _ => fire j w
  end.

(** What the debounced closures and the loop share: the two [timeout]
    variables and the loop. *)
Definition timing (w : World) : option nat * option nat * Loop :=
  (debouncedSearch_timeout (this w), debouncedFilter_timeout (this w), loop w).

(** The pending timers have distinct ids below the next one, and a
    pending timer of a debounced closure is the one its [timeout] names. *)
Definition tidy (x : option nat * option nat * Loop) : Prop :=
  let '(ds, df, l) := x in
  NoDup (timer_id <$> timers l) /\
  (forall t, t ∈ timers l -> timer_id t < next_timer l) /\
  (forall t, t ∈ timers l -> job t = LaterSearch -> ds = Some (timer_id t)) /\
  (forall t, t ∈ timers l -> job t = LaterFilter -> df = Some (timer_id t)).

(** The sample page after two keystrokes in the search field. *)
Definition typed_twice : World :=
  searchInput_input "20" (searchInput_input "2" (construct sample_page)).

(** Two sections, the first with a marker, and the state after both
    entered the viewport and the first was reported again. *)
Definition two_sections : list Markers.Section :=
  [Markers.mkSection false (Some (Markers.mkMarker false "" ""));
   Markers.mkSection false None].

Definition both_entered : Markers.Observed :=
  Markers.observer_callback
    [Markers.mkEntry 0 true 0.5%float; Markers.mkEntry 1 true 1%float;
     Markers.mkEntry 0 true 1%float]
    (Markers.mkObserved two_sections []).

(** The sample page under the earlier controller, after ['founder'] was
    clicked and then ['all'] before any timer fired. *)
Definition legacy_founder : Legacy.World :=
  Legacy.handleMainFilter 1 "founder" (Legacy.construct sample_page).

Definition legacy_all_again : Legacy.World :=
  default legacy_founder (final (Legacy.handleAllFilter legacy_founder)).

(** The matches among the pieces of a replacement, and the texts of the
    highlight spans among the children of an element, in order. *)
Fixpoint marked (l : list seg) : list string :=
  match l with
  | [] => []
  | Copied _ :: r => marked r
  | Marked m :: r => m :: marked r
  end.

Fixpoint spans (l : list Node) : list string :=
  match l with
  | [] => []
  | Text _ :: r => spans r
  | HighlightSpan m :: r => m :: spans r
  end.

(** [t] occurs in [s] up to case. *)
Definition occurs_ci (t s : string) : Prop :=
  exists pre post, s = pre ++ post /\ strip_ci t post <> None.

(** Two queued jobs can be told apart. *)
#[local] Instance task_eq_dec : EqDecision task.
Proof. solve_decision. Defined.

#[local] Instance legacy_task_eq_dec : EqDecision Legacy.task.
Proof. solve_decision. Defined.

(** No text node is empty and no two text nodes are adjacent. *)
Fixpoint normal (l : list Node) : bool :=
  match l with
  | [] => true
  | Text d :: rest =>
      negb (String.eqb d "")
      && match rest with Text _ :: _ => false | _ => true end
      && normal rest
  | HighlightSpan _ :: rest => normal rest
  end.

(** Closed facts about the sample pages are proved by evaluation. *)
Ltac by_evaluation :=
  lazy zeta;
  repeat match goal with |- _ /\ _ => split end;
  vm_compute; reflexivity.

(** * Properties *)

(** ** Strings *)

Lemma startsWith_spec (s p : string) :
  startsWith s p = true <-> exists post, s = p ++ post.
Proof.
  revert s; induction p as [|a p IH]; intros s; simpl.
  - split; [intros _; exists s; reflexivity | reflexivity].
  - destruct s as [|b s]; simpl.
    + split; [discriminate | intros [post H]; discriminate].
    + rewrite andb_true_iff, IH. split.
      * intros [Hab [post ->]]. apply Ascii.eqb_eq in Hab. subst b.
        exists post. reflexivity.
      * intros [post H]. injection H as -> ->. split.
        -- apply Ascii.eqb_refl.
        -- exists post. reflexivity.
Qed.

Lemma includes_spec (s t : string) :
  includes s t = true <-> exists pre post, s = pre ++ t ++ post.
Proof.
  induction s as [|c s IH]; simpl.
  - rewrite orb_false_r, startsWith_spec. split.
    + intros [post H]. exists "", post. exact H.
    + intros [pre [post H]]. destruct pre; [|discriminate].
      exists post. exact H.
  - rewrite orb_true_iff, startsWith_spec, IH. split.
    + intros [[post H] | [pre [post H]]].
      * exists "", post. exact H.
      * exists (String c pre), post. simpl. rewrite H. reflexivity.
    + intros [pre [post H]]. destruct pre as [|c' pre]; simpl in H.
      * left. exists post. exact H.
      * right. injection H as _ H. exists pre, post. exact H.
Qed.

Lemma includes_empty (s : string) : includes s "" = true.
Proof. apply includes_spec. exists "", s. reflexivity. Qed.

(** ** The search predicate *)

Lemma lookup_preloadEventData (w : World) (i : nat) :
  eventData (this (preloadEventData w)) !! i = event_data <$> events (page w) !! i.
Proof.
  unfold preloadEventData; simpl.
  rewrite lookup_map_seq_0, list_lookup_fmap. reflexivity.
Qed.

(** With the entry of the event cached from [loaded], [matchesSearch] is
    substring containment of the lower-cased term. *)
Lemma matchesSearch_cached (c : Controller) (loaded : list EventNode)
    (i : nat) (e : EventNode) :
  eventData c = map_seq 0 (event_data <$> loaded) ->
  loaded !! i = Some e ->
  (currentSearchTerm c = "" -> matchesSearch c i = Some true) /\
  (currentSearchTerm c <> "" ->
   exists b : bool,
     matchesSearch c i = Some b /\
     (b = true <->
      exists pre post,
        toLowerCase (concatenated_text e)
        = pre ++ toLowerCase (currentSearchTerm c) ++ post)).
Proof.
  intros Hcache He. unfold matchesSearch; simpl. split.
  - intros ->. reflexivity.
  - intros Hterm.
    destruct (String.eqb_spec (currentSearchTerm c) "") as [Heq | _]; [contradiction|].
    simpl. rewrite Hcache, lookup_map_seq_0, list_lookup_fmap, He. simpl.
    eexists. split; [reflexivity|]. apply includes_spec.
Qed.

(** ** The filter predicate *)

Lemma jsval_eqb_eq (a b : jsval) : jsval_eqb a b = true <-> a = b.
Proof.
  destruct a, b; simpl; try (split; [discriminate | intros H; discriminate]);
    try (split; reflexivity).
  rewrite String.eqb_eq. split; [intros ->; reflexivity | intros H; injection H; auto].
Qed.

Lemma strict_eq_false (a b : jsval) : strict_eq a b = false <-> a <> b.
Proof.
  unfold strict_eq. rewrite <- jsval_eqb_eq. destruct (jsval_eqb a b); split; congruence.
Qed.

Lemma truthy_active (c : Controller) :
  truthy (currentSubcategory c) = true <-> subcategory_active c.
Proof.
  unfold subcategory_active. destruct (currentSubcategory c) as [| |s]; simpl.
  - split; [discriminate | intros [s [H _]]; discriminate].
  - split; [discriminate | intros [s [H _]]; discriminate].
  - rewrite negb_true_iff, String.eqb_neq. split.
    + intros H. exists s. auto.
    + intros [s' [H Hne]]. injection H as ->. exact Hne.
Qed.

(** C2. For an event with a cached entry [d]: [matchesFilter] returns true
    if the current filter is ['all']; otherwise false if the event's
    category differs from the current filter; otherwise, with an active
    subcategory, it returns true exactly when the event's subcategory
    equals it, and with no active subcategory it returns true. *)
Theorem matchesFilter_cases (c : Controller) (i : nat) (d : EventData) :
  eventData c !! i = Some d ->
  (currentFilter c = "all" -> matchesFilter c i = Some true) /\
  (currentFilter c <> "all" -> category d <> JStr (currentFilter c) ->
   matchesFilter c i = Some false) /\
  (currentFilter c <> "all" -> category d = JStr (currentFilter c) ->
   subcategory_active c ->
   exists b : bool,
     matchesFilter c i = Some b /\
     (b = true <-> subcategory d = currentSubcategory c)) /\
  (currentFilter c <> "all" -> category d = JStr (currentFilter c) ->
   ~ subcategory_active c ->
   matchesFilter c i = Some true).
Proof.
  intros Hd. unfold matchesFilter. repeat split.
  - intros ->. reflexivity.
  - intros Hall Hcat. apply String.eqb_neq in Hall. rewrite Hall, Hd. simpl.
    apply strict_eq_false in Hcat. rewrite Hcat. reflexivity.
  - intros Hall Hcat Hact. apply String.eqb_neq in Hall. rewrite Hall, Hd. simpl.
    rewrite Hcat. unfold strict_eq at 1. simpl. rewrite String.eqb_refl. simpl.
    apply truthy_active in Hact. rewrite Hact.
    eexists. split; [reflexivity|]. apply jsval_eqb_eq.
  - intros Hall Hcat Hact. apply String.eqb_neq in Hall. rewrite Hall, Hd. simpl.
    rewrite Hcat. unfold strict_eq at 1. simpl. rewrite String.eqb_refl. simpl.
    destruct (truthy (currentSubcategory c)) eqn:Ht; [|reflexivity].
    apply truthy_active in Ht. contradiction.
Qed.

Lemma matchesFilter_cases_witness :
  eventData founder_angel !! 1 = Some (event_data seed_round) /\
  (currentFilter founder_angel = "all" -> matchesFilter founder_angel 1 = Some true) /\
  (currentFilter founder_angel <> "all" ->
   category (event_data seed_round) <> JStr (currentFilter founder_angel) ->
   matchesFilter founder_angel 1 = Some false) /\
  (currentFilter founder_angel <> "all" ->
   category (event_data seed_round) = JStr (currentFilter founder_angel) ->
   subcategory_active founder_angel ->
   exists b : bool,
     matchesFilter founder_angel 1 = Some b /\
     (b = true <-> subcategory (event_data seed_round) = currentSubcategory founder_angel)) /\
  (currentFilter founder_angel <> "all" ->
   category (event_data seed_round) = JStr (currentFilter founder_angel) ->
   ~ subcategory_active founder_angel ->
   matchesFilter founder_angel 1 = Some true).
Proof.
  split; [vm_compute; reflexivity|].
  apply (matchesFilter_cases founder_angel 1 (event_data seed_round)).
  vm_compute; reflexivity.
Defined.

(** C6. [matchesFilter] is monotone: when the controller [c] has the
    filter ['all'], an event that matches after the filter is switched to
    any category [filter], with any subcategory [sub], matched under
    ['all'] already; the switch removes matches and adds none. *)
Theorem matchesFilter_monotone (c : Controller) (filter : string) (sub : jsval)
    (i : nat) :
  currentFilter c = "all" ->
  matchesFilter (set_currentSubcategory sub (set_currentFilter filter c)) i = Some true ->
  matchesFilter c i = Some true.
Proof.
  intros Hall _. unfold matchesFilter. rewrite Hall. reflexivity.
Qed.

Lemma matchesFilter_monotone_witness :
  currentFilter (this (construct sample_page)) = "all" /\
  matchesFilter
    (set_currentSubcategory (JStr "seed")
       (set_currentFilter "founder" (this (construct sample_page)))) 1 = Some true /\
  matchesFilter (this (construct sample_page)) 1 = Some true.
Proof.
  split; [reflexivity|]. split; [vm_compute; reflexivity|].
  apply (matchesFilter_monotone (this (construct sample_page)) "founder" (JStr "seed") 1);
    vm_compute; reflexivity.
Defined.

(** ** The controls *)

Lemma data_filter_remove_active (cls : control_class) (cs : list Control) :
  querySelector_data_filter "all" (remove_active cls cs)
  = querySelector_data_filter "all" cs.
Proof.
  unfold querySelector_data_filter, remove_active.
  rewrite list_find_fmap.
  rewrite (list_find_ext _ (fun c => data_filter c = Some "all")).
  - destruct (list_find _ cs) as [[i c]|]; reflexivity.
  - intros c. simpl. destruct (control_class_of c), cls; reflexivity.
Qed.

Lemma lookup_remove_active (cls : control_class) (cs : list Control) (j : nat)
    (c : Control) :
  remove_active cls cs !! j = Some c ->
  exists c0, cs !! j = Some c0 /\ control_class_of c = control_class_of c0 /\
    data_filter c = data_filter c0 /\ container c = container c0 /\
    (control_class_of c0 = cls -> cls <> OtherElement -> active c = false) /\
    (active c0 = false -> active c = false).
Proof.
  unfold remove_active. rewrite list_lookup_fmap.
  destruct (cs !! j) as [c0|]; simpl; [|discriminate].
  intros H. injection H as <-. exists c0. split; [reflexivity|].
  destruct (control_class_of c0) eqn:Hc, cls; simpl; rewrite ?Hc;
    repeat split; try reflexivity; try congruence; auto.
Qed.

(** C10. In the state [w'] the clear listener ends in, whether it returned
    or threw: the search term, the search field, the filter and the
    subcategory are [''], [''], ['all'] and [null], and the containers are
    exactly as they were, so a container marked shown before the click is
    still marked shown.  When the listener returned, the first element
    with [data-filter=all] is active and every other filter or subcategory
    button is not. *)
Theorem clear_keeps_pickers (w w' : World) :
  final (clearButton_click w) = Some w' ->
  currentSearchTerm (this w') = "" /\
  searchInput_value (page w') = "" /\
  currentFilter (this w') = "all" /\
  currentSubcategory (this w') = JNull /\
  pickers (page w') = pickers (page w) /\
  (forall id, pickers (page w) !! id = Some true ->
              pickers (page w') !! id = Some true) /\
  (clearButton_click w = Done w' ->
   exists k,
     querySelector_data_filter "all" (controls (page w)) = Some k /\
     forall j c, controls (page w') !! j = Some c ->
       (j = k -> active c = true) /\
       (j <> k -> control_class_of c <> OtherElement -> active c = false)).
Proof.
  unfold clearButton_click, resetAllButtons. simpl.
  rewrite !data_filter_remove_active.
  destruct (querySelector_data_filter "all" (controls (page w))) as [k|] eqn:Hk;
    simpl; intros H; injection H as <-; simpl.
  - repeat split; auto. intros _. exists k. split; [reflexivity|].
    intros j c Hj. destruct (decide (j = k)) as [->|Hne].
    + rewrite list_lookup_alter_eq in Hj.
      destruct (_ !! k) as [c0|]; simpl in Hj; [|discriminate].
      injection Hj as <-. split; [reflexivity | congruence].
    + rewrite list_lookup_alter_ne in Hj by congruence.
      split; [congruence|]. intros _ Hcls.
      apply lookup_remove_active in Hj
        as (c1 & Hc1 & Hcls1 & _ & _ & Hsub & Hkeep).
      apply lookup_remove_active in Hc1
        as (c0 & _ & Hcls0 & _ & _ & Hfil & _).
      destruct (control_class_of c1) eqn:E1.
      * apply Hkeep, Hfil; congruence.
      * apply Hsub; congruence.
      * congruence.
  - repeat split; auto. discriminate.
Qed.

(** The clear listener always ends inside the embedding. *)
Lemma clearButton_click_ends (w : World) :
  exists w', final (clearButton_click w) = Some w'.
Proof.
  unfold clearButton_click, resetAllButtons.
  destruct (querySelector_data_filter _ _); simpl; eexists; reflexivity.
Qed.

Lemma clear_keeps_pickers_witness :
  final (clearButton_click founder_clicked) = Some founder_cleared /\
  pickers (page founder_clicked) !! "founder-subcategories" = Some true /\
  pickers (page founder_cleared) !! "founder-subcategories" = Some true /\
  currentFilter (this founder_cleared) = "all".
Proof.
  assert (final (clearButton_click founder_clicked) = Some founder_cleared) as Hclear
    by (vm_compute; reflexivity).
  assert (pickers (page founder_clicked) !! "founder-subcategories" = Some true)
    as Hshown by (vm_compute; reflexivity).
  split; [exact Hclear|]. split; [exact Hshown|].
  destruct (clear_keeps_pickers founder_clicked founder_cleared Hclear)
    as (_ & _ & Hall & _ & _ & Hkeep & _).
  split; [apply Hkeep; exact Hshown | exact Hall].
Defined.

Lemma hideAllSubcategories_none_shown (w : World) (id : string) :
  pickers (page (hideAllSubcategories w)) !! id <> Some true.
Proof.
  simpl. rewrite lookup_fmap. destruct (pickers (page w) !! id); simpl; congruence.
Qed.

Lemma updateSubcategoryButtons_frame (w w' : World) :
  final (updateSubcategoryButtons w) = Some w' ->
  this w' = this w /\ pickers (page w') = pickers (page w) /\ loop w' = loop w /\
  events (page w') = events (page w) /\
  timelineSections (page w') = timelineSections (page w).
Proof.
  unfold updateSubcategoryButtons, activate_found.
  destruct (selector_safe _); [|discriminate].
  destruct (querySelector_data_filter _ _); simpl; intros H; injection H as <-;
    repeat split.
Qed.

Lemma updateFilterButtons_frame (w w' : World) :
  final (updateFilterButtons w) = Some w' ->
  this w' = this w /\ pickers (page w') = pickers (page w) /\ loop w' = loop w /\
  events (page w') = events (page w) /\
  timelineSections (page w') = timelineSections (page w).
Proof.
  unfold updateFilterButtons, activate_found.
  destruct (selector_safe _); [|discriminate].
  destruct (querySelector_data_filter _ _); simpl; intros H; injection H as <-;
    repeat split.
Qed.

Lemma final_and_then (o : outcome World) (k : World -> World) (w' : World) :
  final (o >>> fun x => Done (k x)) = Some w' ->
  (exists x, o = Done x /\ w' = k x) \/ (exists e, o = Thrown e w').
Proof.
  destruct o as [x|e x|]; simpl; intros H; try discriminate; injection H as <-.
  - left. exists x. auto.
  - right. exists e. reflexivity.
Qed.

(** C9, as stated, fails: on the sample page with ['founder'] and ['angel']
    active and the container shown, a click on ['founder'] returns, resets
    the subcategory to [null], and the event of category ['founder'] and
    subcategory ['seed'], which did not match before, matches after. *)
Lemma active_filter_click_changes_match :
  currentFilter (this angel_selected) = "founder" /\
  currentSubcategory (this angel_selected) = JStr "angel" /\
  pickers (page angel_selected) !! "founder-subcategories" = Some true /\
  matchesFilter (this angel_selected) 1 = Some false /\
  filterButton_click (JStr "founder") angel_selected = Done founder_again /\
  currentSubcategory (this founder_again) = JNull /\
  matchesFilter (this founder_again) 1 = Some true.
Proof. by_evaluation. Qed.

(** C9, amended. When the clicked filter [f] (['founder'] or
    ['regulation']) is already the current one and the listener returns,
    the filter and the cached entries are unchanged, and: if the container
    of [f] was not shown, the click marks it shown and changes neither the
    subcategory nor [matchesFilter] for any event; if it was shown, the
    click hides every container and resets the subcategory to [null], so
    every event that matched before still matches. *)
Theorem active_filter_click (w w' : World) (f : string) :
  f = "founder" \/ f = "regulation" ->
  currentFilter (this w) = f ->
  filterButton_click (JStr f) w = Done w' ->
  currentFilter (this w') = f /\
  eventData (this w') = eventData (this w) /\
  (pickers (page w) !! subcategories_id f = Some false ->
   currentSubcategory (this w') = currentSubcategory (this w) /\
   pickers (page w') = <[subcategories_id f := true]> (pickers (page w)) /\
   forall i, matchesFilter (this w') i = matchesFilter (this w) i) /\
  (pickers (page w) !! subcategories_id f = Some true ->
   currentSubcategory (this w') = JNull /\
   (forall id, pickers (page w') !! id <> Some true) /\
   forall i, matchesFilter (this w) i = Some true ->
             matchesFilter (this w') i = Some true).
Proof.
  intros Hf Hcur. unfold filterButton_click.
  assert (String.eqb f "all" = false) as ->
    by (destruct Hf as [-> | ->]; reflexivity).
  assert (String.eqb f "founder" || String.eqb f "regulation" = true) as ->
    by (destruct Hf as [-> | ->]; reflexivity).
  rewrite Hcur, String.eqb_refl. unfold toggle_subcategories.
  destruct (pickers (page w) !! subcategories_id f) as [[|]|] eqn:Hp;
    [| |discriminate].
  - intros H.
    destruct (updateSubcategoryButtons _) as [x| |] eqn:Hu; try discriminate.
    simpl in H. injection H as <-.
    assert (final (updateSubcategoryButtons
                     (hideAllSubcategories
                        (with_this (set_currentSubcategory JNull) w))) = Some x)
      as Hx by (rewrite Hu; reflexivity).
    apply updateSubcategoryButtons_frame in Hx as (Hthis & Hpick & _).
    simpl. rewrite Hthis. simpl. repeat split; auto; try discriminate.
    + intros id. rewrite Hpick. apply hideAllSubcategories_none_shown.
    + intros i. unfold matchesFilter. simpl.
      destruct (String.eqb (currentFilter (this w)) "all"); [reflexivity|].
      destruct (eventData (this w) !! i) as [d|]; simpl; [|discriminate].
      destruct (negb _); [discriminate|]. reflexivity.
  - intros H. injection H as <-. simpl. repeat split; auto; try discriminate.
    apply map_eq. intros id.
    destruct (decide (subcategories_id f = id)) as [<-|Hne].
    + rewrite lookup_alter_eq, lookup_insert_eq, Hp. reflexivity.
    + rewrite lookup_alter_ne, lookup_insert_ne by exact Hne. reflexivity.
Qed.

(** With the container of the current filter on the page, the click on
    that filter returns. *)
Lemma active_filter_click_returns (w : World) (f : string) :
  f = "founder" \/ f = "regulation" ->
  currentFilter (this w) = f ->
  is_Some (pickers (page w) !! subcategories_id f) ->
  exists w', filterButton_click (JStr f) w = Done w'.
Proof.
  intros Hf Hcur [shown Hp]. unfold filterButton_click.
  assert (String.eqb f "all" = false) as ->
    by (destruct Hf as [-> | ->]; reflexivity).
  assert (String.eqb f "founder" || String.eqb f "regulation" = true) as ->
    by (destruct Hf as [-> | ->]; reflexivity).
  rewrite Hcur, String.eqb_refl. unfold toggle_subcategories. rewrite Hp.
  destruct shown; [|eexists; reflexivity].
  unfold updateSubcategoryButtons, activate_found. simpl.
  destruct (querySelector_data_filter _ _); simpl; eexists; reflexivity.
Qed.

Lemma active_filter_click_witness :
  ("founder" = "founder" \/ "founder" = "regulation") /\
  currentFilter (this angel_selected) = "founder" /\
  filterButton_click (JStr "founder") angel_selected = Done founder_again /\
  currentFilter (this founder_again) = "founder" /\
  currentSubcategory (this founder_again) = JNull.
Proof.
  assert (currentFilter (this angel_selected) = "founder") as Hcur
    by (vm_compute; reflexivity).
  assert (filterButton_click (JStr "founder") angel_selected = Done founder_again)
    as Hclick by (vm_compute; reflexivity).
  split; [left; reflexivity|]. split; [exact Hcur|]. split; [exact Hclick|].
  destruct (active_filter_click angel_selected founder_again "founder"
              (or_introl eq_refl) Hcur Hclick) as (Hf & _ & _ & Hshown).
  split; [exact Hf | apply Hshown; vm_compute; reflexivity].
Defined.

(** ** What the recomputation pass leaves alone *)

Lemma highlightSearchTerm_outside (i : nat) (term : string) (w w' : World) :
  final (highlightSearchTerm i term w) = Some w' ->
  outside_events w' = outside_events w.
Proof.
  unfold highlightSearchTerm.
  destruct (events (page (removeHighlights i w)) !! i) as [e|]; [|discriminate].
  destruct (highlightText (h3 e) term) as [t|x t|]; [| |discriminate].
  - destruct (highlightText (p e) term) as [d|x d|]; [| |discriminate];
      simpl; intros H; injection H as <-; reflexivity.
  - simpl; intros H; injection H as <-; reflexivity.
Qed.

Lemma filter_event_outside (i : nat) (w w' : World) :
  final (filter_event i w) = Some w' ->
  outside_events w' = outside_events w.
Proof.
  unfold filter_event.
  destruct (matchesSearch (this w) i) as [ms|];
    [|simpl; intros H; injection H as <-; reflexivity].
  destruct (matchesFilter (this w) i) as [mf|];
    [|simpl; intros H; injection H as <-; reflexivity].
  destruct (ms && mf).
  - destruct (truthy _).
    + intros H. apply highlightSearchTerm_outside in H. exact H.
    + simpl; intros H; injection H as <-; reflexivity.
  - simpl; intros H; injection H as <-; reflexivity.
Qed.

Lemma forEach_outside (nodes : list nat) (w w' : World) :
  final (forEach filter_event nodes w) = Some w' ->
  outside_events w' = outside_events w.
Proof.
  revert w; induction nodes as [|i rest IH]; intros w; simpl.
  - intros H; injection H as <-; reflexivity.
  - destruct (filter_event i w) as [x|e x|] eqn:Hi; simpl; [| |discriminate].
    + intros H. apply IH in H. rewrite H.
      apply (filter_event_outside i). rewrite Hi. reflexivity.
    + intros H; injection H as <-.
      apply (filter_event_outside i). rewrite Hi. reflexivity.
Qed.

Lemma applyAllFilters_frame_outside (w w' : World) :
  final (applyAllFilters_frame w) = Some w' ->
  outside_events w' = outside_events w.
Proof.
  unfold applyAllFilters_frame.
  destruct (forEach _ _ w) as [x|e x|] eqn:Hf; simpl; [| |discriminate];
    intros H; injection H as <-.
  - change (outside_events x = outside_events w).
    apply (forEach_outside (seq 0 (length (events (page w))))).
    rewrite Hf. reflexivity.
  - apply (forEach_outside (seq 0 (length (events (page w))))).
    rewrite Hf. reflexivity.
Qed.

Lemma run_frame_outside (w w' : World) (o : outcome World) :
  run_frame w = Some o -> final o = Some w' ->
  outside_events w' = outside_events w.
Proof.
  unfold run_frame. destruct (frames (loop w)) as [|k]; [discriminate|].
  intros H; injection H as <-. intros H.
  apply applyAllFilters_frame_outside in H. exact H.
Qed.

Lemma run_timer_controls (w w' : World) :
  run_timer w = Some w' ->
  this w' = this w /\ controls (page w') = controls (page w) /\
  pickers (page w') = pickers (page w).
Proof.
  unfold run_timer. destruct (pop_earliest _) as [[t rest]|]; [|discriminate].
  intros H; injection H as <-. destruct (job t); repeat split.
Qed.

(** ** The filter state and the containers *)

Lemma static_remove_active (cls : control_class) (cs : list Control) :
  static <$> remove_active cls cs = static <$> cs.
Proof.
  unfold remove_active. rewrite <- list_fmap_compose. apply list_fmap_ext.
  intros _ c _. simpl. destruct (control_class_of c) eqn:E, cls; reflexivity.
Qed.

Lemma static_alter_active (b : bool) (i : nat) (cs : list Control) :
  static <$> alter (set_active b) i cs = static <$> cs.
Proof.
  revert i; induction cs as [|c cs IH]; intros [|i]; simpl; try reflexivity.
  f_equal. apply IH.
Qed.

Lemma activate_found_state (code : string) (w w' : World) :
  final (activate_found code w) = Some w' ->
  activate_found code w = Done w' /\ filter_state w' = filter_state w /\
  loop w' = loop w /\ this w' = this w.
Proof.
  unfold activate_found. destruct (selector_safe code); [|discriminate].
  destruct (querySelector_data_filter _ _) as [i|]; simpl;
    intros H; injection H as <-; repeat split.
  unfold filter_state; simpl. rewrite static_alter_active. reflexivity.
Qed.

Lemma updateFilterButtons_state (w w' : World) :
  final (updateFilterButtons w) = Some w' ->
  updateFilterButtons w = Done w' /\ filter_state w' = filter_state w.
Proof.
  unfold updateFilterButtons. intros H.
  apply activate_found_state in H as (-> & -> & _). split; [reflexivity|].
  unfold filter_state; simpl. rewrite static_remove_active. reflexivity.
Qed.

Lemma updateSubcategoryButtons_state (w w' : World) :
  final (updateSubcategoryButtons w) = Some w' ->
  updateSubcategoryButtons w = Done w' /\ filter_state w' = filter_state w.
Proof.
  unfold updateSubcategoryButtons. intros H.
  apply activate_found_state in H as (-> & -> & _). split; [reflexivity|].
  unfold filter_state; simpl. rewrite static_remove_active. reflexivity.
Qed.

Lemma finish_filter_state (w w' : World) :
  final (updateFilterButtons w >>> fun x => Done (debouncedFilter x)) = Some w' ->
  filter_state w' = filter_state w.
Proof.
  intros H. apply final_and_then in H as [(x & Hx & ->) | (e & He)].
  - rewrite <- (proj2 (updateFilterButtons_state w x ltac:(rewrite Hx; reflexivity))).
    reflexivity.
  - apply (updateFilterButtons_state w w'). rewrite He. reflexivity.
Qed.

Lemma finish_subcategory_state (w w' : World) :
  final (updateSubcategoryButtons w >>> fun x => Done (debouncedFilter x)) = Some w' ->
  filter_state w' = filter_state w.
Proof.
  intros H. apply final_and_then in H as [(x & Hx & ->) | (e & He)].
  - rewrite <- (proj2 (updateSubcategoryButtons_state w x ltac:(rewrite Hx; reflexivity))).
    reflexivity.
  - apply (updateSubcategoryButtons_state w w'). rewrite He. reflexivity.
Qed.

Lemma filterButton_click_state (filter : jsval) (w w' : World) :
  final (filterButton_click filter w) = Some w' ->
  filter_state w' = after_filter_click filter w.
Proof.
  unfold filterButton_click, after_filter_click.
  destruct filter as [| |f]; try apply finish_filter_state.
  destruct (String.eqb f "all") eqn:Hall.
  { intros H. apply finish_filter_state in H. exact H. }
  destruct (String.eqb f "founder" || String.eqb f "regulation");
    [|apply finish_filter_state].
  destruct (String.eqb (currentFilter (this w)) f) eqn:Hcur.
  - apply String.eqb_eq in Hcur. unfold toggle_subcategories.
    destruct (pickers (page w) !! subcategories_id f) as [[|]|].
    + intros H. apply finish_subcategory_state in H. rewrite H.
      unfold filter_state; simpl. rewrite Hcur. reflexivity.
    + simpl. intros H; injection H as <-. unfold filter_state; simpl.
      rewrite Hcur. reflexivity.
    + simpl. intros H; injection H as <-. reflexivity.
  - intros H. apply finish_filter_state in H. exact H.
Qed.

Lemma subcategoryButton_click_state (filter : jsval) (w w' : World) :
  final (subcategoryButton_click filter w) = Some w' ->
  filter_state w'
  = (currentFilter (this w), filter, pickers (page w), static <$> controls (page w)).
Proof.
  unfold subcategoryButton_click. intros H.
  apply finish_subcategory_state in H. exact H.
Qed.

Lemma hidden_none_shown (m : gmap string bool) (id : string) :
  ((fun _ : bool => false) <$> m) !! id <> Some true.
Proof. rewrite lookup_fmap. destruct (m !! id); simpl; congruence. Qed.

Lemma discipline_filter_click (filter : jsval) (w : World) :
  discipline (filter_state w) -> discipline (after_filter_click filter w).
Proof.
  intros [Hshown Hsub]. unfold after_filter_click.
  destruct filter as [| |f]; try (split; assumption).
  destruct (String.eqb f "all").
  { split; [|congruence]. intros id H. exfalso. exact (hidden_none_shown _ _ H). }
  destruct (String.eqb f "founder" || String.eqb f "regulation");
    [|split; assumption].
  destruct (String.eqb (currentFilter (this w)) f) eqn:Hcur.
  - apply String.eqb_eq in Hcur. subst f.
    destruct (pickers (page w) !! subcategories_id (currentFilter (this w)))
      as [[|]|] eqn:Hp; [| |split; assumption].
    + split; [|congruence]. intros id H. exfalso. exact (hidden_none_shown _ _ H).
    + split; [|exact Hsub]. intros id H.
      destruct (decide (subcategories_id (currentFilter (this w)) = id)) as [<-|Hne];
        [reflexivity|].
      rewrite lookup_alter_ne in H by exact Hne. apply Hshown, H.
  - split; [|congruence]. intros id H.
    destruct (decide (subcategories_id f = id)) as [<-|Hne]; [reflexivity|].
    rewrite lookup_alter_ne in H by exact Hne.
    exfalso. exact (hidden_none_shown _ _ H).
Qed.

Lemma outside_events_filter_state (w w' : World) :
  outside_events w' = outside_events w -> filter_state w' = filter_state w.
Proof.
  unfold outside_events, filter_state. intros H.
  injection H as Hthis _ Hctl Hpick _. rewrite Hthis, Hctl, Hpick. reflexivity.
Qed.

Lemma discipline_perform (a : action) (w w' : World) :
  without_clear a -> perform a w = Some w' ->
  discipline (filter_state w) -> discipline (filter_state w').
Proof.
  intros Ha Hstep Hinv. destruct a; simpl in Hstep.
  - injection Hstep as <-. exact Hinv.
  - injection Hstep as <-. unfold searchInput_keydown.
    destruct (String.eqb key "Enter"); exact Hinv.
  - injection Hstep as <-. exact Hinv.
  - exfalso. apply Ha. reflexivity.
  - apply filterButton_click_state in Hstep. rewrite Hstep.
    apply discipline_filter_click, Hinv.
  - destruct (controls (page w) !! button) as [c|] eqn:Hc; simpl in Hstep;
      [|discriminate].
    destruct (exposed (page w) c) eqn:Hexp; [|discriminate].
    apply subcategoryButton_click_state in Hstep. rewrite Hstep.
    destruct Hinv as [Hshown _]. split; [exact Hshown|]. intros _.
    unfold exposed in Hexp.
    destruct (control_class_of c) eqn:Hcls; try discriminate.
    destruct (container c) as [id|] eqn:Hcont; [|discriminate].
    apply bool_decide_eq_true in Hexp. apply Hshown in Hexp. subst id.
    exists (data_filter c). split; [|reflexivity].
    apply list_elem_of_fmap. exists c. split.
    + unfold static. rewrite Hcls, Hcont. reflexivity.
    + apply list_elem_of_lookup. exists button. exact Hc.
  - injection Hstep as <-. destruct in_controls; [exact Hinv|].
    destruct Hinv as [_ Hsub]. split; [|exact Hsub].
    intros id H. exfalso. exact (hidden_none_shown _ _ H).
  - apply run_timer_controls in Hstep as (Hthis & Hctl & Hpick).
    unfold filter_state. rewrite Hthis, Hctl, Hpick. exact Hinv.
  - destruct (run_frame w) as [o|] eqn:Ho; simpl in Hstep; [|discriminate].
    rewrite (outside_events_filter_state w w'); [exact Hinv|].
    apply (run_frame_outside w w' o); assumption.
Qed.

Lemma discipline_reachable (pg : Page) (w : World) :
  no_picker_shown (pickers pg) ->
  reachable without_clear pg w -> discipline (filter_state w).
Proof.
  intros Hpg Hreach. induction Hreach as [|a w w' _ IH Ha Hstep].
  - split; [|intros H; contradiction H; reflexivity].
    intros id H. exfalso. exact (Hpg id H).
  - exact (discipline_perform a w w' Ha Hstep IH).
Qed.

(** C5, as stated, fails: on the sample page with the filter ['founder'],
    a click on the other filter ['regulation'] returns with the
    subcategory [null] and the container of ['regulation'] marked shown. *)
Lemma switch_shows_new_picker :
  currentFilter (this founder_clicked) = "founder" /\
  filterButton_click (JStr "regulation") founder_clicked = Done regulation_clicked /\
  currentFilter (this regulation_clicked) = "regulation" /\
  currentSubcategory (this regulation_clicked) = JNull /\
  pickers (page regulation_clicked) !! "regulation-subcategories" = Some true.
Proof. by_evaluation. Qed.

(** C5, amended. On a page loaded with no container shown, in every state
    [w] reached through actions other than a click on the clear button
    (subcategory buttons being clicked only while their container is
    shown): a subcategory that is not [null] is the code of a subcategory
    button in the container of the current filter; after a click on
    ['all'] the subcategory is [null] and no container is shown; after a
    click on a filter ['founder'] or ['regulation'] that is not the current
    one the subcategory is [null] and only the container of the new filter
    can be shown. *)
Theorem subcategory_discipline (pg : Page) (w : World) :
  no_picker_shown (pickers pg) ->
  reachable without_clear pg w ->
  (currentSubcategory (this w) <> JNull ->
   exists b, b ∈ controls (page w) /\
     control_class_of b = SubcategoryBtn /\
     dataset (data_filter b) = currentSubcategory (this w) /\
     container b = Some (subcategories_id (currentFilter (this w)))) /\
  (forall w', perform (ClickFilter (JStr "all")) w = Some w' ->
     currentFilter (this w') = "all" /\
     currentSubcategory (this w') = JNull /\
     no_picker_shown (pickers (page w'))) /\
  (forall f w', f = "founder" \/ f = "regulation" ->
     currentFilter (this w) <> f ->
     perform (ClickFilter (JStr f)) w = Some w' ->
     currentFilter (this w') = f /\
     currentSubcategory (this w') = JNull /\
     forall id, pickers (page w') !! id = Some true -> id = subcategories_id f).
Proof.
  intros Hpg Hreach. split; [|split].
  - destruct (discipline_reachable pg w Hpg Hreach) as [_ Hsub].
    intros Hne. destruct (Hsub Hne) as (code & Hin & Hcode).
    apply list_elem_of_fmap in Hin as (b & Hb & Hin). exists b.
    unfold static in Hb. injection Hb as Hcls Hdf Hcont.
    repeat split; congruence.
  - intros w' Hstep.
    apply (filterButton_click_state (JStr "all") w w') in Hstep.
    unfold filter_state, after_filter_click in Hstep. simpl in Hstep.
    injection Hstep as -> -> -> _. repeat split.
    intros id. apply hidden_none_shown.
  - intros f w' Hf Hcur Hstep.
    apply (filterButton_click_state (JStr f) w w') in Hstep.
    unfold filter_state, after_filter_click in Hstep.
    assert (String.eqb f "all" = false) as Hall
      by (destruct Hf as [-> | ->]; reflexivity).
    assert (String.eqb f "founder" || String.eqb f "regulation" = true) as Hfr
      by (destruct Hf as [-> | ->]; reflexivity).
    rewrite Hall, Hfr in Hstep.
    assert (String.eqb (currentFilter (this w)) f = false) as Hne
      by (apply String.eqb_neq; exact Hcur).
    rewrite Hne in Hstep. injection Hstep as -> -> -> _. repeat split.
    intros id H.
    destruct (decide (subcategories_id f = id)) as [<-|Hid]; [reflexivity|].
    rewrite lookup_alter_ne in H by exact Hid.
    exfalso. exact (hidden_none_shown _ _ H).
Qed.

Lemma sample_page_no_picker_shown : no_picker_shown (pickers sample_page).
Proof.
  intros id H. simpl in H.
  apply lookup_insert_Some in H as [[_ H] | [_ H]]; [discriminate|].
  apply lookup_singleton_Some in H as [_ H]. discriminate.
Defined.

Lemma angel_selected_reachable : reachable without_clear sample_page angel_selected.
Proof.
  apply (reach_step _ _ (ClickSubcategory 4) founder_clicked);
    [|discriminate|vm_compute; reflexivity].
  apply (reach_step _ _ (ClickFilter (JStr "founder")) (construct sample_page));
    [|discriminate|vm_compute; reflexivity].
  apply reach_load.
Defined.

Lemma subcategory_discipline_witness :
  no_picker_shown (pickers sample_page) /\
  reachable without_clear sample_page angel_selected /\
  currentSubcategory (this angel_selected) = JStr "angel" /\
  exists b, b ∈ controls (page angel_selected) /\
    control_class_of b = SubcategoryBtn /\
    dataset (data_filter b) = currentSubcategory (this angel_selected) /\
    container b = Some (subcategories_id (currentFilter (this angel_selected))).
Proof.
  assert (currentSubcategory (this angel_selected) = JStr "angel") as Hsub
    by (vm_compute; reflexivity).
  split; [exact sample_page_no_picker_shown|].
  split; [exact angel_selected_reachable|].
  split; [exact Hsub|].
  apply (subcategory_discipline sample_page angel_selected
           sample_page_no_picker_shown angel_selected_reachable).
  rewrite Hsub. discriminate.
Defined.

(** With the clear button the ownership is lost: cleared while the
    container of ['founder'] is shown, the page keeps it shown, and a
    click on its button ['seed'] sets the subcategory under the filter
    ['all']. *)
Remark clear_then_subcategory :
  pickers (page founder_cleared) !! "founder-subcategories" = Some true /\
  (currentFilter <$> (this <$> perform (ClickSubcategory 3) founder_cleared))
  = Some "all" /\
  (currentSubcategory <$> (this <$> perform (ClickSubcategory 3) founder_cleared))
  = Some (JStr "seed").
Proof. by_evaluation. Qed.

(** ** The search predicate in every state the page reaches *)

Lemma this_activate_found (code : string) (w w' : World) :
  final (activate_found code w) = Some w' -> this w' = this w.
Proof. intros H. apply activate_found_state in H as (_ & _ & _ & H). exact H. Qed.

Lemma eventData_perform (a : action) (w w' : World) :
  perform a w = Some w' -> eventData (this w') = eventData (this w).
Proof.
  destruct a; simpl.
  - intros H; injection H as <-. reflexivity.
  - intros H; injection H as <-. unfold searchInput_keydown.
    destruct (String.eqb key "Enter"); reflexivity.
  - intros H; injection H as <-. reflexivity.
  - unfold clearButton_click, resetAllButtons.
    destruct (querySelector_data_filter _ _); simpl; intros H; injection H as <-;
      reflexivity.
  - unfold filterButton_click, toggle_subcategories, updateFilterButtons,
      updateSubcategoryButtons. intros H.
    repeat match type of H with
    | final (match ?x with _ => _ end) = _ => destruct x; simpl in H
    | final ((if ?x then _ else _)) = _ => destruct x; simpl in H
    | final (_ >>> _) = _ =>
        apply final_and_then in H as [(x & Hx & ->) | (e & Hx)];
        [apply (f_equal final) in Hx | apply (f_equal final) in Hx];
        simpl in Hx; apply this_activate_found in Hx; simpl in Hx;
        try (simpl; rewrite Hx; reflexivity); try (rewrite Hx; reflexivity)
    end;
    try discriminate; try (injection H as <-; reflexivity).
  - destruct (controls (page w) !! button) as [c|]; simpl; [|discriminate].
    destruct (exposed (page w) c); [|discriminate].
    unfold subcategoryButton_click, updateSubcategoryButtons. intros H.
    apply final_and_then in H as [(x & Hx & ->) | (e & Hx)];
      apply (f_equal final) in Hx; simpl in Hx;
      apply this_activate_found in Hx; simpl; rewrite Hx; reflexivity.
  - intros H; injection H as <-. destruct in_controls; reflexivity.
  - intros H. apply run_timer_controls in H as (-> & _). reflexivity.
  - destruct (run_frame w) as [o|] eqn:Ho; simpl; [|discriminate].
    intros H. apply (run_frame_outside w w' o Ho) in H.
    injection H as -> _ _ _ _. reflexivity.
Qed.

(** The entries cached at load are never replaced. *)
Lemma eventData_reachable (allowed : action -> Prop) (pg : Page) (w : World) :
  reachable allowed pg w ->
  eventData (this w) = map_seq 0 (event_data <$> events pg).
Proof.
  induction 1 as [|a w w' _ IH _ Hstep]; [reflexivity|].
  rewrite (eventData_perform a w w' Hstep). exact IH.
Qed.

(** C3. In every state [w] the page [pg] reaches, for every event [e] the
    page was loaded with: under the empty search term [matchesSearch]
    returns true; under a non-empty term it returns, and returns true
    exactly when the lower-cased concatenation of title, description,
    year, category tags and subcategory tags of [e], cached at load,
    contains the lower-cased term as a substring, that is, equals
    [pre ++ toLowerCase term ++ post] for some [pre] and [post]. *)
Theorem matchesSearch_substring (pg : Page) (w : World) (i : nat) (e : EventNode) :
  reachable (fun _ => True) pg w ->
  events pg !! i = Some e ->
  (currentSearchTerm (this w) = "" -> matchesSearch (this w) i = Some true) /\
  (currentSearchTerm (this w) <> "" ->
   exists b : bool,
     matchesSearch (this w) i = Some b /\
     (b = true <->
      exists pre post,
        toLowerCase (concatenated_text e)
        = pre ++ toLowerCase (currentSearchTerm (this w)) ++ post)).
Proof.
  intros Hreach He.
  apply (matchesSearch_cached (this w) (events pg) i e); [|exact He].
  apply (eventData_reachable _ pg w Hreach).
Qed.

Lemma searched_2021_reachable :
  reachable (fun _ => True) sample_page
    (searchButton_click (searchInput_input "2021" (construct sample_page))).
Proof.
  apply (reach_step _ _ ClickSearch (searchInput_input "2021" (construct sample_page)));
    [|exact I|reflexivity].
  apply (reach_step _ _ (TypeInSearch "2021") (construct sample_page));
    [|exact I|reflexivity].
  apply reach_load.
Defined.

Lemma matchesSearch_substring_witness :
  let w := searchButton_click (searchInput_input "2021" (construct sample_page)) in
  reachable (fun _ => True) sample_page w /\
  events sample_page !! 0 = Some act_2021 /\
  (currentSearchTerm (this w) = "" -> matchesSearch (this w) 0 = Some true) /\
  (currentSearchTerm (this w) <> "" ->
   exists b : bool,
     matchesSearch (this w) 0 = Some b /\
     (b = true <->
      exists pre post,
        toLowerCase (concatenated_text act_2021)
        = pre ++ toLowerCase (currentSearchTerm (this w)) ++ post)).
Proof.
  split; [exact searched_2021_reachable|]. split; [reflexivity|].
  apply (matchesSearch_substring sample_page _ 0 act_2021);
    [exact searched_2021_reachable | reflexivity].
Defined.

(** ** The recomputation pass on a search term that is not a pattern *)

(** C1 at the failing input. On the sample page the term [(2021] is typed
    and searched.  The pass shows the first event, whose text contains the
    term, and throws in [highlightText]: [((2021)] is not a regular
    expression.  The second event does not match the search and is left as
    it was, displayed. *)
Theorem pass_aborts_on_unbalanced_term :
  let w := searched "(2021" (construct sample_page) in
  run_frame w = Some (Thrown InvalidRegExp (after_frame w)) /\
  matchesSearch (this (after_frame w)) 0 = Some true /\
  matchesFilter (this (after_frame w)) 0 = Some true /\
  matchesSearch (this (after_frame w)) 1 = Some false /\
  style <$> events (page (after_frame w)) !! 0
  = Some (mkStyle "flex" "1" "translateY(0)") /\
  style <$> events (page (after_frame w)) !! 1 = Some no_style /\
  is_visible <$> events (page (after_frame w)) !! 1 = Some true /\
  timers (loop (after_frame w)) = [].
Proof. by_evaluation. Qed.

(** C4 at the failing input. From the page where nothing is displayed, the
    term [(2021] is searched: the pass shows the first event and throws
    before it sets the timer of [updateSectionVisibility].  Once every
    timer has fired, the first section is still not displayed although its
    event is visible. *)
Theorem section_stays_hidden_after_abort :
  let w := searched "(2021" nothing_found in
  section_display <$> timelineSections (page nothing_found) !! 0 = Some "none" /\
  run_frame w = Some (Thrown InvalidRegExp (after_frame w)) /\
  timers (loop (settle (after_frame w))) = [] /\
  frames (loop (settle (after_frame w))) = 0 /\
  section_display <$> timelineSections (page (settle (after_frame w))) !! 0
  = Some "none" /\
  section_events <$> timelineSections (page (settle (after_frame w))) !! 0
  = Some [0] /\
  is_visible <$> events (page (settle (after_frame w))) !! 0 = Some true.
Proof. by_evaluation. Qed.

(** ** Highlighting text that reads as markup *)

(** C7 at the failing input. The title reads [Q&amp;A], the description
    [Fintech panel]; [fintech] is searched, then the empty term.  The
    highlight pass assigns the title's text to [innerHTML], where [&amp;]
    is a character reference: the title reads [Q&A] from then on, and
    clearing the term does not bring the text back. *)
Theorem highlight_rewrites_reference :
  let w1 := after_frame (searched "fintech" (construct panel_page)) in
  let w2 := after_frame (searched "" (settle w1)) in
  highlightText [Text "Q&amp;A"] "fintech" = Done [Text "Q&A"] /\
  run_frame (searched "fintech" (construct panel_page)) = Some (Done w1) /\
  p <$> events (page w1) !! 0 = Some [HighlightSpan "Fintech"; Text " panel"] /\
  run_frame (searched "" (settle w1)) = Some (Done w2) /\
  p <$> events (page w2) !! 0 = Some [Text "Fintech panel"] /\
  textContent <$> (h3 <$> events (page w2) !! 0) = Some "Q&A" /\
  textContent (h3 panel) = "Q&amp;A".
Proof. by_evaluation. Qed.

(** A term that closes the group of [highlightText] early: in
    [(a)|(b)] the reference [$1] is empty where the second alternative
    matched, and the matched text is lost. *)
Remark highlight_drops_second_alternative :
  (textContent <$> final (highlightText [Text "abc"] "a)|(b")) = Some "ac".
Proof. vm_compute. reflexivity. Qed.

(** ** The progress bar *)

(** C8 at the failing input. On a page as high as the window
    [docHeight] is [0] and [scrollTop / docHeight] is [0 / 0]: the
    division yields [NaN], [Math.max] and [Math.min] return it, and the
    number written to the width is [NaN]. *)
Theorem scrollPercent_nan_on_short_page :
  is_nan (PrimFloat.div (pageYOffset short_page)
            (PrimFloat.sub (scrollHeight short_page) (innerHeight short_page))) = true /\
  is_nan (scrollPercent short_page) = true /\
  (is_nan <$> width_percent (updateProgress short_page scrolling)) = Some true /\
  PrimFloat.leb 0 (scrollPercent short_page) = false /\
  PrimFloat.leb (scrollPercent short_page) 100 = false.
Proof. by_evaluation. Qed.

(** Where the content is higher than the window the bar is at [0] at the
    top and at [100] at the bottom. *)
Example scrollPercent_top_and_bottom :
  scrollPercent (mkViewport 0 2000 800) = 0%float /\
  scrollPercent (mkViewport 1200 2000 800) = 100%float.
Proof. by_evaluation. Qed.

(** Apart from [NaN], the clamp works: the number written is [NaN]
    exactly when the quotient is, and lies between [0] and [100]
    otherwise. *)

Section ProgressBar.

Local Open Scope float_scope.

Lemma SFcompare_antisym (a b : spec_float) :
  SFcompare a b = CompOpp <$> SFcompare b a.
Proof.
  destruct a as [sa|sa| |sa ma ea], b as [sb|sb| |sb mb eb]; simpl;
    try reflexivity; try (destruct sa; reflexivity); try (destruct sb; reflexivity);
    try (destruct sa, sb; reflexivity).
  destruct sa, sb; simpl; try reflexivity;
    rewrite (Z.compare_antisym ea eb); destruct (Z.compare ea eb); simpl;
    try reflexivity;
    rewrite (Pos.compare_cont_antisym mb ma Eq); simpl; reflexivity.
Qed.

Lemma not_nan_compare (a : float) :
  is_nan a = false -> Prim2SF a <> S754_nan.
Proof.
  unfold is_nan. intros H Hn. apply negb_false_iff in H.
  rewrite FloatAxioms.eqb_spec in H. unfold SFeqb in H. rewrite Hn in H. discriminate.
Qed.

Lemma ltb_leb (a b : float) : PrimFloat.ltb a b = true -> PrimFloat.leb a b = true.
Proof.
  rewrite FloatAxioms.ltb_spec, FloatAxioms.leb_spec. unfold SFltb, SFleb.
  destruct (SFcompare _ _) as [[]|]; auto.
Qed.

Lemma not_ltb_leb (a b : float) :
  is_nan a = false -> is_nan b = false ->
  PrimFloat.ltb b a = false -> PrimFloat.leb a b = true.
Proof.
  intros Ha Hb. apply not_nan_compare in Ha, Hb.
  rewrite FloatAxioms.ltb_spec, FloatAxioms.leb_spec. unfold SFltb, SFleb.
  rewrite (SFcompare_antisym (Prim2SF a) (Prim2SF b)).
  destruct (Prim2SF a) as [sa|sa| |sa ma ea] eqn:Ea; [| |contradiction|];
  destruct (Prim2SF b) as [sb|sb| |sb mb eb] eqn:Eb; try contradiction;
  destruct (SFcompare _ _) as [[]|] eqn:Hc; simpl; try reflexivity; try discriminate;
  intros _; simpl in Hc; try discriminate;
  repeat match type of Hc with
  | context [if ?s then _ else _] => destruct s
  | context [match ?s with _ => _ end] => destruct s
  end; discriminate.
Qed.

Lemma Math_max_0 (x : float) :
  is_nan x = false ->
  is_nan (Math_max 0 x) = false /\ PrimFloat.leb 0 (Math_max 0 x) = true.
Proof.
  intros Hx. unfold Math_max. rewrite Hx.
  change (is_nan 0) with false. change (get_sign 0) with false. simpl.
  destruct (PrimFloat.ltb 0 x) eqn:Hlt.
  - split; [exact Hx | apply ltb_leb; exact Hlt].
  - destruct (PrimFloat.ltb x 0); split; reflexivity.
Qed.

Lemma Math_min_100 (y : float) :
  is_nan y = false ->
  PrimFloat.leb 0 y = true ->
  is_nan (Math_min 100 y) = false /\
  PrimFloat.leb 0 (Math_min 100 y) = true /\
  PrimFloat.leb (Math_min 100 y) 100 = true.
Proof.
  intros Hy H0. unfold Math_min. rewrite Hy.
  change (is_nan 100) with false. change (get_sign 100) with false. simpl.
  destruct (PrimFloat.ltb 100 y) eqn:Hgt.
  - repeat split; reflexivity.
  - destruct (PrimFloat.ltb y 100) eqn:Hlt.
    + repeat split; auto. apply ltb_leb; exact Hlt.
    + repeat split; auto. apply not_ltb_leb; auto.
Qed.

(** X21. The percentage [updateProgress] writes is [NaN] exactly when the
    quotient of the scroll offset by the scrollable height, times 100, is;
    otherwise it lies between 0 and 100. *)
Lemma scrollPercent_range (v : Viewport) :
  let q := pageYOffset v / (scrollHeight v - innerHeight v) * 100 in
  (is_nan q = true -> is_nan (scrollPercent v) = true) /\
  (is_nan q = false ->
   is_nan (scrollPercent v) = false /\
   PrimFloat.leb 0 (scrollPercent v) = true /\
   PrimFloat.leb (scrollPercent v) 100 = true).
Proof.
  intros q. unfold scrollPercent. fold q. split.
  - intros Hq. unfold Math_max. rewrite Hq, orb_true_r.
    unfold Math_min. change (is_nan nan) with true. rewrite orb_true_r. reflexivity.
  - intros Hq. destruct (Math_max_0 q Hq) as [Hn H0].
    apply Math_min_100; assumption.
Qed.

End ProgressBar.

(** ** The recomputation pass when it completes *)

Lemma highlightSearchTerm_styles (i : nat) (term : string) (w w' : World) (j : nat) :
  highlightSearchTerm i term w = Done w' ->
  style <$> events (page w') !! j = style <$> events (page w) !! j.
Proof.
  unfold highlightSearchTerm.
  destruct (events (page (removeHighlights i w)) !! i) as [e|]; [|discriminate].
  destruct (highlightText (h3 e) term) as [t|x t|]; [|discriminate|discriminate].
  destruct (highlightText (p e) term) as [d|x d|]; [|discriminate|discriminate].
  intros H; injection H as <-. simpl.
  destruct (decide (i = j)) as [->|Hne].
  - rewrite !list_lookup_alter_eq. destruct (events (page w) !! j); reflexivity.
  - rewrite !list_lookup_alter_ne by exact Hne. reflexivity.
Qed.

Lemma filter_event_styles (i : nat) (w w' : World) (j : nat) :
  filter_event i w = Done w' ->
  this w' = this w /\
  style <$> events (page w') !! j
  = if decide (i = j)
    then style_after_pass (this w) i <$> (style <$> events (page w) !! j)
    else style <$> events (page w) !! j.
Proof.
  intros H. split.
  { assert (final (filter_event i w) = Some w') as Hf by (rewrite H; reflexivity).
    apply filter_event_outside in Hf. injection Hf as Hthis _ _ _ _. exact Hthis. }
  revert H. unfold filter_event, style_after_pass.
  destruct (matchesSearch (this w) i) as [ms|]; [|discriminate].
  destruct (matchesFilter (this w) i) as [mf|]; [|discriminate].
  destruct (ms && mf) eqn:Hboth.
  - apply andb_true_iff in Hboth as [-> ->].
    assert (style <$> events (page (showEvent i w)) !! j
            = if decide (i = j)
              then (fun _ => mkStyle "flex" "1" "translateY(0)")
                   <$> (style <$> events (page w) !! j)
              else style <$> events (page w) !! j) as Hshow.
    { simpl. destruct (decide (i = j)) as [->|Hne].
      - rewrite list_lookup_alter_eq. destruct (events (page w) !! j); reflexivity.
      - rewrite list_lookup_alter_ne by exact Hne. reflexivity. }
    destruct (truthy (JStr (currentSearchTerm (this w)))).
    + intros H. apply (highlightSearchTerm_styles _ _ _ _ j) in H.
      rewrite H, Hshow. reflexivity.
    + intros H; injection H as <-. rewrite <- Hshow. simpl.
      destruct (decide (i = j)) as [->|Hne].
      * rewrite !list_lookup_alter_eq. destruct (events (page w) !! j); reflexivity.
      * rewrite !list_lookup_alter_ne by exact Hne. reflexivity.
  - intros H; injection H as <-. simpl.
    assert (forall st,
              match Some ms, Some mf with
              | Some true, Some true => mkStyle "flex" "1" "translateY(0)"
              | _, _ => mkStyle (display st) "0" "translateY(-10px)"
              end = mkStyle (display st) "0" "translateY(-10px)") as Hfade
      by (intros st; destruct ms, mf; try reflexivity; discriminate).
    destruct (decide (i = j)) as [->|Hne].
    + rewrite list_lookup_alter_eq.
      destruct (events (page w) !! j) as [e|]; simpl; [|reflexivity].
      rewrite Hfade. reflexivity.
    + rewrite list_lookup_alter_ne by exact Hne. reflexivity.
Qed.

Lemma forEach_styles (nodes : list nat) (w w' : World) (j : nat) :
  NoDup nodes ->
  forEach filter_event nodes w = Done w' ->
  this w' = this w /\
  style <$> events (page w') !! j
  = if decide (j ∈ nodes)
    then style_after_pass (this w) j <$> (style <$> events (page w) !! j)
    else style <$> events (page w) !! j.
Proof.
  revert w; induction nodes as [|i rest IH]; intros w Hnd; simpl.
  - intros H; injection H as <-. split; [reflexivity|].
    destruct (decide (j ∈ [])) as [Hin|_]; [inversion Hin | reflexivity].
  - apply NoDup_cons in Hnd as [Hi Hnd].
    destruct (filter_event i w) as [x|e x|] eqn:Hx; simpl; try discriminate.
    intros H. destruct (IH x Hnd H) as [Hthis Hst].
    destruct (filter_event_styles i w x j Hx) as [Hthis' Hst'].
    split; [congruence|]. rewrite Hst, Hst', Hthis'.
    destruct (decide (i = j)) as [->|Hne].
    + destruct (decide (j ∈ rest)) as [Hin|_]; [contradiction|].
      destruct (decide (j ∈ j :: rest)) as [_|Hout]; [reflexivity|].
      exfalso. apply Hout. left.
    + destruct (decide (j ∈ rest)) as [Hin|Hout];
        destruct (decide (j ∈ i :: rest)) as [Hin'|Hout']; try reflexivity.
      * exfalso. apply Hout'. right. exact Hin.
      * apply elem_of_cons in Hin' as [->|Hin']; [congruence | contradiction].
Qed.

Lemma forEach_matches (nodes : list nat) (w w' : World) (j : nat) :
  forEach filter_event nodes w = Done w' ->
  j ∈ nodes ->
  exists ms mf : bool,
    matchesSearch (this w) j = Some ms /\ matchesFilter (this w) j = Some mf.
Proof.
  revert w; induction nodes as [|i rest IH]; intros w Hrun Hin.
  - inversion Hin.
  - simpl in Hrun.
    destruct (filter_event i w) as [y|ey y|] eqn:Hy; simpl in Hrun; try discriminate.
    apply elem_of_cons in Hin as [->|Hin].
    + unfold filter_event in Hy.
      destruct (matchesSearch (this w) i) as [ms|]; [|discriminate].
      destruct (matchesFilter (this w) i) as [mf|]; [|discriminate].
      exists ms, mf. auto.
    + destruct (filter_event_styles i w y j Hy) as [Hthis _].
      rewrite <- Hthis. apply (IH y Hrun Hin).
Qed.

(** When the pass returns, every event has the style of its two
    predicates: shown if both hold, faded otherwise. *)
Lemma pass_styles (w w' : World) (j : nat) :
  applyAllFilters_frame w = Done w' ->
  this w' = this w /\
  style <$> events (page w') !! j
  = style_after_pass (this w) j <$> (style <$> events (page w) !! j).
Proof.
  unfold applyAllFilters_frame.
  destruct (forEach _ _ w) as [x|e x|] eqn:Hx; simpl; try discriminate.
  intros H; injection H as <-. simpl.
  destruct (forEach_styles _ w x j (NoDup_seq 0 _) Hx) as [Hthis Hst].
  split; [exact Hthis|]. rewrite Hst.
  destruct (decide (j ∈ seq 0 (length (events (page w))))) as [_|Hout];
    [reflexivity|].
  rewrite elem_of_seq in Hout.
  rewrite (lookup_ge_None_2 (events (page w)) j) by lia. reflexivity.
Qed.

(** X22. When the pass returns, an event is displayed and opaque exactly
    when both predicates hold for it; otherwise its opacity is ['0']. *)
Lemma pass_shows_exactly_matches (w w' : World) (j : nat) (e' : EventNode) :
  applyAllFilters_frame w = Done w' ->
  events (page w') !! j = Some e' ->
  exists ms mf : bool,
    matchesSearch (this w) j = Some ms /\
    matchesFilter (this w) j = Some mf /\
    (ms && mf = true ->
     display (style e') = "flex" /\ opacity (style e') = "1") /\
    (ms && mf = false -> opacity (style e') = "0") /\
    is_visible e' = ms && mf.
Proof.
  intros Hpass He'. destruct (pass_styles w w' j Hpass) as [_ Hst].
  rewrite He' in Hst. simpl in Hst.
  destruct (events (page w) !! j) as [e|] eqn:He; simpl in Hst; [|discriminate].
  injection Hst as Hst.
  assert (exists ms mf, matchesSearch (this w) j = Some ms /\
                        matchesFilter (this w) j = Some mf) as (ms & mf & Hms & Hmf).
  { revert Hpass. unfold applyAllFilters_frame.
    destruct (forEach _ _ w) as [x|ex x|] eqn:Hx; simpl; try discriminate.
    intros _. apply (forEach_matches _ w x j Hx).
    apply elem_of_seq. apply lookup_lt_Some in He. lia. }
  exists ms, mf. split; [exact Hms|]. split; [exact Hmf|].
  unfold style_after_pass in Hst. rewrite Hms, Hmf in Hst.
  unfold is_visible. rewrite Hst.
  destruct ms, mf; simpl; rewrite ?andb_false_r;
    repeat split; try discriminate; reflexivity.
Qed.

(** ** Section visibility once the timers have fired *)

Lemma is_visible_hide_if_faded (e : EventNode) :
  is_visible (hide_if_faded e) = is_visible e.
Proof.
  unfold hide_if_faded, is_visible.
  destruct (String.eqb (opacity (style e)) "0") eqn:Hop;
    [|rewrite ?Hop; reflexivity].
  simpl. rewrite ?Hop. simpl. rewrite andb_false_r. reflexivity.
Qed.

Lemma visibleEvents_hide_if_faded (i : nat) (evs : list EventNode) (s : SectionNode) :
  visibleEvents (alter hide_if_faded i evs) s = visibleEvents evs s.
Proof.
  unfold visibleEvents. apply List.filter_ext. intros j.
  destruct (decide (i = j)) as [->|Hne].
  - rewrite list_lookup_alter_eq. destruct (evs !! j) as [e|]; simpl; [|reflexivity].
    apply is_visible_hide_if_faded.
  - rewrite list_lookup_alter_ne by exact Hne. reflexivity.
Qed.

Lemma updateSectionVisibility_settled (w : World) :
  sections_settled (updateSectionVisibility w).
Proof.
  intros k s. simpl. rewrite list_lookup_fmap.
  destruct (timelineSections (page w) !! k) as [s0|]; simpl; [|discriminate].
  intros H; injection H as <-. unfold update_section, visibleEvents.
  destruct (Nat.eqb _ 0) eqn:Hn; simpl; rewrite Hn; reflexivity.
Qed.

Lemma fire_settled (j : task) (w : World) :
  sections_settled w \/ j = SectionVisibility -> sections_settled (fire j w).
Proof.
  intros [Hw | ->]; [|apply updateSectionVisibility_settled].
  destruct j; simpl; try exact Hw.
  - intros k s Hs. simpl. rewrite visibleEvents_hide_if_faded. apply (Hw k s Hs).
  - apply updateSectionVisibility_settled.
Qed.

Lemma timers_fire (j : task) (w : World) : timers (loop (fire j w)) = timers (loop w).
Proof. destruct j; reflexivity. Qed.

Lemma pop_earliest_spec (ts rest : list Timer) (t : Timer) :
  pop_earliest ts = Some (t, rest) ->
  length ts = S (length rest) /\ forall x, x ∈ ts -> x = t \/ x ∈ rest.
Proof.
  revert t rest; induction ts as [|a ts IH]; intros t rest; simpl; [discriminate|].
  destruct (pop_earliest ts) as [[t' rest']|] eqn:Hp.
  - destruct (IH t' rest' eq_refl) as [Hlen Hin].
    destruct (Nat.ltb (due t') (due a)); intros H; injection H as <- <-.
    + split; [simpl; lia|]. intros x Hx.
      apply elem_of_cons in Hx as [->|Hx].
      * right. left.
      * destruct (Hin x Hx) as [->|Hr]; [left; reflexivity | right; right; exact Hr].
    + split; [reflexivity|]. intros x Hx.
      apply elem_of_cons in Hx as [->|Hx]; [left; reflexivity | right; exact Hx].
  - intros H; injection H as <- <-. split; [reflexivity|]. intros x Hx.
    apply elem_of_cons in Hx as [->|Hx]; [left; reflexivity | right; exact Hx].
Qed.

Lemma pop_earliest_None (ts : list Timer) : pop_earliest ts = None -> ts = [].
Proof.
  destruct ts as [|a ts]; [reflexivity|]. simpl.
  destruct (pop_earliest ts) as [[t' rest']|]; [|discriminate].
  destruct (Nat.ltb _ _); discriminate.
Qed.

Lemma run_timers_settled (n : nat) (w : World) :
  length (timers (loop w)) <= n ->
  sections_settled w \/
  (exists t, t ∈ timers (loop w) /\ job t = SectionVisibility) ->
  sections_settled (run_timers n w) /\ timers (loop (run_timers n w)) = [].
Proof.
  revert w; induction n as [|n IH]; intros w Hlen Hinv.
  - destruct (timers (loop w)) as [|t ts] eqn:Hts; [|simpl in Hlen; lia].
    split; [|exact Hts]. destruct Hinv as [Hw | (t & Hin & _)]; [exact Hw|].
    inversion Hin.
  - simpl. unfold run_timer.
    destruct (pop_earliest (timers (loop w))) as [[t rest]|] eqn:Hpop.
    + destruct (pop_earliest_spec _ _ _ Hpop) as [Hl Hin].
      apply IH.
      * rewrite timers_fire. simpl. lia.
      * assert (job t = SectionVisibility \/ job t <> SectionVisibility)
          as [Hjob|Hjob] by (destruct (job t); auto; right; discriminate).
        -- left. apply fire_settled. right. exact Hjob.
        -- destruct Hinv as [Hw | (t' & Hin' & Hjob')].
           ++ left. apply fire_settled. left. exact Hw.
           ++ right. exists t'. rewrite timers_fire. simpl.
              destruct (Hin t' Hin') as [->|Hr]; [contradiction | auto].
    + apply pop_earliest_None in Hpop. split; [|exact Hpop].
      destruct Hinv as [Hw | (t & Hin & _)]; [exact Hw|].
      rewrite Hpop in Hin. inversion Hin.
Qed.

(** X19. When the pass returns and the pending timers have fired, none is
    left and every section is displayed exactly when one of its events is
    visible. *)
Lemma sections_follow_events_after_pass (w w' : World) :
  applyAllFilters_frame w = Done w' ->
  timers (loop (settle w')) = [] /\
  forall k s, timelineSections (page (settle w')) !! k = Some s ->
    (section_display s <> "none" <->
     exists i e, i ∈ section_events s /\
                 events (page (settle w')) !! i = Some e /\ is_visible e = true).
Proof.
  intros Hpass.
  destruct (run_timers_settled (length (timers (loop w'))) w' (le_n _)) as [Hs Ht].
  { right. revert Hpass. unfold applyAllFilters_frame.
    destruct (forEach _ _ w) as [x|e x|]; simpl; try discriminate.
    intros H; injection H as <-. simpl.
    exists (mkTimer (next_timer (loop x)) (now (loop x) + 200) SectionVisibility).
    split; [|reflexivity]. apply elem_of_app. right. left. }
  fold (settle w') in Hs, Ht.
  split; [exact Ht|]. intros k s Hk. rewrite (Hs k s Hk).
  destruct (visibleEvents _ s) as [|i vis] eqn:Hvis; simpl.
  - split; [intros H; contradiction H; reflexivity|].
    intros (i & e & Hin & He & Hv). exfalso.
    assert (List.In i (visibleEvents (events (page (settle w'))) s)) as Hi.
    { unfold visibleEvents. apply List.filter_In. split.
      - apply list_elem_of_In. exact Hin.
      - rewrite He. exact Hv. }
    rewrite Hvis in Hi. exact Hi.
  - split; [|discriminate]. intros _.
    assert (List.In i (visibleEvents (events (page (settle w'))) s)) as Hi
      by (rewrite Hvis; left; reflexivity).
    unfold visibleEvents in Hi. apply List.filter_In in Hi as [Hin Hv].
    destruct (events (page (settle w')) !! i) as [e|] eqn:He; [|discriminate].
    exists i, e. split; [apply list_elem_of_In; exact Hin|]. auto.
Qed.

(** ** Highlighting plain text with a literal term *)

Lemma string_app_cons (x : ascii) (a b : string) :
  String x a ++ b = String x (a ++ b).
Proof. reflexivity. Qed.

Lemma string_app_assoc (a b c : string) : (a ++ b) ++ c = a ++ b ++ c.
Proof.
  induction a as [|x a IH]; [reflexivity|].
  rewrite !string_app_cons, IH. reflexivity.
Qed.

Lemma string_app_nil_r (a : string) : a ++ "" = a.
Proof.
  induction a as [|x a IH]; [reflexivity|].
  rewrite string_app_cons, IH. reflexivity.
Qed.

Lemma string_length_app (a b : string) :
  String.length (a ++ b) = String.length a + String.length b.
Proof.
  induction a as [|x a IH]; [reflexivity|].
  rewrite string_app_cons. simpl. rewrite IH. reflexivity.
Qed.

Lemma plain_app (a b : string) : plain (a ++ b) = plain a && plain b.
Proof.
  induction a as [|x a IH]; [reflexivity|].
  rewrite string_app_cons. simpl. rewrite IH, andb_assoc. reflexivity.
Qed.

Lemma any_uninterpreted_app (a b : string) :
  any_uninterpreted (a ++ b) = any_uninterpreted a || any_uninterpreted b.
Proof.
  induction a as [|x a IH]; [reflexivity|].
  rewrite string_app_cons. simpl. rewrite IH, orb_assoc. reflexivity.
Qed.

Lemma any_uninterpreted_literal (t : string) :
  literal t = true -> any_uninterpreted t = false.
Proof.
  induction t as [|c t IH]; simpl; [reflexivity|].
  unfold literal_char. rewrite !andb_true_iff, !negb_true_iff.
  intros [[[[Hu _] _] _] Ht]. rewrite Hu, (IH Ht). reflexivity.
Qed.

Lemma parse_literal (t rest : string) (next : nat) (cur : frame) (stack : list frame) :
  literal t = true ->
  parse (t ++ rest) next cur stack
  = parse rest next
      (Frame (fr_group cur) (fr_alts cur)
         (fr_seq cur ++ (RChar <$> list_ascii_of_string t))) stack.
Proof.
  revert cur; induction t as [|c t IH]; intros cur.
  - intros _. simpl. rewrite List.app_nil_r. destruct cur; reflexivity.
  - rewrite string_app_cons. simpl.
    unfold literal_char. rewrite !andb_true_iff, !negb_true_iff.
    intros [[[[_ Ho] Hc] Hb] Ht]. rewrite Ho, Hc, Hb, (IH _ Ht). simpl.
    rewrite <- List.app_assoc. reflexivity.
Qed.

Lemma RegExp_gi_literal (t : string) :
  literal t = true -> RegExp_gi ("(" ++ t ++ ")") = Pattern (literal_pattern t).
Proof.
  intros Ht. unfold RegExp_gi.
  change ("(" ++ t ++ ")") with (String "(" (t ++ ")")).
  assert (any_uninterpreted (String "(" (t ++ ")")) = false) as ->.
  { simpl. rewrite any_uninterpreted_app, (any_uninterpreted_literal t Ht).
    reflexivity. }
  simpl. rewrite (parse_literal t ")" 2 (Frame 1 [] []) [Frame 0 [] []] Ht).
  reflexivity.
Qed.

Lemma matcher_literal (t s : string) (caps : gmap nat string) :
  matcher (seq_of (RChar <$> list_ascii_of_string t)) s caps
  = match strip_ci t s with
    | Some rest => [(rest, caps)]
    | None => []
    end.
Proof.
  revert s; induction t as [|a t IH]; intros s; simpl; [reflexivity|].
  destruct s as [|b s]; simpl; [reflexivity|].
  destruct (Ascii.eqb (canonicalize a) (canonicalize b)); simpl; [|reflexivity].
  rewrite IH, List.app_nil_r. reflexivity.
Qed.

Lemma strip_ci_split (t s rest : string) :
  strip_ci t s = Some rest ->
  exists m, s = m ++ rest /\ String.length m = String.length t.
Proof.
  revert s; induction t as [|a t IH]; intros s; simpl.
  - intros H; injection H as <-. exists "". auto.
  - destruct s as [|b s]; [discriminate|].
    destruct (Ascii.eqb _ _); [|discriminate].
    intros H. destruct (IH s H) as (m & -> & Hlen).
    exists (String b m). rewrite string_app_cons. simpl. auto.
Qed.

Lemma consumed_app (m rest : string) : consumed (m ++ rest) rest = m.
Proof.
  unfold consumed. rewrite string_length_app.
  replace (String.length m + String.length rest - String.length rest)
    with (String.length m) by lia.
  induction m as [|x m IH].
  - destruct rest; reflexivity.
  - rewrite string_app_cons. simpl. rewrite IH. reflexivity.
Qed.

Lemma exec_at_literal (t s : string) :
  exec_at (literal_pattern t) s
  = match strip_ci t s with
    | Some rest =>
        Some (String.length s - String.length rest, {[ 1 := consumed s rest ]})
    | None => None
    end.
Proof.
  unfold exec_at, literal_pattern. simpl. rewrite matcher_literal.
  destruct (strip_ci t s) as [rest|]; reflexivity.
Qed.

Lemma substitute_highlight (m : string) :
  substitute highlight_replacement {[ 1 := m ]} = open_tag ++ m ++ close_tag ++ "".
Proof. reflexivity. Qed.

Lemma replace_from_skip (r : regex) (repl : list piece) (m rest : string) :
  replace_from r repl (String.length m) (m ++ rest) = replace_from r repl 0 rest.
Proof.
  induction m as [|x m IH]; [reflexivity|].
  rewrite string_app_cons. simpl. exact IH.
Qed.

Lemma replace_segments (t : string) (n : nat) (s : string) :
  t <> "" ->
  String.length s <= n ->
  exists segs,
    replace_from (literal_pattern t) highlight_replacement 0 s = render segs /\
    seg_text segs = s.
Proof.
  intros Ht. revert s; induction n as [|n IH]; intros s Hlen.
  - destruct s; [|simpl in Hlen; lia]. exists []. simpl.
    rewrite exec_at_literal. destruct t; [contradiction | auto].
  - destruct s as [|c s'].
    { exists []. simpl. rewrite exec_at_literal. destruct t; [contradiction | auto]. }
    simpl in Hlen. cbn [replace_from]. rewrite exec_at_literal.
    destruct (strip_ci t (String c s')) as [rest|] eqn:Hstrip.
    + destruct (strip_ci_split _ _ _ Hstrip) as (m & Hs & Hm).
      rewrite Hs, consumed_app, string_length_app.
      replace (String.length m + String.length rest - String.length rest)
        with (String.length m) by lia.
      destruct m as [|x m'].
      { destruct t; [contradiction | discriminate]. }
      rewrite string_app_cons in Hs. injection Hs as -> ->.
      cbn [String.length]. rewrite replace_from_skip.
      destruct (IH rest) as (segs & Hr & Htext).
      { rewrite string_length_app in Hlen. lia. }
      exists (Marked (String x m') :: segs). cbn [render seg_text].
      rewrite Hr, Htext, substitute_highlight, !string_app_assoc.
      split; reflexivity.
    + destruct (IH s') as (segs & Hr & Htext); [lia|].
      exists (Copied c :: segs). simpl. rewrite Hr, Htext. auto.
Qed.

Lemma startsWith_head_ne (c a : ascii) (rest p : string) :
  Ascii.eqb a c = false -> startsWith (String c rest) (String a p) = false.
Proof. intros H. simpl. rewrite H. reflexivity. Qed.

Lemma open_tag_head : exists tag, open_tag = String "<" tag.
Proof. eexists. vm_compute. reflexivity. Qed.

Lemma tokenize_plain_char (c : ascii) (rest : string) :
  plain_char c = true ->
  tokenize 0 (String c rest) = cons (TChar c) <$> tokenize 0 rest.
Proof.
  unfold plain_char. rewrite !andb_true_iff, !negb_true_iff.
  intros [[[Hlt Hamp] Hnul] Hcr].
  assert (Ascii.eqb c "<" = false) as Hlt' by (rewrite Ascii.eqb_sym; exact Hlt).
  assert (Ascii.eqb c "&" = false) as Hamp' by (rewrite Ascii.eqb_sym; exact Hamp).
  cbn [tokenize]. destruct open_tag_head as [tag Htag]. rewrite Htag.
  change close_tag with (String "<" "/span>").
  rewrite !startsWith_head_ne by assumption.
  rewrite Hlt', Hamp', Hnul, Hcr. reflexivity.
Qed.

Lemma tokenize_plain (m rest : string) :
  plain m = true ->
  tokenize 0 (m ++ rest)
  = app (TChar <$> list_ascii_of_string m) <$> tokenize 0 rest.
Proof.
  induction m as [|c m IH]; intros Hm.
  - change ("" ++ rest) with rest. destruct (tokenize 0 rest); reflexivity.
  - simpl in Hm. apply andb_true_iff in Hm as [Hc Hm].
    rewrite string_app_cons, (tokenize_plain_char c _ Hc), (IH Hm).
    destruct (tokenize 0 rest); reflexivity.
Qed.

Lemma tokenize_open_tag (rest : string) :
  tokenize 0 (open_tag ++ rest) = cons TOpen <$> tokenize 0 rest.
Proof. reflexivity. Qed.

Lemma tokenize_close_tag (rest : string) :
  tokenize 0 (close_tag ++ rest) = cons TClose <$> tokenize 0 rest.
Proof. reflexivity. Qed.

Lemma plain_seg_text_marked (m : string) (r : list seg) :
  plain (seg_text (Marked m :: r)) = true ->
  plain m = true /\ plain (seg_text r) = true.
Proof. simpl. rewrite plain_app. apply andb_true_iff. Qed.

Lemma tokenize_render (segs : list seg) :
  plain (seg_text segs) = true ->
  tokenize 0 (render segs) = Some (seg_tokens segs).
Proof.
  induction segs as [|[c|m] r IH]; intros Hp.
  - reflexivity.
  - simpl in Hp. apply andb_true_iff in Hp as [Hc Hr]. cbn [render seg_tokens].
    rewrite (tokenize_plain_char c _ Hc), (IH Hr). reflexivity.
  - apply plain_seg_text_marked in Hp as [Hm Hr]. cbn [render seg_tokens].
    rewrite tokenize_open_tag, (tokenize_plain m _ Hm), tokenize_close_tag, (IH Hr).
    reflexivity.
Qed.

Lemma textContent_app (a b : list Node) :
  textContent (a ++ b) = textContent a ++ textContent b.
Proof.
  induction a as [|n a IH]; [reflexivity|].
  simpl. rewrite IH, string_app_assoc. reflexivity.
Qed.

Lemma textContent_flush_text (done : list Node) (d : string) :
  textContent (flush_text done d) = textContent done ++ d.
Proof.
  unfold flush_text. destruct (String.eqb_spec d "") as [->|_].
  - rewrite string_app_nil_r. reflexivity.
  - rewrite textContent_app. simpl. rewrite string_app_nil_r. reflexivity.
Qed.

Lemma build_chars (m : string) (toks : list token) (done : list Node) (cur : building) :
  build ((TChar <$> list_ascii_of_string m) ++ toks) done cur
  = build toks done
      match cur with
      | InText d => InText (d ++ m)
      | InSpan d => InSpan (d ++ m)
      end.
Proof.
  revert cur; induction m as [|c m IH]; intros cur.
  - simpl. destruct cur; rewrite string_app_nil_r; reflexivity.
  - cbn [list_ascii_of_string fmap list_fmap]. rewrite <- app_comm_cons.
    destruct cur as [d|d]; cbn [build]; rewrite IH, string_app_assoc; reflexivity.
Qed.

Lemma build_render (segs : list seg) (done : list Node) (d : string) :
  exists nodes,
    build (seg_tokens segs) done (InText d) = Some nodes /\
    textContent nodes = textContent done ++ d ++ seg_text segs.
Proof.
  revert done d; induction segs as [|[c|m] r IH]; intros done d.
  - exists (flush_text done d). split; [reflexivity|].
    rewrite textContent_flush_text. simpl. rewrite string_app_nil_r. reflexivity.
  - destruct (IH done (d ++ String c "")) as (nodes & Hb & Ht).
    exists nodes. split; [exact Hb|]. rewrite Ht, string_app_assoc. reflexivity.
  - destruct (IH (done ++ [HighlightSpan m])%list "") as (nodes & Hb & Ht).
    destruct (IH (flush_text done d ++ [HighlightSpan m])%list "")
      as (nodes' & Hb' & Ht').
    exists nodes'. split.
    + cbn [seg_tokens]. rewrite <- app_comm_cons. cbn [build].
      rewrite build_chars. cbn [build]. exact Hb'.
    + rewrite Ht', textContent_app, textContent_flush_text. simpl.
      rewrite string_app_nil_r, !string_app_assoc. reflexivity.
Qed.

Lemma textContent_normalize (l : list Node) :
  textContent (normalize l) = textContent l.
Proof.
  induction l as [|[d|d] l IH]; simpl; [reflexivity| |rewrite IH; reflexivity].
  destruct (String.eqb_spec d "") as [->|_]; [exact IH|].
  rewrite <- IH. destruct (normalize l) as [|[d'|d'] l']; simpl;
    rewrite ?string_app_assoc; reflexivity.
Qed.

Lemma textContent_replace_first_highlight (l l' : list Node) :
  replace_first_highlight l = Some l' -> textContent l' = textContent l.
Proof.
  revert l'; induction l as [|[d|d] l IH]; intros l'; simpl; [discriminate| |].
  - destruct (replace_first_highlight l) as [x|]; simpl; [|discriminate].
    intros H; injection H as <-. simpl. rewrite (IH x eq_refl). reflexivity.
  - intros H; injection H as <-. reflexivity.
Qed.

Lemma textContent_removeHighlights_in (l : list Node) :
  textContent (removeHighlights_in l) = textContent l.
Proof.
  unfold removeHighlights_in. generalize (count_highlights l). intros n.
  revert l; induction n as [|n IH]; intros l; simpl; [reflexivity|].
  destruct (replace_first_highlight l) as [l'|] eqn:Hr; [|reflexivity].
  rewrite IH, textContent_normalize.
  apply textContent_replace_first_highlight. exact Hr.
Qed.

(** X20. On an element whose text has no markup character, and for a
    term with no pattern syntax, [highlightText] returns, the element
    reads as before, and so it does once [removeHighlights] has run. *)
Lemma highlight_round_trip_plain (element : list Node) (term : string) :
  plain (textContent element) = true ->
  literal term = true ->
  term <> "" ->
  exists children,
    highlightText element term = Done children /\
    textContent children = textContent element /\
    textContent (removeHighlights_in children) = textContent element.
Proof.
  intros Hplain Hlit Hterm. unfold highlightText.
  rewrite (RegExp_gi_literal term Hlit). unfold replace.
  destruct (replace_segments term _ (textContent element) Hterm (le_n _))
    as (segs & Hr & Htext).
  rewrite Hr. unfold parse_fragment.
  rewrite tokenize_render by (rewrite Htext; exact Hplain). simpl.
  destruct (build_render segs [] "") as (nodes & Hb & Ht).
  rewrite Hb. exists nodes. split; [reflexivity|].
  rewrite textContent_removeHighlights_in, Ht, Htext. auto.
Qed.


(** ** What [removeHighlights] leaves behind *)

Lemma count_highlights_cons (n : Node) (l : list Node) :
  count_highlights (n :: l)
  = (if is_highlight n then 1 else 0) + count_highlights l.
Proof.
  unfold count_highlights. rewrite filter_cons.
  destruct (is_highlight n) eqn:Hn; simpl.
  - destruct (decide (true = true)); [reflexivity | congruence].
  - destruct (decide (false = true)); [discriminate | reflexivity].
Qed.

Lemma count_highlights_normalize (l : list Node) :
  count_highlights (normalize l) = count_highlights l.
Proof.
  induction l as [|[d|d] l IH]; [reflexivity| |].
  - rewrite count_highlights_cons. simpl.
    destruct (String.eqb d ""); [exact IH|].
    rewrite <- IH. destruct (normalize l) as [|[d'|d'] l'];
      rewrite ?count_highlights_cons; reflexivity.
  - simpl. rewrite !count_highlights_cons, IH. reflexivity.
Qed.

Lemma replace_first_highlight_count (l : list Node) :
  match replace_first_highlight l with
  | Some l' => count_highlights l = S (count_highlights l')
  | None => count_highlights l = 0
  end.
Proof.
  induction l as [|[d|d] l IH]; simpl; [reflexivity| |].
  - destruct (replace_first_highlight l) as [l'|]; simpl;
      rewrite !count_highlights_cons; exact IH.
  - rewrite !count_highlights_cons. reflexivity.
Qed.

Lemma normal_normalize (l : list Node) : normal (normalize l) = true.
Proof.
  induction l as [|[d|d] l IH]; simpl; [reflexivity| |exact IH].
  destruct (String.eqb_spec d "") as [->|Hd]; [exact IH|].
  apply String.eqb_neq in Hd.
  destruct (normalize l) as [|[d'|d'] l'] eqn:Hn; simpl.
  - rewrite Hd. reflexivity.
  - assert (String.eqb (d ++ d') "" = false) as ->
      by (destruct d; [discriminate | reflexivity]).
    simpl in IH. apply andb_true_iff in IH as [IH1 IH2].
    apply andb_true_iff in IH1 as [_ IH1]. rewrite IH1, IH2. reflexivity.
  - rewrite Hd. exact IH.
Qed.

(** The loop of [removeHighlights] over the [n] highlights of [l]. *)
Lemma removeHighlights_loop_spec (n : nat) (l : list Node) :
  count_highlights l = n ->
  count_highlights (removeHighlights_loop n l) = 0 /\
  match n with
  | 0 => removeHighlights_loop n l = l
  | S _ => normal (removeHighlights_loop n l) = true
  end.
Proof.
  revert l; induction n as [|n IH]; intros l Hn; [auto|].
  simpl. pose proof (replace_first_highlight_count l) as Hr.
  destruct (replace_first_highlight l) as [l'|]; [|congruence].
  assert (count_highlights (normalize l') = n) as Hn'
    by (rewrite count_highlights_normalize; congruence).
  destruct (IH (normalize l') Hn') as [H0 Hshape]. split; [exact H0|].
  destruct n; [|exact Hshape]. rewrite Hshape. apply normal_normalize.
Qed.

(** X1. Whatever the children of an element are, once the loop of
    [removeHighlights] has run over them no highlight span is left and the
    element reads as before; if there was no highlight the children are
    untouched, and otherwise no text node is empty and no two text nodes
    are adjacent. *)
Theorem removeHighlights_in_clears (l : list Node) :
  count_highlights (removeHighlights_in l) = 0 /\
  textContent (removeHighlights_in l) = textContent l /\
  match count_highlights l with
  | 0 => removeHighlights_in l = l
  | S _ => normal (removeHighlights_in l) = true
  end.
Proof.
  unfold removeHighlights_in.
  destruct (removeHighlights_loop_spec (count_highlights l) l eq_refl) as [H0 Hs].
  split; [exact H0|]. split; [|exact Hs].
  apply textContent_removeHighlights_in.
Qed.

(** ** The events once the timers have fired *)

Lemma fire_event (j : task) (w : World) (i : nat) :
  events (page (fire j w)) !! i
  = (if decide (j = HideIfFaded i) then hide_if_faded else id)
      <$> events (page w) !! i.
Proof.
  destruct (decide (j = HideIfFaded i)) as [->|H].
  - apply list_lookup_alter_eq.
  - destruct j as [| |k|]; simpl.
    + destruct (events (page w) !! i); reflexivity.
    + destruct (events (page w) !! i); reflexivity.
    + rewrite list_lookup_alter_ne by congruence.
      destruct (events (page w) !! i); reflexivity.
    + destruct (events (page w) !! i); reflexivity.
Qed.

Lemma this_fire (j : task) (w : World) : this (fire j w) = this w.
Proof. destruct j; reflexivity. Qed.

(** Firing timers leaves an event as it is but for its [display], which
    becomes ['none'] when the event is faded and a timer of [hideEvent] is
    pending for it. *)
Lemma run_timers_event (n : nat) (w : World) (i : nat) (e : EventNode) :
  length (timers (loop w)) <= n ->
  events (page w) !! i = Some e ->
  exists e',
    events (page (run_timers n w)) !! i = Some e' /\
    h3 e' = h3 e /\ p e' = p e /\
    opacity (style e') = opacity (style e) /\
    transform (style e') = transform (style e) /\
    (opacity (style e) <> "0" -> display (style e') = display (style e)) /\
    (opacity (style e) = "0" ->
     display (style e) = "none" \/
     (exists t, t ∈ timers (loop w) /\ job t = HideIfFaded i) ->
     display (style e') = "none").
Proof.
  revert w e; induction n as [|n IH]; intros w e Hlen He.
  - exists e. simpl. repeat split; auto.
    intros _ [Hd | (t & Hin & _)]; [exact Hd|].
    destruct (timers (loop w)); [inversion Hin | simpl in Hlen; lia].
  - simpl. unfold run_timer.
    destruct (pop_earliest (timers (loop w))) as [[t rest]|] eqn:Hpop.
    + destruct (pop_earliest_spec _ _ _ Hpop) as [Hl Hin].
      set (w0 := with_loop _ w).
      assert (events (page (fire (job t) w0)) !! i
              = Some ((if decide (job t = HideIfFaded i)
                       then hide_if_faded else id) e)) as He1
        by (rewrite fire_event; subst w0; simpl; rewrite He; reflexivity).
      assert (length (timers (loop (fire (job t) w0))) <= n) as Hlen1
        by (rewrite timers_fire; subst w0; simpl; lia).
      destruct (IH (fire (job t) w0) _ Hlen1 He1)
        as (e' & He' & Hh & Hp & Hop & Htr & Hkeep & Hhide).
      exists e'. split; [exact He'|].
      assert (forall x, h3 (hide_if_faded x) = h3 x /\ p (hide_if_faded x) = p x /\
                opacity (style (hide_if_faded x)) = opacity (style x) /\
                transform (style (hide_if_faded x)) = transform (style x)) as Hsame
        by (intros x; unfold hide_if_faded;
            destruct (String.eqb (opacity (style x)) "0"); repeat split).
      destruct (decide (job t = HideIfFaded i)) as [Hjob|Hjob].
      * destruct (Hsame e) as (E1 & E2 & E3 & E4).
        rewrite Hh, Hp, Hop, Htr, E1, E2, E3, E4. repeat split.
        -- intros Hne. rewrite Hkeep by (rewrite E3; exact Hne).
           unfold hide_if_faded. apply String.eqb_neq in Hne. rewrite Hne.
           reflexivity.
        -- intros H0 _. apply Hhide; [rewrite E3; exact H0|]. left.
           unfold hide_if_faded. rewrite H0. reflexivity.
      * simpl in *. repeat split; auto.
        intros H0 [Hd | (t' & Hin' & Hjob')]; apply Hhide; auto.
        right. exists t'. rewrite timers_fire. subst w0. simpl.
        destruct (Hin t' Hin') as [->|Hr]; [contradiction | auto].
    + exists e. repeat split; auto.
      intros _ [Hd | (t & Hin & _)]; [exact Hd|].
      apply pop_earliest_None in Hpop. rewrite Hpop in Hin. inversion Hin.
Qed.

Lemma run_timers_length (n : nat) (w : World) :
  length (events (page (run_timers n w))) = length (events (page w)).
Proof.
  revert w; induction n as [|n IH]; intros w; [reflexivity|].
  simpl. unfold run_timer.
  destruct (pop_earliest _) as [[t rest]|]; [|reflexivity].
  rewrite IH. destruct (job t); simpl; try reflexivity. apply length_alter.
Qed.

Lemma highlightSearchTerm_loop (i : nat) (term : string) (w w' : World) :
  final (highlightSearchTerm i term w) = Some w' -> loop w' = loop w.
Proof.
  unfold highlightSearchTerm.
  destruct (events (page (removeHighlights i w)) !! i) as [e|]; [|discriminate].
  destruct (highlightText (h3 e) term) as [t|x t|]; [| |discriminate].
  - destruct (highlightText (p e) term) as [d|x d|]; [| |discriminate];
      simpl; intros H; injection H as <-; reflexivity.
  - simpl; intros H; injection H as <-; reflexivity.
Qed.

(** What one event adds to the pending timers: nothing if it is shown, the
    timer of [hideEvent] if it is hidden. *)
Lemma filter_event_timers (i : nat) (w w' : World) :
  filter_event i w = Done w' ->
  exists added,
    timers (loop w') = (timers (loop w) ++ added)%list /\
    ((matchesSearch (this w) i, matchesFilter (this w) i) <> (Some true, Some true) ->
     exists t, t ∈ added /\ job t = HideIfFaded i).
Proof.
  unfold filter_event.
  destruct (matchesSearch (this w) i) as [ms|]; [|discriminate].
  destruct (matchesFilter (this w) i) as [mf|]; [|discriminate].
  destruct (ms && mf) eqn:Hboth.
  - apply andb_true_iff in Hboth as [-> ->]. intros H. exists [].
    rewrite List.app_nil_r. split; [|congruence].
    destruct (truthy (JStr (currentSearchTerm (this w)))).
    + assert (final (highlightSearchTerm i (currentSearchTerm (this w))
                       (showEvent i w)) = Some w') as Hf
        by (rewrite H; reflexivity).
      apply highlightSearchTerm_loop in Hf. rewrite Hf. reflexivity.
    + injection H as <-. reflexivity.
  - intros H; injection H as <-. simpl. eexists; split; [reflexivity|].
    intros _. eexists; split; [left | reflexivity].
Qed.

Lemma forEach_timers (nodes : list nat) (w w' : World) (i : nat) :
  forEach filter_event nodes w = Done w' ->
  exists added,
    timers (loop w') = (timers (loop w) ++ added)%list /\
    (i ∈ nodes ->
     (matchesSearch (this w) i, matchesFilter (this w) i) <> (Some true, Some true) ->
     exists t, t ∈ added /\ job t = HideIfFaded i).
Proof.
  revert w; induction nodes as [|k rest IH]; intros w; simpl.
  - intros H; injection H as <-. exists []. rewrite List.app_nil_r.
    split; [reflexivity|]. intros Hin. inversion Hin.
  - destruct (filter_event k w) as [x|e x|] eqn:Hk; simpl; try discriminate.
    intros H. destruct (IH x H) as (added2 & Ht2 & Hhide2).
    destruct (filter_event_timers k w x Hk) as (added1 & Ht1 & Hhide1).
    destruct (filter_event_styles k w x i Hk) as [Hthis _].
    exists (added1 ++ added2)%list. split.
    + rewrite Ht2, Ht1, List.app_assoc. reflexivity.
    + intros Hin Hne. apply elem_of_cons in Hin as [->|Hin].
      * destruct (Hhide1 Hne) as (t & Hin1 & Hjob). exists t.
        split; [apply elem_of_app; left; exact Hin1 | exact Hjob].
      * rewrite Hthis in Hhide2. destruct (Hhide2 Hin Hne) as (t & Hin2 & Hjob).
        exists t. split; [apply elem_of_app; right; exact Hin2 | exact Hjob].
Qed.

(** X2. When the pass returns and the pending timers, its own and those
    left by earlier passes, have fired, every event is in one of two
    states: displayed and opaque if both predicates hold for it, not
    displayed and transparent otherwise. *)
Theorem pass_settles_events (w w' : World) (j : nat) (e' : EventNode) :
  applyAllFilters_frame w = Done w' ->
  events (page (settle w')) !! j = Some e' ->
  exists ms mf : bool,
    matchesSearch (this w) j = Some ms /\
    matchesFilter (this w) j = Some mf /\
    (ms && mf = true ->
     display (style e') = "flex" /\ opacity (style e') = "1") /\
    (ms && mf = false ->
     display (style e') = "none" /\ opacity (style e') = "0").
Proof.
  intros Hpass He'.
  assert (j < length (events (page w'))) as Hj.
  { apply lookup_lt_Some in He'. unfold settle in He'.
    rewrite run_timers_length in He'. exact He'. }
  destruct (lookup_lt_is_Some_2 _ _ Hj) as [e1 He1].
  destruct (run_timers_event (length (timers (loop w'))) w' j e1 (le_n _) He1)
    as (e2 & He2 & _ & _ & Hop & _ & Hkeep & Hhide).
  fold (settle w') in He2. rewrite He' in He2. injection He2 as <-.
  destruct (pass_styles w w' j Hpass) as [_ Hst]. rewrite He1 in Hst. simpl in Hst.
  destruct (events (page w) !! j) as [e|] eqn:He; simpl in Hst; [|discriminate].
  injection Hst as Hst.
  revert Hpass. unfold applyAllFilters_frame.
  destruct (forEach _ _ w) as [x|ex x|] eqn:Hx; simpl; try discriminate.
  intros H; injection H as <-.
  assert (j ∈ seq 0 (length (events (page w)))) as Hin
    by (apply elem_of_seq; apply lookup_lt_Some in He; lia).
  destruct (forEach_matches _ w x j Hx Hin) as (ms & mf & Hms & Hmf).
  destruct (forEach_timers _ w x j Hx) as (added & Ht & Hadded).
  exists ms, mf. split; [exact Hms|]. split; [exact Hmf|].
  unfold style_after_pass in Hst. rewrite Hms, Hmf in Hst, Hadded.
  destruct ms, mf; simpl; (split; [intros Hb | intros Hb]); try discriminate.
  1: { rewrite Hkeep, Hop, Hst by (rewrite Hst; discriminate). auto. }
  all: rewrite Hop, Hst; split; [|reflexivity];
    apply Hhide; [rewrite Hst; reflexivity|]; right;
    destruct (Hadded Hin ltac:(discriminate)) as (t & Hint & Hjob);
    exists t; split; [|exact Hjob]; simpl; rewrite Ht;
    apply elem_of_app; left; apply elem_of_app; right; exact Hint.
Qed.

Lemma pass_settles_events_witness :
  applyAllFilters_frame term_2021 = Done pass_2021 /\
  events (page (settle pass_2021)) !! 1
  = Some (set_style (mkStyle "none" "0" "translateY(-10px)") seed_round) /\
  exists ms mf : bool,
    matchesSearch (this term_2021) 1 = Some ms /\
    matchesFilter (this term_2021) 1 = Some mf /\
    (ms && mf = true ->
     display (style (set_style (mkStyle "none" "0" "translateY(-10px)") seed_round))
     = "flex" /\
     opacity (style (set_style (mkStyle "none" "0" "translateY(-10px)") seed_round))
     = "1") /\
    (ms && mf = false ->
     display (style (set_style (mkStyle "none" "0" "translateY(-10px)") seed_round))
     = "none" /\
     opacity (style (set_style (mkStyle "none" "0" "translateY(-10px)") seed_round))
     = "0").
Proof.
  assert (applyAllFilters_frame term_2021 = Done pass_2021) as Hpass
    by (vm_compute; reflexivity).
  assert (events (page (settle pass_2021)) !! 1
          = Some (set_style (mkStyle "none" "0" "translateY(-10px)") seed_round))
    as Hev by (vm_compute; reflexivity).
  split; [exact Hpass|]. split; [exact Hev|].
  exact (pass_settles_events term_2021 pass_2021 1 _ Hpass Hev).
Defined.

(** ** The pass after the clear button *)


(** With no term and the filter ['all'] the body of the loop returns
    without reading the cache. *)
Lemma filter_event_unfiltered (i : nat) (w : World) :
  currentSearchTerm (this w) = "" ->
  currentFilter (this w) = "all" ->
  filter_event i w = Done (with_page (map_events (alter shown_plain i)) w).
Proof.
  intros Hterm Hall. unfold filter_event, matchesSearch, matchesFilter.
  rewrite Hterm, Hall. simpl. unfold removeHighlights, showEvent, with_page. simpl.
  unfold map_events. simpl. rewrite list_alter_alter_eq. reflexivity.
Qed.

Lemma forEach_unfiltered (nodes : list nat) (w : World) :
  currentSearchTerm (this w) = "" ->
  currentFilter (this w) = "all" ->
  NoDup nodes ->
  exists w',
    forEach filter_event nodes w = Done w' /\
    this w' = this w /\ loop w' = loop w /\
    forall j, events (page w') !! j
              = (if decide (j ∈ nodes) then shown_plain else id)
                  <$> events (page w) !! j.
Proof.
  revert w; induction nodes as [|i rest IH]; intros w Hterm Hall Hnd.
  - exists w. simpl. repeat split; auto. intros j.
    destruct (decide (j ∈ [])) as [Hin|_]; [inversion Hin|].
    destruct (events (page w) !! j); reflexivity.
  - apply NoDup_cons in Hnd as [Hi Hnd]. simpl.
    rewrite (filter_event_unfiltered i w Hterm Hall). simpl.
    destruct (IH (with_page (map_events (alter shown_plain i)) w) Hterm Hall Hnd)
      as (w' & Hrun & Hthis & Hloop & Hev).
    exists w'. split; [exact Hrun|]. split; [exact Hthis|]. split; [exact Hloop|].
    intros j. rewrite Hev. simpl.
    destruct (decide (i = j)) as [->|Hne].
    + rewrite list_lookup_alter_eq.
      destruct (decide (j ∈ rest)) as [Hin|_]; [contradiction|].
      destruct (decide (j ∈ j :: rest)) as [_|Hout];
        [|exfalso; apply Hout; left].
      destruct (events (page w) !! j); reflexivity.
    + rewrite list_lookup_alter_ne by exact Hne.
      destruct (decide (j ∈ rest)) as [Hin|Hout];
        destruct (decide (j ∈ i :: rest)) as [Hin'|Hout']; try reflexivity.
      * exfalso. apply Hout'. right. exact Hin.
      * apply elem_of_cons in Hin' as [->|Hin']; [congruence | contradiction].
Qed.

Lemma pass_unfiltered (w : World) :
  currentSearchTerm (this w) = "" ->
  currentFilter (this w) = "all" ->
  exists w',
    applyAllFilters_frame w = Done w' /\
    forall j, events (page w') !! j = shown_plain <$> events (page w) !! j.
Proof.
  intros Hterm Hall. unfold applyAllFilters_frame.
  destruct (forEach_unfiltered (seq 0 (length (events (page w)))) w Hterm Hall
              (NoDup_seq 0 _)) as (x & Hrun & _ & _ & Hev).
  rewrite Hrun. simpl. eexists. split; [reflexivity|]. intros j. simpl.
  rewrite Hev. destruct (decide (j ∈ seq 0 (length (events (page w))))) as [_|Hout];
    [reflexivity|].
  rewrite elem_of_seq in Hout.
  rewrite (lookup_ge_None_2 (events (page w)) j) by lia. reflexivity.
Qed.

(** X3. When the clear listener returns, the pass it requested returns
    too, whatever the cache holds, and once the pending timers have fired
    every event is displayed and opaque, holds no highlight span, and its
    title and description read as before the click. *)
Theorem clear_shows_every_event (w w1 : World) (j : nat) (e : EventNode) :
  clearButton_click w = Done w1 ->
  events (page w) !! j = Some e ->
  exists w2 e',
    run_frame w1 = Some (Done w2) /\
    events (page (settle w2)) !! j = Some e' /\
    display (style e') = "flex" /\ opacity (style e') = "1" /\
    count_highlights (h3 e') = 0 /\ count_highlights (p e') = 0 /\
    textContent (h3 e') = textContent (h3 e) /\
    textContent (p e') = textContent (p e).
Proof.
  unfold clearButton_click, resetAllButtons.
  destruct (querySelector_data_filter _ _) as [k|]; simpl; [|discriminate].
  intros H He; injection H as <-. unfold run_frame. simpl.
  match goal with |- context [applyAllFilters_frame ?x] => set (w0 := x) end.
  destruct (pass_unfiltered w0 eq_refl eq_refl) as (w2 & Hpass & Hev).
  specialize (Hev j). subst w0. simpl in Hev. rewrite He in Hev. simpl in Hev.
  destruct (run_timers_event (length (timers (loop w2))) w2 j _ (le_n _) Hev)
    as (e' & He' & Hh & Hp & Hop & _ & Hkeep & _).
  exists w2, e'. split; [rewrite Hpass; reflexivity|].
  split; [exact He'|]. rewrite Hkeep by (simpl; discriminate).
  rewrite Hop, Hh, Hp. simpl. rewrite !textContent_removeHighlights_in.
  destruct (removeHighlights_loop_spec _ (h3 e) eq_refl) as [H3 _].
  destruct (removeHighlights_loop_spec _ (p e) eq_refl) as [Hp' _].
  repeat split; auto.
Qed.

Lemma clear_shows_every_event_witness :
  let w := settle pass_2021 in
  let w1 := default w (final (clearButton_click w)) in
  let hidden := set_style (mkStyle "none" "0" "translateY(-10px)") seed_round in
  clearButton_click w = Done w1 /\
  events (page w) !! 1 = Some hidden /\
  exists w2 e',
    run_frame w1 = Some (Done w2) /\
    events (page (settle w2)) !! 1 = Some e' /\
    display (style e') = "flex" /\ opacity (style e') = "1" /\
    count_highlights (h3 e') = 0 /\ count_highlights (p e') = 0 /\
    textContent (h3 e') = textContent (h3 hidden) /\
    textContent (p e') = textContent (p hidden).
Proof.
  intros w w1 hidden.
  assert (clearButton_click w = Done w1) as Hclear by (vm_compute; reflexivity).
  assert (events (page w) !! 1 = Some hidden) as Hev by (vm_compute; reflexivity).
  split; [exact Hclear|]. split; [exact Hev|].
  exact (clear_shows_every_event w w1 1 hidden Hclear Hev).
Defined.

(** ** The cache in every state the page reaches *)












(** ** The active mark of the buttons *)

Lemma querySelector_remove_active (code : string) (cls : control_class)
    (cs : list Control) :
  querySelector_data_filter code (remove_active cls cs)
  = querySelector_data_filter code cs.
Proof.
  unfold querySelector_data_filter, remove_active.
  rewrite list_find_fmap.
  rewrite (list_find_ext _ (fun c => data_filter c = Some code)).
  - destruct (list_find _ cs) as [[i c]|]; reflexivity.
  - intros c. simpl. destruct (control_class_of c), cls; reflexivity.
Qed.

Lemma querySelector_found (code : string) (cs : list Control) (i : nat) :
  querySelector_data_filter code cs = Some i ->
  exists c, cs !! i = Some c /\ data_filter c = Some code.
Proof.
  unfold querySelector_data_filter.
  destruct (list_find _ cs) as [[k c]|] eqn:Hfind; simpl; [|discriminate].
  intros H; injection H as ->. apply list_find_Some in Hfind as (Hc & Hd & _).
  exists c. split; assumption.
Qed.

Lemma activate_after_remove (cls : control_class) (code : string) (w w' : World)
    (j : nat) (c' : Control) :
  cls <> OtherElement ->
  activate_found code (with_page (map_controls (remove_active cls)) w) = Done w' ->
  controls (page w') !! j = Some c' ->
  control_class_of c' = cls ->
  (active c' = true <-> querySelector_data_filter code (controls (page w)) = Some j) /\
  (active c' = true -> data_filter c' = Some code).
Proof.
  intros Hcls. unfold activate_found. destruct (selector_safe code); [|discriminate].
  simpl. rewrite querySelector_remove_active.
  destruct (querySelector_data_filter code (controls (page w))) as [i|] eqn:Hq;
    intros H; injection H as <-; simpl; intros Hj Hc.
  - destruct (decide (j = i)) as [->|Hne].
    + rewrite list_lookup_alter_eq in Hj.
      destruct (remove_active cls (controls (page w)) !! i) as [c1|] eqn:Hc1;
        simpl in Hj; [|discriminate].
      injection Hj as <-. simpl. split; [split; reflexivity|]. intros _.
      apply lookup_remove_active in Hc1 as (c0 & Hc0 & _ & -> & _).
      apply querySelector_found in Hq as (c & Hc' & Hd). congruence.
    + rewrite list_lookup_alter_ne in Hj by congruence.
      apply lookup_remove_active in Hj as (c0 & _ & Hcl & _ & _ & Hoff & _).
      rewrite Hoff by congruence.
      split; [split; [discriminate | congruence] | discriminate].
  - apply lookup_remove_active in Hj as (c0 & _ & Hcl & _ & _ & Hoff & _).
    rewrite Hoff by congruence.
    split; [split; discriminate | discriminate].
Qed.

(** X5. When [updateFilterButtons] returns, a filter button is active
    exactly when it is the first element of the page whose [data-filter]
    is the current filter, so at most one is and none is if no element
    carries the code; [updateSubcategoryButtons] does the same for the
    subcategory buttons with the current subcategory written as a string,
    ['null'] when there is none. *)
Theorem update_buttons_mark_current
    (w w' : World) (cls : control_class) (code : string) (j : nat) (c' : Control) :
  cls = FilterBtn /\ code = currentFilter (this w) /\
    updateFilterButtons w = Done w'
  \/ cls = SubcategoryBtn /\ code = template (currentSubcategory (this w)) /\
    updateSubcategoryButtons w = Done w' ->
  controls (page w') !! j = Some c' ->
  control_class_of c' = cls ->
  (active c' = true <-> querySelector_data_filter code (controls (page w)) = Some j) /\
  (active c' = true -> data_filter c' = Some code).
Proof.
  intros [(-> & -> & Hrun) | (-> & -> & Hrun)];
    apply (activate_after_remove _ _ w w' j c'); try discriminate; exact Hrun.
Qed.

Lemma update_buttons_mark_current_witness :
  let w' := default angel_selected (final (updateSubcategoryButtons angel_selected)) in
  let angel := mkControl SubcategoryBtn (Some "angel") (Some "founder-subcategories") true in
  (SubcategoryBtn = FilterBtn /\ "angel" = currentFilter (this angel_selected) /\
     updateFilterButtons angel_selected = Done w'
   \/ SubcategoryBtn = SubcategoryBtn /\
     "angel" = template (currentSubcategory (this angel_selected)) /\
     updateSubcategoryButtons angel_selected = Done w') /\
  controls (page w') !! 4 = Some angel /\
  (active angel = true
   <-> querySelector_data_filter "angel" (controls (page angel_selected)) = Some 4) /\
  (active angel = true -> data_filter angel = Some "angel").
Proof.
  intros w' angel.
  assert (SubcategoryBtn = FilterBtn /\ "angel" = currentFilter (this angel_selected) /\
            updateFilterButtons angel_selected = Done w'
          \/ SubcategoryBtn = SubcategoryBtn /\
            "angel" = template (currentSubcategory (this angel_selected)) /\
            updateSubcategoryButtons angel_selected = Done w') as Hrun
    by (right; split; [reflexivity|]; split; vm_compute; reflexivity).
  assert (controls (page w') !! 4 = Some angel) as Hc by (vm_compute; reflexivity).
  split; [exact Hrun|]. split; [exact Hc|].
  exact (update_buttons_mark_current angel_selected w' SubcategoryBtn "angel" 4 angel
           Hrun Hc eq_refl).
Defined.

(** ** The debounced closures *)

Lemma tidy_add (ds df ds' df' : option nat) (l : Loop) (j : task) (wait : nat) :
  tidy (ds, df, l) ->
  (forall t, t ∈ timers l -> job t = LaterSearch -> ds' = Some (timer_id t)) ->
  (forall t, t ∈ timers l -> job t = LaterFilter -> df' = Some (timer_id t)) ->
  (j = LaterSearch -> ds' = Some (next_timer l)) ->
  (j = LaterFilter -> df' = Some (next_timer l)) ->
  tidy (ds', df', snd (setTimeout j wait l)).
Proof.
  intros (Hnd & Hlt & _ & _) Hds Hdf Hs Hf. simpl.
  split; [|split; [|split]].
  - rewrite fmap_app. apply NoDup_app. split; [exact Hnd|]. split.
    + intros x Hx Hx'. simpl in Hx'. apply list_elem_of_singleton in Hx' as ->.
      apply list_elem_of_fmap in Hx as (t & Hid & Ht). apply Hlt in Ht. lia.
    + simpl. apply NoDup_singleton.
  - intros t Ht. apply elem_of_app in Ht as [Ht|Ht].
    + apply Hlt in Ht. lia.
    + apply list_elem_of_singleton in Ht as ->. simpl. lia.
  - intros t Ht Hj. apply elem_of_app in Ht as [Ht|Ht]; [auto|].
    apply list_elem_of_singleton in Ht as ->. auto.
  - intros t Ht Hj. apply elem_of_app in Ht as [Ht|Ht]; [auto|].
    apply list_elem_of_singleton in Ht as ->. auto.
Qed.

Lemma tidy_setTimeout (ds df : option nat) (l : Loop) (j : task) (wait : nat) :
  j <> LaterSearch -> j <> LaterFilter ->
  tidy (ds, df, l) -> tidy (ds, df, snd (setTimeout j wait l)).
Proof.
  intros Hs Hf H. apply (tidy_add ds df); try contradiction; auto; apply H.
Qed.

Lemma tidy_clearTimeout (ds df id : option nat) (l : Loop) :
  tidy (ds, df, l) -> tidy (ds, df, clearTimeout id l).
Proof.
  destruct id as [i|]; [|auto]. intros (Hnd & Hlt & Hds & Hdf). simpl.
  assert (forall t, t ∈ filter (fun t => timer_id t ≠ i) (timers l) -> t ∈ timers l)
    as Hsub by (intros t Ht; apply list_elem_of_filter in Ht as [_ Ht]; exact Ht).
  split; [|split; [|split]]; auto.
  apply (sublist_NoDup _ _ Hnd). apply fmap_sublist, sublist_filter.
Qed.

Lemma tidy_cleared (ds df : option nat) (l : Loop) (t : Timer) :
  tidy (ds, df, l) ->
  (t ∈ timers (clearTimeout ds l) -> job t <> LaterSearch) /\
  (t ∈ timers (clearTimeout df l) -> job t <> LaterFilter).
Proof.
  intros (_ & _ & Hds & Hdf). split.
  - destruct ds as [i|]; simpl; intros Ht Hj.
    + apply list_elem_of_filter in Ht as [Hne Ht].
      specialize (Hds t Ht Hj). congruence.
    + specialize (Hds t Ht Hj). discriminate.
  - destruct df as [i|]; simpl; intros Ht Hj.
    + apply list_elem_of_filter in Ht as [Hne Ht].
      specialize (Hdf t Ht Hj). congruence.
    + specialize (Hdf t Ht Hj). discriminate.
Qed.

Lemma tidy_debouncedSearch (w : World) :
  tidy (timing w) -> tidy (timing (debouncedSearch w)).
Proof.
  unfold timing, debouncedSearch. simpl. intros H.
  pose proof (tidy_clearTimeout _ _ (debouncedSearch_timeout (this w)) _ H) as Hc.
  apply (tidy_add _ _ _ _ _ _ _ Hc); try discriminate; auto.
  - intros t Ht Hj. exfalso.
    apply (proj1 (tidy_cleared _ _ _ t H)); assumption.
  - apply Hc.
Qed.

Lemma tidy_debouncedFilter (w : World) :
  tidy (timing w) -> tidy (timing (debouncedFilter w)).
Proof.
  unfold timing, debouncedFilter. simpl. intros H.
  pose proof (tidy_clearTimeout _ _ (debouncedFilter_timeout (this w)) _ H) as Hc.
  apply (tidy_add _ _ _ _ _ _ _ Hc); try discriminate; auto.
  - apply Hc.
  - intros t Ht Hj. exfalso.
    apply (proj2 (tidy_cleared _ _ _ t H)); assumption.
Qed.

Lemma tidy_same_timers (ds df : option nat) (l l' : Loop) :
  timers l' = timers l -> next_timer l' = next_timer l ->
  tidy (ds, df, l) -> tidy (ds, df, l').
Proof. unfold tidy. intros -> ->. auto. Qed.

Lemma pop_earliest_perm (ts rest : list Timer) (t : Timer) :
  pop_earliest ts = Some (t, rest) -> ts ≡ₚ t :: rest.
Proof.
  revert t rest; induction ts as [|a ts IH]; intros t rest; simpl; [discriminate|].
  destruct (pop_earliest ts) as [[t' rest']|].
  - destruct (Nat.ltb (due t') (due a)); intros H; injection H as <- <-.
    + rewrite (IH t' rest' eq_refl). apply Permutation_swap.
    + reflexivity.
  - intros H; injection H as <- <-. reflexivity.
Qed.

Lemma tidy_pop (ds df : option nat) (l : Loop) (t : Timer) (rest : list Timer)
    (n f : nat) :
  pop_earliest (timers l) = Some (t, rest) ->
  tidy (ds, df, l) ->
  tidy (ds, df, mkLoop n (next_timer l) rest f) /\
  timer_id t ∉ timer_id <$> rest.
Proof.
  intros Hpop (Hnd & Hlt & Hds & Hdf). apply pop_earliest_perm in Hpop.
  rewrite Hpop in Hnd. simpl in Hnd. apply NoDup_cons in Hnd as [Hout Hnd].
  assert (forall x, x ∈ rest -> x ∈ timers l) as Hsub
    by (intros x Hx; rewrite Hpop; right; exact Hx).
  split; [|exact Hout]. simpl. split; [exact Hnd|]. split; [|split]; auto.
Qed.

Lemma timing_activate_found (code : string) (w w' : World) :
  final (activate_found code w) = Some w' -> timing w' = timing w.
Proof.
  intros H. apply activate_found_state in H as (_ & _ & Hl & Ht).
  unfold timing. rewrite Hl, Ht. reflexivity.
Qed.

Lemma finish_filter_tidy (w w' : World) :
  final (updateFilterButtons w >>> fun x => Done (debouncedFilter x)) = Some w' ->
  tidy (timing w) -> tidy (timing w').
Proof.
  unfold updateFilterButtons. intros H Hw.
  apply final_and_then in H as [(x & Hx & ->) | (e & Hx)];
    apply (f_equal final) in Hx; simpl in Hx; apply timing_activate_found in Hx.
  - apply tidy_debouncedFilter. rewrite Hx. exact Hw.
  - rewrite Hx. exact Hw.
Qed.

Lemma finish_subcategory_tidy (w w' : World) :
  final (updateSubcategoryButtons w >>> fun x => Done (debouncedFilter x)) = Some w' ->
  tidy (timing w) -> tidy (timing w').
Proof.
  unfold updateSubcategoryButtons. intros H Hw.
  apply final_and_then in H as [(x & Hx & ->) | (e & Hx)];
    apply (f_equal final) in Hx; simpl in Hx; apply timing_activate_found in Hx.
  - apply tidy_debouncedFilter. rewrite Hx. exact Hw.
  - rewrite Hx. exact Hw.
Qed.

Lemma filterButton_click_tidy (filter : jsval) (w w' : World) :
  final (filterButton_click filter w) = Some w' ->
  tidy (timing w) -> tidy (timing w').
Proof.
  assert (forall w0, timing w0 = timing w ->
            final (updateFilterButtons w0 >>> fun x => Done (debouncedFilter x))
            = Some w' ->
            tidy (timing w) -> tidy (timing w')) as Hfinish
    by (intros w0 <- H; apply (finish_filter_tidy _ _ H)).
  unfold filterButton_click.
  destruct filter as [| |f]; try (apply Hfinish; reflexivity).
  destruct (String.eqb f "all"); [apply Hfinish; reflexivity|].
  destruct (String.eqb f "founder" || String.eqb f "regulation");
    [|apply Hfinish; reflexivity].
  destruct (String.eqb (currentFilter (this w)) f); [|apply Hfinish; reflexivity].
  unfold toggle_subcategories.
  destruct (pickers (page w) !! subcategories_id f) as [[|]|].
  - intros H Hw. apply (finish_subcategory_tidy _ _ H). exact Hw.
  - simpl. intros H; injection H as <-.
    apply (tidy_debouncedFilter (show_picker (subcategories_id f) w)).
  - simpl. intros H; injection H as <-. auto.
Qed.

Lemma filter_event_tidy (i : nat) (w w' : World) :
  final (filter_event i w) = Some w' -> tidy (timing w) -> tidy (timing w').
Proof.
  intros H Hw.
  assert (this w' = this w) as Hthis
    by (apply filter_event_outside in H; injection H as H _ _ _ _; exact H).
  revert H. unfold timing. rewrite Hthis. unfold filter_event.
  destruct (matchesSearch (this w) i) as [ms|];
    [|simpl; intros H; injection H as <-; exact Hw].
  destruct (matchesFilter (this w) i) as [mf|];
    [|simpl; intros H; injection H as <-; exact Hw].
  destruct (ms && mf).
  - destruct (truthy (JStr (currentSearchTerm (this w)))).
    + intros H. apply highlightSearchTerm_loop in H. rewrite H. exact Hw.
    + simpl; intros H; injection H as <-; exact Hw.
  - simpl; intros H; injection H as <-. simpl.
    apply tidy_setTimeout; try discriminate. exact Hw.
Qed.

Lemma forEach_tidy (nodes : list nat) (w w' : World) :
  final (forEach filter_event nodes w) = Some w' ->
  tidy (timing w) -> tidy (timing w').
Proof.
  revert w; induction nodes as [|i rest IH]; intros w; simpl.
  - intros H; injection H as <-; auto.
  - destruct (filter_event i w) as [x|e x|] eqn:Hi; simpl; [| |discriminate].
    + intros H Hw. apply (IH x H). apply (filter_event_tidy i w); [|exact Hw].
      rewrite Hi. reflexivity.
    + intros H Hw; injection H as <-. apply (filter_event_tidy i w); [|exact Hw].
      rewrite Hi. reflexivity.
Qed.

Lemma perform_tidy (a : action) (w w' : World) :
  perform a w = Some w' -> tidy (timing w) -> tidy (timing w').
Proof.
  destruct a; simpl.
  - intros H; injection H as <-. unfold searchInput_input. intros Hw.
    apply tidy_debouncedSearch. exact Hw.
  - intros H; injection H as <-. unfold searchInput_keydown.
    destruct (String.eqb key "Enter"); [|auto].
    apply tidy_same_timers; reflexivity.
  - intros H; injection H as <-. apply tidy_same_timers; reflexivity.
  - unfold clearButton_click, resetAllButtons.
    destruct (querySelector_data_filter _ _); simpl; intros H; injection H as <-;
      [apply tidy_same_timers; reflexivity | auto].
  - apply filterButton_click_tidy.
  - destruct (controls (page w) !! button) as [c|]; simpl; [|discriminate].
    destruct (exposed (page w) c); [|discriminate].
    unfold subcategoryButton_click. intros H Hw.
    apply (finish_subcategory_tidy _ _ H). exact Hw.
  - intros H; injection H as <-. destruct in_controls; auto.
  - unfold run_timer.
    destruct (pop_earliest (timers (loop w))) as [[t rest]|] eqn:Hpop; [|discriminate].
    intros H Hw; injection H as <-.
    destruct (tidy_pop _ _ _ t rest (max (now (loop w)) (due t)) (frames (loop w))
                Hpop Hw) as [Ht _].
    destruct (job t); exact Ht.
  - unfold run_frame. destruct (frames (loop w)) as [|k]; simpl; [discriminate|].
    unfold applyAllFilters_frame.
    destruct (forEach _ _ _) as [x|e x|] eqn:Hf; simpl; [| |discriminate];
      intros H Hw; injection H as <-;
      apply (f_equal final) in Hf; simpl in Hf; apply forEach_tidy in Hf;
      try (revert Hw; apply tidy_same_timers; reflexivity).
    + apply tidy_setTimeout; try discriminate. exact Hf.
    + exact Hf.
Qed.

Lemma tidy_reachable (allowed : action -> Prop) (pg : Page) (w : World) :
  reachable allowed pg w -> tidy (timing w).
Proof.
  induction 1 as [|a w w' _ IH _ Hstep].
  - simpl. split; [apply NoDup_nil_2|].
    split; [|split]; intros t Ht; inversion Ht.
  - apply (perform_tidy a w w' Hstep IH).
Qed.

(** X6. In every state the page reaches from its load, at most one timer
    of the debounced search and at most one of the debounced filter is
    pending, however many keystrokes and clicks came before. *)
Theorem debounce_keeps_one_timer
    (allowed : action -> Prop) (pg : Page) (w : World) (i1 i2 : nat) (t1 t2 : Timer) :
  reachable allowed pg w ->
  timers (loop w) !! i1 = Some t1 ->
  timers (loop w) !! i2 = Some t2 ->
  job t1 = job t2 ->
  job t1 = LaterSearch \/ job t1 = LaterFilter ->
  i1 = i2.
Proof.
  intros Hreach H1 H2 Hjob Hlater.
  destruct (tidy_reachable allowed pg w Hreach) as (Hnd & _ & Hds & Hdf).
  assert (timer_id t1 = timer_id t2) as Hid.
  { pose proof (list_elem_of_lookup_2 _ _ _ H1) as Hin1.
    pose proof (list_elem_of_lookup_2 _ _ _ H2) as Hin2.
    destruct Hlater as [Hj|Hj].
    - pose proof (Hds t1 Hin1 Hj) as E1.
      pose proof (Hds t2 Hin2 ltac:(congruence)) as E2. congruence.
    - pose proof (Hdf t1 Hin1 Hj) as E1.
      pose proof (Hdf t2 Hin2 ltac:(congruence)) as E2. congruence. }
  apply (NoDup_lookup _ _ _ (timer_id t1) Hnd);
    rewrite list_lookup_fmap; [rewrite H1 | rewrite H2, Hid]; reflexivity.
Qed.

(** X7. In every state the page reaches from its load, the timer of a
    debounced closure that fires is the one its [timeout] names: the
    [clearTimeout] at the head of [later] finds nothing to cancel, and
    [later] does what [fire] does. *)
Theorem later_cancels_nothing
    (allowed : action -> Prop) (pg : Page) (w : World) (t : Timer)
    (rest : list Timer) :
  reachable allowed pg w ->
  pop_earliest (timers (loop w)) = Some (t, rest) ->
  let w0 :=
    with_loop (fun l => mkLoop (max (now l) (due t)) (next_timer l) rest (frames l)) w in
  later (job t) w0 = fire (job t) w0 /\ run_timer w = Some (later (job t) w0).
Proof.
  intros Hreach Hpop w0.
  assert (later (job t) w0 = fire (job t) w0) as Hsame.
  { pose proof (tidy_reachable allowed pg w Hreach) as Hw.
    destruct (tidy_pop _ _ _ t rest (max (now (loop w)) (due t)) (frames (loop w))
                Hpop Hw) as [_ Hout].
    destruct Hw as (_ & _ & Hds & Hdf).
    assert (t ∈ timers (loop w)) as Hin
      by (rewrite (pop_earliest_perm _ _ _ Hpop); left).
    assert (filter (fun x => timer_id x ≠ timer_id t) rest = rest) as Hkeep.
    { clear -Hout. induction rest as [|x rest IH]; [reflexivity|].
      rewrite filter_cons. simpl in Hout. apply not_elem_of_cons in Hout as [Hne Hout].
      destruct (decide (timer_id x ≠ timer_id t)) as [_|Heq];
        [|exfalso; apply Heq; congruence].
      rewrite (IH Hout). reflexivity. }
    unfold later. destruct (job t) eqn:Hj; try reflexivity.
    - subst w0. unfold with_loop, clearTimeout. simpl.
      rewrite (Hds t Hin Hj), Hkeep. reflexivity.
    - subst w0. unfold with_loop, clearTimeout. simpl.
      rewrite (Hdf t Hin Hj), Hkeep. reflexivity. }
  split; [exact Hsame|]. unfold run_timer. rewrite Hpop, Hsame. reflexivity.
Qed.

Lemma typed_twice_reachable : reachable (fun _ => True) sample_page typed_twice.
Proof.
  apply (reach_step _ _ (TypeInSearch "20") (searchInput_input "2" (construct sample_page)));
    [|exact I|reflexivity].
  apply (reach_step _ _ (TypeInSearch "2") (construct sample_page));
    [|exact I|reflexivity].
  apply reach_load.
Defined.

Lemma debounce_keeps_one_timer_witness :
  reachable (fun _ => True) sample_page typed_twice /\
  timers (loop typed_twice) = [mkTimer 1 150 LaterSearch] /\
  (job (mkTimer 1 150 LaterSearch) = LaterSearch
   \/ job (mkTimer 1 150 LaterSearch) = LaterFilter) /\
  0 = 0.
Proof.
  assert (timers (loop typed_twice) = [mkTimer 1 150 LaterSearch]) as Ht
    by (vm_compute; reflexivity).
  split; [exact typed_twice_reachable|]. split; [exact Ht|].
  split; [left; reflexivity|].
  apply (debounce_keeps_one_timer (fun _ => True) sample_page typed_twice 0 0
           (mkTimer 1 150 LaterSearch) (mkTimer 1 150 LaterSearch)
           typed_twice_reachable);
    [rewrite Ht; reflexivity | rewrite Ht; reflexivity | reflexivity
    | left; reflexivity].
Defined.

Lemma later_cancels_nothing_witness :
  let t := mkTimer 1 150 LaterSearch in
  let w0 :=
    with_loop (fun l => mkLoop (max (now l) (due t)) (next_timer l) [] (frames l))
      typed_twice in
  reachable (fun _ => True) sample_page typed_twice /\
  pop_earliest (timers (loop typed_twice)) = Some (t, []) /\
  later (job t) w0 = fire (job t) w0 /\
  run_timer typed_twice = Some (later (job t) w0).
Proof.
  intros t w0.
  assert (pop_earliest (timers (loop typed_twice)) = Some (t, [])) as Hpop
    by (vm_compute; reflexivity).
  split; [exact typed_twice_reachable|]. split; [exact Hpop|].
  exact (later_cancels_nothing (fun _ => True) sample_page typed_twice t []
           typed_twice_reachable Hpop).
Defined.

(** ** The scroll listeners *)

Lemma cancel_held (id : positive) :
  ScrollListener.cancel (Some id) [id] = [].
Proof.
  unfold ScrollListener.cancel. rewrite filter_cons.
  destruct (decide (id ≠ id)) as [Hne|_]; [contradiction | reflexivity].
Qed.

Lemma coalesced_step (e : ScrollListener.event) (s s' : ScrollListener.Instance) :
  ScrollListener.step e s = Some s' ->
  ScrollListener.coalesced s -> ScrollListener.coalesced s'.
Proof.
  destruct e as [|v| |]; simpl.
  - intros H; injection H as <-. intros [Hf Hi]. unfold ScrollListener.scroll.
    unfold on_scroll. split; simpl.
    + destruct (ticking (ScrollListener.tracker s)) eqn:Htick; simpl.
      * destruct Hf as [->|(id & -> & Hid & _)]; [left; reflexivity|].
        right. exists id. auto.
      * destruct Hf as [->|(id & _ & _ & Hid)]; [|congruence].
        right. eexists. simpl. auto.
    + right. eexists. split; [|reflexivity].
      destruct Hi as [->|(id & -> & ->)].
      * destruct (ScrollListener.scrollTimeout s); reflexivity.
      * rewrite cancel_held. reflexivity.
  - unfold ScrollListener.animation_frame.
    destruct (ScrollListener.frame_callbacks s) as [|c rest] eqn:Hc; [discriminate|].
    intros H; injection H as <-. intros [Hf Hi]. split; simpl; [|exact Hi].
    rewrite Hc in Hf. destruct Hf as [Hf|(id & Hf & _)]; [discriminate|].
    injection Hf as _ ->. left. reflexivity.
  - unfold ScrollListener.timer_fires.
    destruct (ScrollListener.idle_timers s) as [|c rest] eqn:Hc; [discriminate|].
    intros H; injection H as <-. intros [Hf Hi]. split; simpl; [exact Hf|].
    rewrite Hc in Hi. destruct Hi as [Hi|(id & Hi & _)]; [discriminate|].
    injection Hi as _ ->. left. reflexivity.
  - intros H; injection H as <-. intros [Hf Hi]. split; simpl.
    + left. destruct Hf as [->|(id & -> & -> & _)].
      * destruct (ScrollListener.animationFrameId s); reflexivity.
      * apply cancel_held.
    + left. destruct Hi as [->|(id & -> & ->)].
      * destruct (ScrollListener.scrollTimeout s); reflexivity.
      * apply cancel_held.
Qed.

Lemma coalesced_reachable (s : ScrollListener.Instance) :
  ScrollListener.reachable s -> ScrollListener.coalesced s.
Proof.
  induction 1 as [|e s s' _ IH Hstep].
  - split; left; reflexivity.
  - apply (coalesced_step e s s' Hstep IH).
Qed.

(** X8. However many [scroll] events arrive and in whatever order the
    frames and the timers run, at most one callback [updateProgress] and
    at most one timer of the scroll listener are pending, and none is
    requested while one is pending. *)
Theorem scroll_requests_coalesce (s : ScrollListener.Instance) :
  ScrollListener.reachable s ->
  length (ScrollListener.frame_callbacks s) <= 1 /\
  length (ScrollListener.idle_timers s) <= 1 /\
  (ScrollListener.frame_callbacks s <> [] ->
   ScrollListener.frame_callbacks (ScrollListener.scroll s)
   = ScrollListener.frame_callbacks s).
Proof.
  intros Hreach. destruct (coalesced_reachable s Hreach) as [Hf Hi].
  split; [|split].
  - destruct Hf as [->|(id & -> & _)]; simpl; lia.
  - destruct Hi as [->|(id & -> & _)]; simpl; lia.
  - intros Hne. destruct Hf as [Hf|(id & _ & _ & Htick)]; [contradiction|].
    unfold ScrollListener.scroll, on_scroll. rewrite Htick. reflexivity.
Qed.

Lemma run_app (es1 es2 : list ScrollListener.event) (s : ScrollListener.Instance) :
  ScrollListener.run (es1 ++ es2)%list s
  = ScrollListener.run es1 s ≫= ScrollListener.run es2.
Proof.
  revert s; induction es1 as [|e es1 IH]; intros s; simpl; [reflexivity|].
  destruct (ScrollListener.step e s); [apply IH | reflexivity].
Qed.

Lemma scrolls_keep_callback (n : nat) (s : ScrollListener.Instance) (id : positive) :
  ScrollListener.frame_callbacks s = [id] ->
  ticking (ScrollListener.tracker s) = true ->
  isScrolling (ScrollListener.tracker s) = true ->
  exists s',
    ScrollListener.run (repeat ScrollListener.Scrolls n) s = Some s' /\
    ScrollListener.frame_callbacks s' = [id] /\
    isScrolling (ScrollListener.tracker s') = true /\
    width_percent (ScrollListener.tracker s') = width_percent (ScrollListener.tracker s).
Proof.
  revert s; induction n as [|n IH]; intros s Hf Ht Hs; simpl.
  - exists s. auto.
  - destruct (IH (ScrollListener.scroll s)) as (s' & Hrun & Hf' & Hs' & Hw).
    + unfold ScrollListener.scroll, on_scroll. rewrite Ht. exact Hf.
    + unfold ScrollListener.scroll, on_scroll. rewrite Ht. reflexivity.
    + unfold ScrollListener.scroll, on_scroll. rewrite Ht. reflexivity.
    + exists s'. split; [exact Hrun|]. split; [exact Hf'|]. split; [exact Hs'|].
      rewrite Hw. unfold ScrollListener.scroll, on_scroll. rewrite Ht. reflexivity.
Qed.

(** X9. From a state in which [ticking] is not set, a burst of one or
    more [scroll] events followed by an animation frame runs
    [updateProgress] once: the bar gets the percentage of the page as it
    reads in that frame, [ticking] is reset and no callback is left. *)
Theorem scroll_burst_updates_once
    (s : ScrollListener.Instance) (n : nat) (v : Viewport) :
  ScrollListener.reachable s ->
  ticking (ScrollListener.tracker s) = false ->
  exists s',
    ScrollListener.run
      (repeat ScrollListener.Scrolls (S n) ++ [ScrollListener.FrameRuns v])%list s
    = Some s' /\
    width_percent (ScrollListener.tracker s') = Some (scrollPercent v) /\
    ticking (ScrollListener.tracker s') = false /\
    ScrollListener.frame_callbacks s' = [].
Proof.
  intros Hreach Htick. destruct (coalesced_reachable s Hreach) as [Hf _].
  assert (ScrollListener.frame_callbacks s = []) as Hnone
    by (destruct Hf as [Hf|(id & _ & _ & Hid)]; [exact Hf | congruence]).
  rewrite run_app. simpl.
  destruct (scrolls_keep_callback n (ScrollListener.scroll s) (ScrollListener.next_frame s))
    as (s1 & Hrun & Hf1 & Hs1 & _).
  - unfold ScrollListener.scroll, on_scroll. rewrite Htick, Hnone. reflexivity.
  - unfold ScrollListener.scroll, on_scroll. rewrite Htick. reflexivity.
  - unfold ScrollListener.scroll, on_scroll. rewrite Htick. reflexivity.
  - rewrite Hrun. simpl. unfold ScrollListener.animation_frame. rewrite Hf1.
    eexists. split; [reflexivity|]. simpl. unfold updateProgress. rewrite Hs1.
    simpl. auto.
Qed.

Lemma scroll_burst_updates_once_witness :
  let s := ScrollListener.destroy ScrollListener.construct in
  let v := mkViewport 300 1400 800 in
  ScrollListener.reachable s /\
  ticking (ScrollListener.tracker s) = false /\
  exists s',
    ScrollListener.run
      (repeat ScrollListener.Scrolls 3 ++ [ScrollListener.FrameRuns v])%list s
    = Some s' /\
    width_percent (ScrollListener.tracker s') = Some (scrollPercent v) /\
    ticking (ScrollListener.tracker s') = false /\
    ScrollListener.frame_callbacks s' = [].
Proof.
  intros s v.
  assert (ScrollListener.reachable s) as Hreach
    by (apply (ScrollListener.reach_step ScrollListener.Destroyed
                 ScrollListener.construct);
        [apply ScrollListener.reach_new | reflexivity]).
  split; [exact Hreach|]. split; [reflexivity|].
  exact (scroll_burst_updates_once s 2 v Hreach eq_refl).
Defined.

(** X10. Once [ticking] is set with no callback pending, which is how
    [destroy] leaves an instance whose callback it cancelled and how a
    callback that ran after the timer leaves it, no later event changes
    the width of the bar, resets [ticking] or requests a callback. *)
Theorem stalled_bar_stays
    (s s' : ScrollListener.Instance) (es : list ScrollListener.event) :
  ticking (ScrollListener.tracker s) = true ->
  ScrollListener.frame_callbacks s = [] ->
  ScrollListener.run es s = Some s' ->
  width_percent (ScrollListener.tracker s') = width_percent (ScrollListener.tracker s) /\
  ticking (ScrollListener.tracker s') = true /\
  ScrollListener.frame_callbacks s' = [].
Proof.
  revert s; induction es as [|e es IH]; intros s Htick Hnone; simpl.
  - intros H; injection H as <-. auto.
  - destruct (ScrollListener.step e s) as [s1|] eqn:Hstep; [|discriminate].
    intros Hrun.
    assert (width_percent (ScrollListener.tracker s1)
            = width_percent (ScrollListener.tracker s) /\
            ticking (ScrollListener.tracker s1) = true /\
            ScrollListener.frame_callbacks s1 = []) as (Hw & Ht & Hf).
    { destruct e as [|v| |]; simpl in Hstep.
      - injection Hstep as <-. unfold ScrollListener.scroll, on_scroll.
        rewrite Htick. simpl. auto.
      - unfold ScrollListener.animation_frame in Hstep. rewrite Hnone in Hstep.
        discriminate.
      - unfold ScrollListener.timer_fires in Hstep.
        destruct (ScrollListener.idle_timers s); [discriminate|].
        injection Hstep as <-. simpl. auto.
      - injection Hstep as <-. simpl. rewrite Hnone.
        destruct (ScrollListener.animationFrameId s); auto. }
    destruct (IH s1 Ht Hf Hrun) as (Hw' & Ht' & Hf'). rewrite Hw', Hw. auto.
Qed.

Lemma stalled_bar_stays_witness :
  let s := ScrollListener.destroy (ScrollListener.scroll ScrollListener.construct) in
  let es :=
    [ScrollListener.Scrolls; ScrollListener.TimerFires; ScrollListener.Scrolls] in
  let s' := default s (ScrollListener.run es s) in
  ticking (ScrollListener.tracker s) = true /\
  ScrollListener.frame_callbacks s = [] /\
  ScrollListener.run es s = Some s' /\
  width_percent (ScrollListener.tracker s') = width_percent (ScrollListener.tracker s) /\
  ticking (ScrollListener.tracker s') = true /\
  ScrollListener.frame_callbacks s' = [].
Proof.
  intros s es s'.
  assert (ScrollListener.run es s = Some s') as Hrun by (vm_compute; reflexivity).
  split; [reflexivity|]. split; [reflexivity|]. split; [exact Hrun|].
  exact (stalled_bar_stays s s' es eq_refl eq_refl Hrun).
Defined.

Lemma scroll_requests_coalesce_witness :
  let s := ScrollListener.scroll (ScrollListener.scroll ScrollListener.construct) in
  ScrollListener.reachable s /\
  length (ScrollListener.frame_callbacks s) <= 1 /\
  length (ScrollListener.idle_timers s) <= 1 /\
  (ScrollListener.frame_callbacks s <> [] ->
   ScrollListener.frame_callbacks (ScrollListener.scroll s)
   = ScrollListener.frame_callbacks s).
Proof.
  intros s.
  assert (ScrollListener.reachable s) as Hreach.
  { apply (ScrollListener.reach_step ScrollListener.Scrolls
             (ScrollListener.scroll ScrollListener.construct)); [|reflexivity].
    apply (ScrollListener.reach_step ScrollListener.Scrolls ScrollListener.construct);
      [apply ScrollListener.reach_new | reflexivity]. }
  split; [exact Hreach|]. exact (scroll_requests_coalesce s Hreach).
Defined.

(** ** The markers *)

Lemma animated_at_alter_ne (f : Markers.Section -> Markers.Section)
    (secs : list Markers.Section) (i j : nat) :
  i <> j ->
  Markers.animated_at (alter f i secs) j <-> Markers.animated_at secs j.
Proof.
  intros Hne. unfold Markers.animated_at.
  rewrite list_lookup_alter_ne by exact Hne. reflexivity.
Qed.

Lemma animated_at_set_visible (secs : list Markers.Section) (t i : nat) :
  Markers.animated_at (alter Markers.set_visible t secs) i
  <-> Markers.animated_at secs i.
Proof.
  destruct (decide (t = i)) as [->|Hne]; [|apply animated_at_alter_ne; exact Hne].
  unfold Markers.animated_at. rewrite list_lookup_alter_eq.
  destruct (secs !! i) as [s|]; simpl.
  - split; intros (s' & m & Hs & Hm & Ha); injection Hs as <-; eauto.
  - split; intros (s' & m & Hs & _); discriminate.
Qed.

Lemma in_step_animateMarker (i : nat) (o : Markers.Observed) :
  Markers.in_step o -> Markers.in_step (Markers.animateMarker i o).
Proof.
  intros [Hnd Hiff]. unfold Markers.animateMarker.
  destruct (Markers.sections o !! i) as [s|] eqn:Hs; [|split; assumption].
  destruct (Markers.marker_dot s) as [m|] eqn:Hm; [|split; assumption].
  destruct (Markers.animated m) eqn:Ha; simpl; [split; assumption|].
  assert (i ∉ Markers.reverts o) as Hout.
  { intros Hin. apply Hiff in Hin as (s' & m' & Hs' & Hm' & Ha'). congruence. }
  split; simpl.
  - apply NoDup_app. split; [exact Hnd|]. split; [|apply NoDup_singleton].
    intros x Hx Hx'. apply list_elem_of_singleton in Hx' as ->. contradiction.
  - intros j. rewrite elem_of_app, list_elem_of_singleton.
    destruct (decide (i = j)) as [<-|Hne].
    + split; [|auto]. intros _. exists (Markers.set_marker Markers.pulsing s), Markers.pulsing.
      rewrite list_lookup_alter_eq, Hs. auto.
    + rewrite animated_at_alter_ne by exact Hne. rewrite <- Hiff.
      split; [intros [H|H]; [exact H | congruence] | auto].
Qed.

Lemma in_step_on_entry (o : Markers.Observed) (entry : Markers.Entry) :
  Markers.in_step o -> Markers.in_step (Markers.on_entry o entry).
Proof.
  intros [Hnd Hiff]. unfold Markers.on_entry.
  destruct (_ && _); [|split; assumption].
  apply in_step_animateMarker. split; simpl; [exact Hnd|].
  intros i. rewrite animated_at_set_visible. apply Hiff.
Qed.

Lemma in_step_revert (o o' : Markers.Observed) :
  Markers.revert_fires o = Some o' -> Markers.in_step o -> Markers.in_step o'.
Proof.
  unfold Markers.revert_fires.
  destruct (Markers.reverts o) as [|i rest] eqn:Hr; [discriminate|].
  intros H [Hnd Hiff]; injection H as <-. rewrite Hr in Hnd, Hiff.
  apply NoDup_cons in Hnd as [Hout Hnd]. split; simpl; [exact Hnd|].
  intros j. destruct (decide (i = j)) as [<-|Hne].
  - split; [contradiction|]. intros (s & m & Hs & Hm & Ha).
    rewrite list_lookup_alter_eq in Hs.
    destruct (Markers.sections o !! i) as [s0|]; simpl in Hs; [|discriminate].
    injection Hs as <-. simpl in Hm.
    destruct (Markers.marker_dot s0); simpl in Hm; [|discriminate].
    injection Hm as <-. discriminate.
  - rewrite animated_at_alter_ne by exact Hne. rewrite <- Hiff, elem_of_cons.
    split; [auto | intros [H|H]; [congruence | exact H]].
Qed.

Lemma in_step_step (e : Markers.event) (o o' : Markers.Observed) :
  Markers.step e o = Some o' -> Markers.in_step o -> Markers.in_step o'.
Proof.
  destruct e as [entries|]; simpl; [|apply in_step_revert].
  intros H; injection H as <-. unfold Markers.observer_callback.
  revert o; induction entries as [|entry entries IH]; intros o Ho; simpl; [exact Ho|].
  apply IH. apply in_step_on_entry. exact Ho.
Qed.

Lemma in_step_reachable (secs : list Markers.Section) (o : Markers.Observed) :
  (forall i, ~ Markers.animated_at secs i) ->
  Markers.reachable secs o -> Markers.in_step o.
Proof.
  intros Hload. induction 1 as [|e o o' _ IH Hstep].
  - split; simpl; [apply NoDup_nil_2|]. intros i. split; [intros H; inversion H|].
    intros H. exfalso. exact (Hload i H).
  - apply (in_step_step e o o' Hstep IH).
Qed.

(** X11. On a page that loads with no marker animated, in every state the
    observer and the timers lead to, a marker has the class [animated]
    exactly while a timer of [animateMarker] is pending for it, and never
    more than one is: a marker in its pulse is not pulsed again. *)
Theorem markers_pulse_without_overlap
    (secs : list Markers.Section) (o : Markers.Observed) :
  (forall i, ~ Markers.animated_at secs i) ->
  Markers.reachable secs o ->
  NoDup (Markers.reverts o) /\
  (forall i, i ∈ Markers.reverts o <-> Markers.animated_at (Markers.sections o) i) /\
  (forall entry, Markers.animated_at (Markers.sections o) (Markers.target entry) ->
     Markers.reverts (Markers.on_entry o entry) = Markers.reverts o).
Proof.
  intros Hload Hreach. destruct (in_step_reachable secs o Hload Hreach) as [Hnd Hiff].
  split; [exact Hnd|]. split; [exact Hiff|].
  intros entry Ha. unfold Markers.on_entry. destruct (_ && _); [|reflexivity].
  apply (animated_at_set_visible _ (Markers.target entry)) in Ha.
  destruct Ha as (s & m & Hs & Hm & Ha).
  unfold Markers.animateMarker. simpl. rewrite Hs, Hm, Ha. reflexivity.
Qed.

Lemma fire_all_untouched (n : nat) (o : Markers.Observed) (j : nat) :
  j ∉ Markers.reverts o ->
  Markers.sections (Markers.fire_all n o) !! j = Markers.sections o !! j.
Proof.
  revert o; induction n as [|n IH]; intros o Hout; simpl; [reflexivity|].
  unfold Markers.revert_fires.
  destruct (Markers.reverts o) as [|i rest] eqn:Hr; [reflexivity|].
  apply not_elem_of_cons in Hout as [Hne Hout].
  rewrite IH by exact Hout. simpl. apply list_lookup_alter_ne. congruence.
Qed.

Lemma fire_all_rest (n : nat) (o : Markers.Observed) :
  Markers.in_step o ->
  length (Markers.reverts o) = n ->
  Markers.reverts (Markers.fire_all n o) = [] /\
  forall i s m,
    Markers.sections (Markers.fire_all n o) !! i = Some s ->
    Markers.marker_dot s = Some m ->
    Markers.animated m = false /\
    (Markers.animated_at (Markers.sections o) i -> m = Markers.resting).
Proof.
  revert o; induction n as [|n IH]; intros o Ho Hlen.
  - destruct (Markers.reverts o) eqn:Hr; [|discriminate]. simpl.
    split; [exact Hr|]. intros i s m Hs Hm.
    assert (~ Markers.animated_at (Markers.sections o) i) as Hnot
      by (intros H; apply Ho in H; rewrite Hr in H; inversion H).
    split; [|contradiction].
    destruct (Markers.animated m) eqn:Ha; [|reflexivity].
    exfalso. apply Hnot. exists s, m. auto.
  - simpl. destruct (Markers.revert_fires o) as [o1|] eqn:Hfire.
    + pose proof (in_step_revert o o1 Hfire Ho) as Ho1.
      revert Hfire. unfold Markers.revert_fires.
      destruct (Markers.reverts o) as [|i0 rest] eqn:Hr; [discriminate|].
      intros H. injection H as H. simpl in Hlen.
      assert (Markers.reverts o1 = rest) as Hrest by (rewrite <- H; reflexivity).
      destruct (IH o1 Ho1 ltac:(rewrite Hrest; lia)) as [Hnone Hall].
      split; [exact Hnone|]. intros i s m Hs Hm.
      destruct (Hall i s m Hs Hm) as [Ha Hwas]. split; [exact Ha|].
      intros Hi. destruct (decide (i0 = i)) as [<-|Hne].
      * destruct Ho as [Hnd _]. rewrite Hr in Hnd.
        apply NoDup_cons in Hnd as [Hout _].
        rewrite fire_all_untouched in Hs by (rewrite Hrest; exact Hout).
        rewrite <- H in Hs. simpl in Hs. rewrite list_lookup_alter_eq in Hs.
        destruct (Markers.sections o !! i0) as [s0|]; simpl in Hs; [|discriminate].
        injection Hs as <-. simpl in Hm.
        destruct (Markers.marker_dot s0); simpl in Hm; [|discriminate].
        congruence.
      * apply Hwas. rewrite <- H. simpl.
        apply animated_at_alter_ne; assumption.
    + unfold Markers.revert_fires in Hfire.
      destruct (Markers.reverts o); discriminate.
Qed.

(** X12. On a page that loads with no marker animated, once the pending
    timers of [animateMarker] have fired none is left, no marker is
    animated, and every marker that was in its pulse has the resting
    transform and shadow. *)
Theorem markers_come_to_rest
    (secs : list Markers.Section) (o : Markers.Observed) (i : nat)
    (s : Markers.Section) (m : Markers.Marker) :
  (forall i, ~ Markers.animated_at secs i) ->
  Markers.reachable secs o ->
  Markers.sections (Markers.settle o) !! i = Some s ->
  Markers.marker_dot s = Some m ->
  Markers.reverts (Markers.settle o) = [] /\
  Markers.animated m = false /\
  (Markers.animated_at (Markers.sections o) i -> m = Markers.resting).
Proof.
  intros Hload Hreach Hs Hm.
  destruct (fire_all_rest _ o (in_step_reachable secs o Hload Hreach) eq_refl)
    as [Hnone Hall].
  split; [exact Hnone|]. exact (Hall i s m Hs Hm).
Qed.

(** ** The earlier controller *)

Lemma legacy_pop_earliest_perm (ts rest : list Legacy.Timer) (t : Legacy.Timer) :
  Legacy.pop_earliest ts = Some (t, rest) -> ts ≡ₚ t :: rest.
Proof.
  revert t rest; induction ts as [|a ts IH]; intros t rest; simpl; [discriminate|].
  destruct (Legacy.pop_earliest ts) as [[t' rest']|].
  - destruct (Nat.ltb (Legacy.due t') (Legacy.due a)); intros H; injection H as <- <-.
    + rewrite (IH t' rest' eq_refl). apply Permutation_swap.
    + reflexivity.
  - intros H; injection H as <- <-. reflexivity.
Qed.

Lemma legacy_fire_event (j : Legacy.task) (w : Legacy.World) (i : nat) :
  events (Legacy.page (Legacy.fire j w)) !! i
  = (match j with
     | Legacy.Hide k => if decide (k = i) then Legacy.hide else id
     | Legacy.SectionVisibility => id
     end) <$> events (Legacy.page w) !! i.
Proof.
  destruct j as [k|]; simpl.
  - destruct (decide (k = i)) as [->|Hne].
    + apply list_lookup_alter_eq.
    + rewrite list_lookup_alter_ne by exact Hne.
      destruct (events (Legacy.page w) !! i); reflexivity.
  - destruct (events (Legacy.page w) !! i); reflexivity.
Qed.

(** Firing the timers changes nothing of an event but its [display],
    which becomes ['none'] exactly if a timer of [filterEvents] is pending
    for it. *)
Lemma legacy_run_timers_event (n : nat) (w : Legacy.World) (i : nat) (e : EventNode) :
  length (Legacy.timers w) <= n ->
  events (Legacy.page w) !! i = Some e ->
  Legacy.this (Legacy.run_timers n w) = Legacy.this w /\
  exists e',
    events (Legacy.page (Legacy.run_timers n w)) !! i = Some e' /\
    opacity (style e') = opacity (style e) /\
    transform (style e') = transform (style e) /\
    ((exists t, t ∈ Legacy.timers w /\ Legacy.job t = Legacy.Hide i) ->
     display (style e') = "none") /\
    ((forall t, t ∈ Legacy.timers w -> Legacy.job t <> Legacy.Hide i) ->
     display (style e') = display (style e)).
Proof.
  revert w e; induction n as [|n IH]; intros w e Hlen He.
  - simpl. split; [reflexivity|]. exists e. repeat split; auto.
    intros (t & Hin & _).
    destruct (Legacy.timers w); [inversion Hin | simpl in Hlen; lia].
  - simpl. unfold Legacy.run_timer.
    destruct (Legacy.pop_earliest (Legacy.timers w)) as [[t rest]|] eqn:Hpop.
    + apply legacy_pop_earliest_perm in Hpop.
      assert (length rest <= n) as Hlen'
        by (rewrite Hpop in Hlen; simpl in Hlen; lia).
      set (w0 := Legacy.mkWorld _ _ _ rest).
      assert (Legacy.timers (Legacy.fire (Legacy.job t) w0) = rest) as Ht
        by (destruct (Legacy.job t); reflexivity).
      assert (Legacy.this (Legacy.fire (Legacy.job t) w0) = Legacy.this w) as Hthis
        by (destruct (Legacy.job t); reflexivity).
      pose proof (legacy_fire_event (Legacy.job t) w0 i) as Hev.
      subst w0. simpl in Hev. rewrite He in Hev. simpl in Hev.
      match type of Hev with _ = Some ?x => set (e1 := x) in * end.
      destruct (IH _ e1 ltac:(rewrite Ht; exact Hlen') Hev)
        as (Hthis' & e' & He' & Hop & Htr & Hhide & Hkeep).
      split; [congruence|]. exists e'. split; [exact He'|].
      rewrite Ht in Hhide, Hkeep.
      assert (opacity (style e1) = opacity (style e) /\
              transform (style e1) = transform (style e)) as [Hop1 Htr1]
        by (subst e1; destruct (Legacy.job t) as [k|]; [destruct (decide (k = i))|];
            split; reflexivity).
      split; [congruence|]. split; [congruence|]. split.
      * intros (x & Hin & Hjob). rewrite Hpop in Hin.
        apply elem_of_cons in Hin as [->|Hin]; [|apply Hhide; eauto].
        destruct (decide (Exists (fun y => Legacy.job y = Legacy.Hide i) rest))
          as [Hex|Hnone]; [apply Hhide, Exists_exists; exact Hex|].
        rewrite Hkeep.
        -- subst e1. rewrite Hjob. destruct (decide (i = i)); [reflexivity | congruence].
        -- intros y Hy Hj. apply Hnone, Exists_exists. eauto.
      * intros Hnone. rewrite Hkeep.
        -- subst e1. destruct (Legacy.job t) as [k|] eqn:Hj; [|reflexivity].
           destruct (decide (k = i)) as [->|_]; [|reflexivity].
           exfalso. apply (Hnone t); [rewrite Hpop; left | exact Hj].
        -- intros y Hy. apply Hnone. rewrite Hpop. right. exact Hy.
    + split; [reflexivity|]. exists e. repeat split; auto.
      intros (t & Hin & _). destruct (Legacy.timers w) as [|a ts];
        [inversion Hin|]. simpl in Hpop.
      destruct (Legacy.pop_earliest ts) as [[t' rest']|]; [|discriminate].
      destruct (Nat.ltb _ _); discriminate.
Qed.

Lemma legacy_filter_event_spec (category : string) (subcategory : jsval)
    (w : Legacy.World) (k j : nat) (e : EventNode) :
  events (Legacy.page w) !! j = Some e ->
  Legacy.this (Legacy.filter_event category subcategory w k) = Legacy.this w /\
  events (Legacy.page (Legacy.filter_event category subcategory w k)) !! j
  = Some (if decide (k = j)
          then if Legacy.shouldShow category subcategory e
               then Legacy.show e else Legacy.fade e
          else e) /\
  exists added,
    Legacy.timers (Legacy.filter_event category subcategory w k)
    = (Legacy.timers w ++ added)%list /\
    ((exists t, t ∈ added /\ Legacy.job t = Legacy.Hide j)
     <-> k = j /\ Legacy.shouldShow category subcategory e = false).
Proof.
  intros He. unfold Legacy.filter_event.
  destruct (events (Legacy.page w) !! k) as [ek|] eqn:Hk.
  - destruct (Legacy.shouldShow category subcategory ek) eqn:Hshow; simpl.
    + split; [reflexivity|]. split.
      * destruct (decide (k = j)) as [->|Hne].
        -- rewrite list_lookup_alter_eq, He. simpl.
           assert (ek = e) as -> by congruence. rewrite Hshow. reflexivity.
        -- rewrite list_lookup_alter_ne by exact Hne. exact He.
      * exists []. rewrite List.app_nil_r. split; [reflexivity|].
        split; [intros (t & Hin & _); inversion Hin|].
        intros [-> Hfalse]. congruence.
    + split; [reflexivity|]. split.
      * destruct (decide (k = j)) as [->|Hne].
        -- rewrite list_lookup_alter_eq, He. simpl.
           assert (ek = e) as -> by congruence. rewrite Hshow. reflexivity.
        -- rewrite list_lookup_alter_ne by exact Hne. exact He.
      * eexists. split; [reflexivity|]. split.
        -- intros (t & Hin & Hjob). apply list_elem_of_singleton in Hin as ->.
           simpl in Hjob. injection Hjob as ->. split; [reflexivity|]. congruence.
        -- intros [-> _]. eexists. split; [apply list_elem_of_singleton|]; reflexivity.
  - split; [reflexivity|]. split.
    + destruct (decide (k = j)) as [->|_]; [congruence | exact He].
    + exists []. rewrite List.app_nil_r. split; [reflexivity|].
      split; [intros (t & Hin & _); inversion Hin|]. intros [-> _]. congruence.
Qed.

Lemma legacy_forEach_spec (category : string) (subcategory : jsval)
    (nodes : list nat) (w : Legacy.World) (j : nat) (e : EventNode) :
  NoDup nodes ->
  events (Legacy.page w) !! j = Some e ->
  let w' := foldl (Legacy.filter_event category subcategory) w nodes in
  Legacy.this w' = Legacy.this w /\
  events (Legacy.page w') !! j
  = Some (if decide (j ∈ nodes)
          then if Legacy.shouldShow category subcategory e
               then Legacy.show e else Legacy.fade e
          else e) /\
  exists added,
    Legacy.timers w' = (Legacy.timers w ++ added)%list /\
    ((exists t, t ∈ added /\ Legacy.job t = Legacy.Hide j)
     <-> j ∈ nodes /\ Legacy.shouldShow category subcategory e = false).
Proof.
  revert w e; induction nodes as [|k rest IH]; intros w e Hnd He; simpl.
  - split; [reflexivity|]. split.
    + destruct (decide (j ∈ [])) as [Hin|_]; [inversion Hin | exact He].
    + exists []. rewrite List.app_nil_r. split; [reflexivity|].
      split; [intros (t & Hin & _); inversion Hin|]. intros [Hin _]. inversion Hin.
  - apply NoDup_cons in Hnd as [Hk Hnd].
    destruct (legacy_filter_event_spec category subcategory w k j e He)
      as (Hthis1 & Hev1 & added1 & Ht1 & Hiff1).
    destruct (IH _ _ Hnd Hev1) as (Hthis2 & Hev2 & added2 & Ht2 & Hiff2).
    split; [congruence|]. split.
    + rewrite Hev2. f_equal. destruct (decide (k = j)) as [->|Hne].
      * destruct (decide (j ∈ rest)) as [Hin|_]; [contradiction|].
        destruct (decide (j ∈ j :: rest)) as [_|Hout];
          [reflexivity | exfalso; apply Hout; left].
      * destruct (decide (j ∈ rest)) as [Hin|Hout];
          destruct (decide (j ∈ k :: rest)) as [Hin'|Hout']; try reflexivity.
        -- exfalso. apply Hout'. right. exact Hin.
        -- apply elem_of_cons in Hin' as [->|Hin']; [congruence | contradiction].
    + exists (added1 ++ added2)%list. split.
      * rewrite Ht2, Ht1, List.app_assoc. reflexivity.
      * split.
        -- intros (t & Hin & Hjob). apply elem_of_app in Hin as [Hin|Hin].
           ++ destruct (proj1 Hiff1 (ex_intro _ t (conj Hin Hjob))) as [-> Hs].
              split; [left | exact Hs].
           ++ destruct (proj1 Hiff2 (ex_intro _ t (conj Hin Hjob))) as [Hj Hs].
              split; [right; exact Hj|].
              destruct (decide (k = j)) as [->|_]; [contradiction | exact Hs].
        -- intros [Hin Hs]. apply elem_of_cons in Hin as [->|Hin].
           ++ destruct (proj2 Hiff1 (conj eq_refl Hs)) as (t & Ht & Hjob).
              exists t. split; [apply elem_of_app; left; exact Ht | exact Hjob].
           ++ assert (k <> j) as Hne by congruence.
              destruct (decide (k = j)) as [?|_]; [contradiction|].
              destruct (proj2 Hiff2 (conj Hin Hs)) as (t & Ht & Hjob).
              exists t. split; [apply elem_of_app; right; exact Ht | exact Hjob].
Qed.

Lemma legacy_filterEvents_spec (category : string) (subcategory : jsval)
    (w : Legacy.World) (j : nat) (e : EventNode) :
  events (Legacy.page w) !! j = Some e ->
  let w' := Legacy.filterEvents category subcategory w in
  Legacy.this w' = Legacy.this w /\
  events (Legacy.page w') !! j
  = Some (if Legacy.shouldShow category subcategory e
          then Legacy.show e else Legacy.fade e) /\
  ((exists t, t ∈ Legacy.timers w' /\ Legacy.job t = Legacy.Hide j)
   <-> (exists t, t ∈ Legacy.timers w /\ Legacy.job t = Legacy.Hide j)
       \/ Legacy.shouldShow category subcategory e = false).
Proof.
  intros He. simpl. unfold Legacy.filterEvents.
  destruct (legacy_forEach_spec category subcategory
              (seq 0 (length (events (Legacy.page w)))) w j e (NoDup_seq 0 _) He)
    as (Hthis & Hev & added & Ht & Hiff).
  assert (j ∈ seq 0 (length (events (Legacy.page w)))) as Hin
    by (apply elem_of_seq; apply lookup_lt_Some in He; lia).
  destruct (decide (j ∈ seq 0 (length (events (Legacy.page w))))) as [_|Hout];
    [|contradiction].
  simpl. split; [exact Hthis|]. split; [exact Hev|]. rewrite Ht. split.
  - intros (t & Hin' & Hjob). apply elem_of_app in Hin' as [Hin'|Hin'].
    + apply elem_of_app in Hin' as [Hin'|Hin']; [left; eauto|].
      right. apply (proj1 Hiff). eauto.
    + apply list_elem_of_singleton in Hin' as ->. discriminate.
  - intros [(t & Hin' & Hjob) | Hs].
    + exists t. split; [|exact Hjob]. apply elem_of_app; left.
      apply elem_of_app; left. exact Hin'.
    + destruct (proj2 Hiff (conj Hin Hs)) as (t & Hin' & Hjob).
      exists t. split; [|exact Hjob]. apply elem_of_app; left.
      apply elem_of_app; right. exact Hin'.
Qed.

(** X13. The filter of the earlier controller decides as [matchesFilter]
    does: for an event whose cache entry was built from its attributes,
    [shouldShow] under a category and a subcategory is the value of
    [matchesFilter] under the same filter and subcategory. *)
Theorem legacy_filter_agrees (c : Controller) (i : nat) (e : EventNode) :
  eventData c !! i = Some (event_data e) ->
  matchesFilter c i
  = Some (Legacy.shouldShow (currentFilter c) (currentSubcategory c) e).
Proof.
  intros Hd. unfold matchesFilter, Legacy.shouldShow. rewrite Hd. simpl.
  destruct (String.eqb (currentFilter c) "all"); [reflexivity|].
  destruct (strict_eq (dataset (data_category e)) (JStr (currentFilter c)));
    simpl; [|reflexivity].
  destruct (truthy (currentSubcategory c)); reflexivity.
Qed.

(** X14. When [filterEvents] has run and the timers have fired, an event
    for which no timer was pending before is displayed and opaque if
    [shouldShow] holds for it, and not displayed and transparent if not. *)
Theorem legacy_filterEvents_settles (category : string) (subcategory : jsval)
    (w : Legacy.World) (j : nat) (e : EventNode) :
  events (Legacy.page w) !! j = Some e ->
  (forall t, t ∈ Legacy.timers w -> Legacy.job t <> Legacy.Hide j) ->
  exists e',
    events (Legacy.page (Legacy.settle (Legacy.filterEvents category subcategory w)))
      !! j = Some e' /\
    display (style e')
    = (if Legacy.shouldShow category subcategory e then "flex" else "none") /\
    opacity (style e')
    = (if Legacy.shouldShow category subcategory e then "1" else "0").
Proof.
  intros He Hnone.
  destruct (legacy_filterEvents_spec category subcategory w j e He)
    as (_ & Hev & Hiff).
  destruct (legacy_run_timers_event _ _ j _ (le_n _) Hev)
    as (_ & e' & He' & Hop & _ & Hhide & Hkeep).
  exists e'. split; [exact He'|]. rewrite Hop.
  destruct (Legacy.shouldShow category subcategory e) eqn:Hs.
  - split; [|reflexivity]. rewrite Hkeep; [reflexivity|].
    intros t Ht Hjob.
    destruct (proj1 Hiff (ex_intro _ t (conj Ht Hjob))) as [(t0 & Ht0 & Hj0)|Hf];
      [exact (Hnone t0 Ht0 Hj0) | discriminate].
  - split; [|reflexivity]. apply Hhide, Hiff. right. reflexivity.
Qed.

(** X15. The timer [filterEvents] sets hides an event without looking at
    it again.  When a category is chosen and ['all'] is clicked before the
    timers fire, every event outside the category ends not displayed,
    though it is opaque and the filter is ['all']. *)
Theorem legacy_stale_timer_hides_shown_event
    (w w2 : Legacy.World) (button : nat) (filter : string) (j : nat) (e : EventNode) :
  events (Legacy.page w) !! j = Some e ->
  Legacy.shouldShow filter JNull e = false ->
  Legacy.handleAllFilter (Legacy.handleMainFilter button filter w) = Done w2 ->
  exists e',
    events (Legacy.page (Legacy.settle w2)) !! j = Some e' /\
    display (style e') = "none" /\ opacity (style e') = "1" /\
    Legacy.currentFilter (Legacy.this (Legacy.settle w2)) = "all".
Proof.
  intros He Hs. unfold Legacy.handleMainFilter.
  match goal with
  | |- Legacy.handleAllFilter (Legacy.filterEvents _ _ ?x) = _ -> _ => set (w0 := x)
  end.
  destruct (legacy_filterEvents_spec filter JNull w0 j e He) as (_ & Hev & Hiff).
  rewrite Hs in Hev. set (w1 := Legacy.filterEvents filter JNull w0) in *.
  unfold Legacy.handleAllFilter.
  destruct (querySelector_data_filter _ _) as [k|]; [|discriminate].
  intros H; injection H as <-.
  match goal with |- context [Legacy.settle ?x] => set (w2 := x) end.
  assert (events (Legacy.page w2) !! j = Some (Legacy.show (Legacy.fade e))) as Hev2.
  { change (events (Legacy.page w2)) with (Legacy.show <$> events (Legacy.page w1)).
    rewrite list_lookup_fmap, Hev. reflexivity. }
  assert (Legacy.timers w2 = Legacy.timers w1) as Ht2 by reflexivity.
  destruct (legacy_run_timers_event _ w2 j _ (le_n _) Hev2)
    as (Hthis & e' & He' & Hop & _ & Hhide & _).
  exists e'. split; [exact He'|]. split; [|split].
  - apply Hhide. rewrite Ht2. apply (proj2 Hiff). right. exact Hs.
  - rewrite Hop. reflexivity.
  - unfold Legacy.settle. rewrite Hthis. reflexivity.
Qed.

Lemma legacy_filter_agrees_witness :
  eventData founder_angel !! 1 = Some (event_data seed_round) /\
  matchesFilter founder_angel 1
  = Some (Legacy.shouldShow (currentFilter founder_angel)
            (currentSubcategory founder_angel) seed_round).
Proof.
  assert (eventData founder_angel !! 1 = Some (event_data seed_round)) as Hd
    by (vm_compute; reflexivity).
  split; [exact Hd|]. exact (legacy_filter_agrees founder_angel 1 seed_round Hd).
Defined.

Lemma legacy_filterEvents_settles_witness :
  let w := Legacy.construct sample_page in
  events (Legacy.page w) !! 0 = Some act_2021 /\
  (forall t, t ∈ Legacy.timers w -> Legacy.job t <> Legacy.Hide 0) /\
  exists e',
    events (Legacy.page (Legacy.settle (Legacy.filterEvents "founder" JNull w)))
      !! 0 = Some e' /\
    display (style e')
    = (if Legacy.shouldShow "founder" JNull act_2021 then "flex" else "none") /\
    opacity (style e')
    = (if Legacy.shouldShow "founder" JNull act_2021 then "1" else "0").
Proof.
  intros w.
  assert (forall t, t ∈ Legacy.timers w -> Legacy.job t <> Legacy.Hide 0) as Hnone
    by (intros t Ht; inversion Ht).
  split; [reflexivity|]. split; [exact Hnone|].
  exact (legacy_filterEvents_settles "founder" JNull w 0 act_2021 eq_refl Hnone).
Defined.

Lemma legacy_stale_timer_hides_shown_event_witness :
  events (Legacy.page (Legacy.construct sample_page)) !! 0 = Some act_2021 /\
  Legacy.shouldShow "founder" JNull act_2021 = false /\
  Legacy.handleAllFilter
    (Legacy.handleMainFilter 1 "founder" (Legacy.construct sample_page))
  = Done legacy_all_again /\
  exists e',
    events (Legacy.page (Legacy.settle legacy_all_again)) !! 0 = Some e' /\
    display (style e') = "none" /\ opacity (style e') = "1" /\
    Legacy.currentFilter (Legacy.this (Legacy.settle legacy_all_again)) = "all".
Proof.
  assert (Legacy.handleAllFilter
            (Legacy.handleMainFilter 1 "founder" (Legacy.construct sample_page))
          = Done legacy_all_again) as Hall by (vm_compute; reflexivity).
  assert (Legacy.shouldShow "founder" JNull act_2021 = false) as Hs
    by (vm_compute; reflexivity).
  split; [reflexivity|]. split; [exact Hs|]. split; [exact Hall|].
  exact (legacy_stale_timer_hides_shown_event (Legacy.construct sample_page)
           legacy_all_again 1 "founder" 0 act_2021 eq_refl Hs Hall).
Defined.

Lemma two_sections_at_rest (i : nat) : ~ Markers.animated_at two_sections i.
Proof.
  intros (s & m & Hs & Hm & Ha).
  destruct i as [|[|i]]; simpl in Hs; try discriminate;
    injection Hs as <-; simpl in Hm; try discriminate.
  injection Hm as <-. discriminate.
Qed.

Lemma both_entered_reachable : Markers.reachable two_sections both_entered.
Proof.
  apply (Markers.reach_step two_sections
           (Markers.Observes
              [Markers.mkEntry 0 true 0.5%float; Markers.mkEntry 1 true 1%float;
               Markers.mkEntry 0 true 1%float])
           (Markers.mkObserved two_sections []));
    [apply Markers.reach_load | reflexivity].
Defined.

Lemma markers_pulse_without_overlap_witness :
  (forall i, ~ Markers.animated_at two_sections i) /\
  Markers.reachable two_sections both_entered /\
  Markers.reverts both_entered = [0] /\
  NoDup (Markers.reverts both_entered) /\
  (forall i, i ∈ Markers.reverts both_entered
             <-> Markers.animated_at (Markers.sections both_entered) i) /\
  (forall entry,
     Markers.animated_at (Markers.sections both_entered) (Markers.target entry) ->
     Markers.reverts (Markers.on_entry both_entered entry)
     = Markers.reverts both_entered).
Proof.
  split; [exact two_sections_at_rest|]. split; [exact both_entered_reachable|].
  split; [vm_compute; reflexivity|].
  exact (markers_pulse_without_overlap two_sections both_entered
           two_sections_at_rest both_entered_reachable).
Defined.

Lemma markers_come_to_rest_witness :
  (forall i, ~ Markers.animated_at two_sections i) /\
  Markers.reachable two_sections both_entered /\
  Markers.sections (Markers.settle both_entered) !! 0
  = Some (Markers.mkSection true (Some Markers.resting)) /\
  Markers.reverts (Markers.settle both_entered) = [] /\
  Markers.animated Markers.resting = false /\
  (Markers.animated_at (Markers.sections both_entered) 0 ->
   Markers.resting = Markers.resting).
Proof.
  assert (Markers.sections (Markers.settle both_entered) !! 0
          = Some (Markers.mkSection true (Some Markers.resting))) as Hs
    by (vm_compute; reflexivity).
  split; [exact two_sections_at_rest|]. split; [exact both_entered_reachable|].
  split; [exact Hs|].
  exact (markers_come_to_rest two_sections both_entered 0 _ Markers.resting
           two_sections_at_rest both_entered_reachable Hs eq_refl).
Defined.

(** ** A pass repeated *)

Lemma style_after_pass_twice (c : Controller) (j : nat) (st : Style) :
  style_after_pass c j (style_after_pass c j st) = style_after_pass c j st.
Proof.
  unfold style_after_pass.
  destruct (matchesSearch c j) as [[|]|], (matchesFilter c j) as [[|]|]; reflexivity.
Qed.

(** X16. A pass run again in the state it returned in, if it returns
    again, leaves the inline style of every event as the first pass set
    it. *)
Theorem pass_twice_same_styles (w w1 w2 : World) (j : nat) :
  applyAllFilters_frame w = Done w1 ->
  applyAllFilters_frame w1 = Done w2 ->
  style <$> events (page w2) !! j = style <$> events (page w1) !! j.
Proof.
  intros H1 H2.
  destruct (pass_styles w w1 j H1) as [Hthis Hst1].
  destruct (pass_styles w1 w2 j H2) as [_ Hst2].
  rewrite Hst2, Hthis, Hst1.
  destruct (events (page w) !! j) as [e|]; simpl; [|reflexivity].
  rewrite style_after_pass_twice. reflexivity.
Qed.

Lemma pass_twice_same_styles_witness :
  let w2 := default pass_2021 (final (applyAllFilters_frame pass_2021)) in
  applyAllFilters_frame term_2021 = Done pass_2021 /\
  applyAllFilters_frame pass_2021 = Done w2 /\
  style <$> events (page w2) !! 0 = style <$> events (page pass_2021) !! 0.
Proof.
  intros w2.
  assert (applyAllFilters_frame term_2021 = Done pass_2021) as H1
    by (vm_compute; reflexivity).
  assert (applyAllFilters_frame pass_2021 = Done w2) as H2
    by (vm_compute; reflexivity).
  split; [exact H1|]. split; [exact H2|].
  exact (pass_twice_same_styles term_2021 pass_2021 w2 0 H1 H2).
Defined.

(** ** Witnesses of the lemmas on sections and highlights *)

Lemma sections_follow_events_after_pass_witness :
  applyAllFilters_frame term_2021 = Done pass_2021 /\
  timers (loop (settle pass_2021)) = [] /\
  forall k s, timelineSections (page (settle pass_2021)) !! k = Some s ->
    (section_display s <> "none" <->
     exists i e, i ∈ section_events s /\
                 events (page (settle pass_2021)) !! i = Some e /\
                 is_visible e = true).
Proof.
  assert (applyAllFilters_frame term_2021 = Done pass_2021) as H1
    by (vm_compute; reflexivity).
  split; [exact H1|].
  exact (sections_follow_events_after_pass term_2021 pass_2021 H1).
Defined.

Lemma highlight_round_trip_plain_witness :
  plain (textContent (h3 act_2021)) = true /\
  literal "act" = true /\
  "act" <> "" /\
  exists children,
    highlightText (h3 act_2021) "act" = Done children /\
    textContent children = textContent (h3 act_2021) /\
    textContent (removeHighlights_in children) = textContent (h3 act_2021).
Proof.
  assert (plain (textContent (h3 act_2021)) = true) as Hp by (vm_compute; reflexivity).
  assert (literal "act" = true) as Hl by (vm_compute; reflexivity).
  assert ("act" <> "") as Hne by discriminate.
  split; [exact Hp|]. split; [exact Hl|]. split; [exact Hne|].
  exact (highlight_round_trip_plain (h3 act_2021) "act" Hp Hl Hne).
Defined.

(** ** What [highlightText] marks *)

Lemma strip_ci_split_match (t s rest : string) :
  strip_ci t s = Some rest ->
  exists m, s = m ++ rest /\ strip_ci t m = Some "".
Proof.
  revert s; induction t as [|a t IH]; intros s; simpl.
  - intros H; injection H as <-. exists "". auto.
  - destruct s as [|b s]; [discriminate|].
    destruct (Ascii.eqb (canonicalize a) (canonicalize b)) eqn:Hab; [|discriminate].
    intros H. destruct (IH s H) as (m & -> & Hm).
    exists (String b m). rewrite string_app_cons. simpl. rewrite Hab. auto.
Qed.

Lemma occurs_ci_nil (t : string) : t <> "" -> ~ occurs_ci t "".
Proof.
  intros Ht (pre & post & Hs & Hm). destruct pre; [|discriminate].
  change ("" ++ post) with post in Hs. subst post.
  destruct t; [contradiction|]. simpl in Hm. congruence.
Qed.

Lemma occurs_ci_cons (t : string) (c : ascii) (s : string) :
  strip_ci t (String c s) = None ->
  occurs_ci t (String c s) <-> occurs_ci t s.
Proof.
  intros Hnone. split; intros (pre & post & Hs & Hm).
  - destruct pre as [|x pre].
    + change ("" ++ post) with post in Hs. subst post. congruence.
    + rewrite string_app_cons in Hs. injection Hs as _ ->. exists pre, post. auto.
  - exists (String c pre), post. rewrite string_app_cons, Hs. auto.
Qed.

Lemma replace_segments_marked (t : string) (n : nat) (s : string) :
  t <> "" ->
  String.length s <= n ->
  exists segs,
    replace_from (literal_pattern t) highlight_replacement 0 s = render segs /\
    seg_text segs = s /\
    Forall (fun m => strip_ci t m = Some "") (marked segs) /\
    (marked segs = [] <-> ~ occurs_ci t s).
Proof.
  intros Ht. revert s; induction n as [|n IH]; intros s Hlen.
  - destruct s; [|simpl in Hlen; lia]. exists []. simpl.
    rewrite exec_at_literal. destruct t; [contradiction|].
    repeat split; auto. intros _. apply occurs_ci_nil. discriminate.
  - destruct s as [|c s'].
    { exists []. simpl. rewrite exec_at_literal. destruct t; [contradiction|].
      repeat split; auto. intros _. apply occurs_ci_nil. discriminate. }
    simpl in Hlen. cbn [replace_from]. rewrite exec_at_literal.
    destruct (strip_ci t (String c s')) as [rest|] eqn:Hstrip.
    + destruct (strip_ci_split_match _ _ _ Hstrip) as (m & Hs & Hm).
      assert (occurs_ci t (String c s')) as Hocc
        by (exists "", (String c s'); split; [reflexivity | congruence]).
      rewrite Hs, consumed_app, string_length_app.
      replace (String.length m + String.length rest - String.length rest)
        with (String.length m) by lia.
      destruct m as [|x m'].
      { destruct t; [contradiction | discriminate]. }
      rewrite string_app_cons in Hs. injection Hs as -> ->.
      cbn [String.length]. rewrite replace_from_skip.
      destruct (IH rest) as (segs & Hr & Htext & Hall & _).
      { rewrite string_length_app in Hlen. lia. }
      exists (Marked (String x m') :: segs). cbn [render seg_text marked].
      rewrite Hr, Htext, substitute_highlight, !string_app_assoc.
      split; [reflexivity|]. split; [reflexivity|].
      split; [constructor; assumption|].
      split; [discriminate | contradiction].
    + destruct (IH s') as (segs & Hr & Htext & Hall & Hiff); [lia|].
      exists (Copied c :: segs). simpl. rewrite Hr, Htext.
      split; [reflexivity|]. split; [reflexivity|]. split; [exact Hall|].
      rewrite Hiff, (occurs_ci_cons t c s' Hstrip). reflexivity.
Qed.

Lemma spans_app (a b : list Node) : spans (a ++ b) = (spans a ++ spans b)%list.
Proof.
  induction a as [|[d|d] a IH]; simpl; [reflexivity | exact IH | rewrite IH; reflexivity].
Qed.

Lemma spans_flush_text (done : list Node) (d : string) :
  spans (flush_text done d) = spans done.
Proof.
  unfold flush_text. destruct (String.eqb d ""); [reflexivity|].
  rewrite spans_app. simpl. apply List.app_nil_r.
Qed.

Lemma build_render_spans (segs : list seg) (done : list Node) (d : string) :
  exists nodes,
    build (seg_tokens segs) done (InText d) = Some nodes /\
    textContent nodes = textContent done ++ d ++ seg_text segs /\
    spans nodes = (spans done ++ marked segs)%list.
Proof.
  revert done d; induction segs as [|[c|m] r IH]; intros done d.
  - exists (flush_text done d). split; [reflexivity|].
    rewrite textContent_flush_text, spans_flush_text. simpl.
    rewrite string_app_nil_r, List.app_nil_r. auto.
  - destruct (IH done (d ++ String c "")) as (nodes & Hb & Ht & Hsp).
    exists nodes. split; [exact Hb|]. rewrite Ht, string_app_assoc. auto.
  - destruct (IH (flush_text done d ++ [HighlightSpan m])%list "")
      as (nodes' & Hb' & Ht' & Hsp').
    exists nodes'. split; [|split].
    + cbn [seg_tokens]. rewrite <- app_comm_cons. cbn [build].
      rewrite build_chars. cbn [build]. exact Hb'.
    + rewrite Ht', textContent_app, textContent_flush_text. simpl.
      rewrite string_app_nil_r, !string_app_assoc. reflexivity.
    + rewrite Hsp', spans_app, spans_flush_text. simpl.
      rewrite <- List.app_assoc. reflexivity.
Qed.

(** X17. On an element whose text has no markup character, and for a term
    with no pattern syntax, [highlightText] returns; every highlight span
    it leaves holds the term up to case, and it leaves none exactly when
    the term does not occur in the text up to case. *)
Theorem highlight_marks_occurrences (element : list Node) (term : string) :
  plain (textContent element) = true ->
  literal term = true ->
  term <> "" ->
  exists children,
    highlightText element term = Done children /\
    Forall (fun m => strip_ci term m = Some "") (spans children) /\
    (spans children = [] <-> ~ occurs_ci term (textContent element)).
Proof.
  intros Hplain Hlit Hterm. unfold highlightText.
  rewrite (RegExp_gi_literal term Hlit). unfold replace.
  destruct (replace_segments_marked term _ (textContent element) Hterm (le_n _))
    as (segs & Hr & Htext & Hall & Hiff).
  rewrite Hr. unfold parse_fragment.
  rewrite tokenize_render by (rewrite Htext; exact Hplain). simpl.
  destruct (build_render_spans segs [] "") as (nodes & Hb & _ & Hsp).
  rewrite Hb. exists nodes. split; [reflexivity|].
  simpl in Hsp. rewrite Hsp. auto.
Qed.

Lemma highlight_marks_occurrences_witness :
  plain (textContent (h3 act_2021)) = true /\
  literal "act" = true /\
  "act" <> "" /\
  exists children,
    highlightText (h3 act_2021) "act" = Done children /\
    Forall (fun m => strip_ci "act" m = Some "") (spans children) /\
    (spans children = [] <-> ~ occurs_ci "act" (textContent (h3 act_2021))).
Proof.
  assert (plain (textContent (h3 act_2021)) = true) as Hp by (vm_compute; reflexivity).
  assert (literal "act" = true) as Hl by (vm_compute; reflexivity).
  assert ("act" <> "") as Hne by discriminate.
  split; [exact Hp|]. split; [exact Hl|]. split; [exact Hne|].
  exact (highlight_marks_occurrences (h3 act_2021) "act" Hp Hl Hne).
Defined.

(** ** The order of the timers of one pass *)

Lemma filter_event_hides (i : nat) (w w' : World) :
  filter_event i w = Done w' ->
  now (loop w') = now (loop w) /\
  exists added,
    timers (loop w') = (timers (loop w) ++ added)%list /\
    Forall (fun t => due t = now (loop w) + 300 /\ exists k, job t = HideIfFaded k)
      added.
Proof.
  unfold filter_event.
  destruct (matchesSearch (this w) i) as [ms|]; [|discriminate].
  destruct (matchesFilter (this w) i) as [mf|]; [|discriminate].
  destruct (ms && mf).
  - intros H.
    assert (loop w' = loop w) as ->.
    { destruct (truthy (JStr (currentSearchTerm (this w)))).
      - apply (f_equal final) in H. simpl in H.
        apply highlightSearchTerm_loop in H. exact H.
      - injection H as <-. reflexivity. }
    split; [reflexivity|]. exists []. rewrite List.app_nil_r. auto.
  - intros H; injection H as <-. simpl. split; [reflexivity|].
    eexists. split; [reflexivity|]. constructor; [|constructor]. simpl. eauto.
Qed.

Lemma forEach_hides (nodes : list nat) (w w' : World) :
  forEach filter_event nodes w = Done w' ->
  now (loop w') = now (loop w) /\
  exists added,
    timers (loop w') = (timers (loop w) ++ added)%list /\
    Forall (fun t => due t = now (loop w) + 300 /\ exists k, job t = HideIfFaded k)
      added.
Proof.
  revert w; induction nodes as [|i rest IH]; intros w; simpl.
  - intros H; injection H as <-. split; [reflexivity|].
    exists []. rewrite List.app_nil_r. auto.
  - destruct (filter_event i w) as [x|e x|] eqn:Hi; simpl; try discriminate.
    intros H. destruct (filter_event_hides i w x Hi) as (Hnow1 & a1 & Ht1 & Ha1).
    destruct (IH x H) as (Hnow2 & a2 & Ht2 & Ha2).
    split; [congruence|]. exists (a1 ++ a2)%list. split.
    + rewrite Ht2, Ht1, List.app_assoc. reflexivity.
    + apply Forall_app. split; [exact Ha1|]. rewrite Hnow1 in Ha2. exact Ha2.
Qed.

Lemma pop_earliest_last (hides : list Timer) (s : Timer) :
  Forall (fun t => due s < due t) hides ->
  pop_earliest (hides ++ [s]) = Some (s, hides).
Proof.
  induction hides as [|h hs IH]; intros Hall; [reflexivity|].
  apply Forall_cons in Hall as [Hh Hhs]. simpl. rewrite (IH Hhs).
  destruct (Nat.ltb_spec (due s) (due h)); [reflexivity | lia].
Qed.

Lemma run_timers_hides_sections (n : nat) (w : World) :
  Forall (fun t => exists k, job t = HideIfFaded k) (timers (loop w)) ->
  timelineSections (page (run_timers n w)) = timelineSections (page w).
Proof.
  revert w; induction n as [|n IH]; intros w Hall; [reflexivity|].
  simpl. unfold run_timer.
  destruct (pop_earliest (timers (loop w))) as [[t rest]|] eqn:Hpop; [|reflexivity].
  apply pop_earliest_perm in Hpop. rewrite Hpop in Hall.
  apply Forall_cons in Hall as [[k Hk] Hrest]. rewrite Hk.
  rewrite IH; [reflexivity|]. exact Hrest.
Qed.

(** X18. Of the timers a pass sets when none was pending, the one that
    updates the sections fires first, 200 ms after the pass and before the
    timers of [hideEvent], which wait 300 ms; the [display] it gives the
    sections is the one they have when all the timers have fired. *)
Theorem section_update_precedes_hiding (w w' : World) :
  timers (loop w) = [] ->
  applyAllFilters_frame w = Done w' ->
  exists t rest w'',
    pop_earliest (timers (loop w')) = Some (t, rest) /\
    job t = SectionVisibility /\
    due t = now (loop w) + 200 /\
    Forall (fun x => due x = now (loop w) + 300 /\ exists k, job x = HideIfFaded k)
      rest /\
    run_timer w' = Some w'' /\
    timelineSections (page (settle w')) = timelineSections (page w'').
Proof.
  intros Hnone. unfold applyAllFilters_frame.
  destruct (forEach _ _ w) as [x|e x|] eqn:Hx; simpl; try discriminate.
  intros H; injection H as <-.
  destruct (forEach_hides _ w x Hx) as (Hnow & added & Ht & Hall).
  rewrite Hnone in Ht. simpl in Ht.
  set (s := mkTimer (next_timer (loop x)) (now (loop x) + 200) SectionVisibility).
  assert (pop_earliest (added ++ [s]) = Some (s, added)) as Hpop.
  { apply pop_earliest_last. apply (Forall_impl _ _ _ Hall).
    intros t [Hd _]. subst s. simpl. lia. }
  unfold settle, run_timer. simpl. rewrite Ht. fold s. rewrite Hpop.
  eexists s, added, _. split; [reflexivity|]. split; [reflexivity|].
  split; [subst s; simpl; congruence|]. split; [exact Hall|].
  split; [reflexivity|].
  rewrite length_app. simpl. rewrite Nat.add_1_r. simpl. unfold run_timer.
  simpl. rewrite Ht. fold s. rewrite Hpop.
  rewrite run_timers_hides_sections; [reflexivity|].
  simpl. apply (Forall_impl _ _ _ Hall). intros t [_ Hk]. exact Hk.
Qed.

Lemma section_update_precedes_hiding_witness :
  timers (loop term_2021) = [] /\
  applyAllFilters_frame term_2021 = Done pass_2021 /\
  exists t rest w'',
    pop_earliest (timers (loop pass_2021)) = Some (t, rest) /\
    job t = SectionVisibility /\
    due t = now (loop term_2021) + 200 /\
    Forall (fun x => due x = now (loop term_2021) + 300 /\
                     exists k, job x = HideIfFaded k) rest /\
    run_timer pass_2021 = Some w'' /\
    timelineSections (page (settle pass_2021)) = timelineSections (page w'').
Proof.
  assert (applyAllFilters_frame term_2021 = Done pass_2021) as H1
    by (vm_compute; reflexivity).
  split; [reflexivity|]. split; [exact H1|].
  exact (section_update_precedes_hiding term_2021 pass_2021 eq_refl H1).
Defined.

Lemma pass_shows_exactly_matches_witness :
  applyAllFilters_frame term_2021 = Done pass_2021 /\
  events (page pass_2021) !! 1
  = Some (set_style (mkStyle "" "0" "translateY(-10px)") seed_round) /\
  exists ms mf : bool,
    matchesSearch (this term_2021) 1 = Some ms /\
    matchesFilter (this term_2021) 1 = Some mf /\
    (ms && mf = true ->
     display (style (set_style (mkStyle "" "0" "translateY(-10px)") seed_round))
     = "flex" /\
     opacity (style (set_style (mkStyle "" "0" "translateY(-10px)") seed_round))
     = "1") /\
    (ms && mf = false ->
     opacity (style (set_style (mkStyle "" "0" "translateY(-10px)") seed_round))
     = "0") /\
    is_visible (set_style (mkStyle "" "0" "translateY(-10px)") seed_round)
    = ms && mf.
Proof.
  assert (applyAllFilters_frame term_2021 = Done pass_2021) as H1
    by (vm_compute; reflexivity).
  assert (events (page pass_2021) !! 1
          = Some (set_style (mkStyle "" "0" "translateY(-10px)") seed_round)) as H2
    by (vm_compute; reflexivity).
  split; [exact H1|]. split; [exact H2|].
  exact (pass_shows_exactly_matches term_2021 pass_2021 1 _ H1 H2).
Defined.
